(** * ErosionSimulator: a shallow embedding of the hydraulic erosion engine

    The engine (class [ErosionSimulator]) and the worker that owns one
    instance of it ([erosionWorker.js]) are translated function by function.

    Conventions of the embedding.
    - A JavaScript number is an exact rational ([Qc], canonical fractions, so
      that equality is Leibniz equality and terms compute).  Rounding, NaN,
      infinities and the sign of zero are outside the model; a division by
      zero, which gives NaN or an infinity in the source, is the rational
      division by zero of [Qc] (it yields 0), and the theorems that depend
      on it say so in their hypotheses.
    - Grid dimensions, cell coordinates and array indices are integers ([Z]).
    - A [Float32Array] is a [list Qc]; a read outside the array ([undefined]
      in the source) reads 0 and a write outside the array is dropped, as
      typed arrays do.
    - [Math.sqrt], [Math.pow], [Math.atan], [Math.PI] and the stream of
      values returned by [Math.random] are the fields of a record [MathEnv]
      that every function of the engine takes; [approxMath] is one concrete
      environment, used to run the model.
    - A field of the engine that the constructor may leave unset is an
      [option]; using an unset map inside [stepDroplets] raises [TypeError],
      and the state reached at the throw is kept in the result. *)

From Stdlib Require Import ZArith QArith Qcanon Qround Lia Lqa List String Bool.
From stdpp Require Import base list.

Open Scope Z_scope.
Open Scope Qc_scope.

(** ** Numbers *)

Definition Z2Qc (z : Z) : Qc := Q2Qc (inject_Z z).
Definition frac (n : Z) (d : positive) : Qc := Q2Qc (n # d).
Coercion Z2Qc : Z >-> Qc.

Definition Math_floor (x : Qc) : Z := Qfloor x.

Definition ltb (a b : Qc) : bool := if Qclt_le_dec a b then true else false.
Definition leb (a b : Qc) : bool := if Qclt_le_dec b a then false else true.
Definition gtb (a b : Qc) : bool := ltb b a.
Definition geb (a b : Qc) : bool := leb b a.
Definition eqb (a b : Qc) : bool := if Qc_eq_dec a b then true else false.

Definition Math_max (a b : Qc) : Qc := if ltb a b then b else a.
Definition Math_min (a b : Qc) : Qc := if ltb b a then b else a.

(** The numeric functions of the host that have no rational closed form. *)
Record MathEnv := {
  Math_sqrt : Qc -> Qc;
  Math_pow : Qc -> Qc -> Qc;
  Math_atan : Qc -> Qc;
  Math_PI : Qc;
  (** [Math_random n] is the value of the n-th call of [Math.random]. *)
  Math_random : nat -> Qc
}.

(** ** Typed arrays *)

Definition get (a : list Qc) (i : Z) : Qc :=
  if (i <? 0)%Z then 0 else default 0 (a !! Z.to_nat i).

Definition set (a : list Qc) (i : Z) (v : Qc) : list Qc :=
  if (i <? 0)%Z then a else <[Z.to_nat i := v]> a.

(** [new Float32Array(n)]: n zeros. *)
Definition zeros (n : Z) : list Qc := replicate (Z.to_nat n) 0.

(** ** The noise field *)

Definition permutation : list Z := [
  151;160;137;91;90;15;131;13;201;95;96;53;194;233;7;225;140;36;103;30;69;142;8;99;37;240;21;10;23;
  190;6;148;247;120;234;75;0;26;197;62;94;252;219;203;117;35;11;32;57;177;33;88;237;149;56;87;174;20;125;136;171;168;
  68;175;74;165;71;134;139;48;27;166;77;146;158;231;83;111;229;122;60;211;133;230;220;105;92;41;55;46;245;40;244;
  102;143;54;65;25;63;161;1;216;80;73;209;76;132;187;208;89;18;169;200;196;135;130;116;188;159;86;164;100;109;198;173;186;
  3;64;52;217;226;250;124;123;5;202;38;147;118;126;255;82;85;212;207;206;59;227;47;16;58;17;182;189;28;42;
  223;183;170;213;119;248;152;2;44;154;163;70;221;153;101;155;167;43;172;9;129;22;39;253;19;98;108;110;79;113;224;232;178;185;
  112;104;218;246;97;228;251;34;242;193;238;210;144;12;191;179;162;241;81;51;145;235;249;14;239;107;
  49;192;214;31;181;199;106;157;184;84;204;176;115;121;50;45;127;4;150;254;138;236;205;93;222;114;67;29;24;72;243;141;128;195;78;66;215;61;156;180
]%Z.

(** The constructor fills [_p[i]] and [_p[i + 256]] with [permutation[i]]
    for i = 0..255; the table never changes afterwards. *)
Definition _p : list Z := permutation ++ permutation.

Definition p_at (i : Z) : Z := nth (Z.to_nat i) _p 0%Z.

Definition _fade (t : Qc) : Qc := t * t * t * (t * (t * 6%Z - 15%Z) + 10%Z).

Definition _lerp (t a b : Qc) : Qc := a + t * (b - a).

Definition _grad (hash : Z) (x y : Qc) : Qc :=
  let h := Z.land hash 15 in
  let gradX := (1 + Z.land h 7)%Z in
  let gradY := (1 + Z.shiftr h 4)%Z in
  (if (Z.land h 8 =? 0)%Z then Z2Qc gradX else - Z2Qc gradX) * x
  + (if (Z.land h 8 =? 0)%Z then Z2Qc gradY else - Z2Qc gradY) * y.

Definition _noise2D (x y : Qc) : Qc :=
  let X := Z.land (Math_floor x) 255 in
  let Y := Z.land (Math_floor y) 255 in
  let x := x - Math_floor x in
  let y := y - Math_floor y in
  let u := _fade x in
  let v := _fade y in
  let A := (p_at X + Y)%Z in
  let B := (p_at (X + 1) + Y)%Z in
  _lerp v
    (_lerp u (_grad (p_at A) x y) (_grad (p_at B) (x - 1) y))
    (_lerp u (_grad (p_at (A + 1)) x (y - 1)) (_grad (p_at (B + 1)) (x - 1) (y - 1))).

(** ** Bilinear sampling of a grid *)

Definition toIndex (width x y : Z) : Z := (y * width + x)%Z.

Definition _bilinearInterp (width height : Z) (heightMap : list Qc) (x y : Qc) : Qc :=
  let cellX := Math_floor x in
  let cellY := Math_floor y in
  let offX := x - cellX in
  let offY := y - cellY in
  if (cellX <? 0)%Z || (cellY <? 0)%Z || (cellX >=? width - 1)%Z || (cellY >=? height - 1)%Z
  then 0
  else
    let h00 := get heightMap (toIndex width cellX cellY) in
    let h10 := get heightMap (toIndex width (cellX + 1) cellY) in
    let h01 := get heightMap (toIndex width cellX (cellY + 1)) in
    let h11 := get heightMap (toIndex width (cellX + 1) (cellY + 1)) in
    h00 * (1 - offX) * (1 - offY) + h10 * offX * (1 - offY)
    + h01 * (1 - offX) * offY + h11 * offX * offY.

Definition _calcGradient (width height : Z) (heightMap : list Qc) (x y : Qc) : Qc * Qc :=
  let cellX := Math_floor x in
  let cellY := Math_floor y in
  if (cellX <? 1)%Z || (cellY <? 1)%Z || (cellX >=? width - 2)%Z || (cellY >=? height - 2)%Z
  then (0, 0)
  else
    let hL := _bilinearInterp width height heightMap (x - 1) y in
    let hR := _bilinearInterp width height heightMap (x + 1) y in
    let hD := _bilinearInterp width height heightMap x (y - 1) in
    let hU := _bilinearInterp width height heightMap x (y + 1) in
    ((hR - hL) * frac 1 2, (hU - hD) * frac 1 2).

(** ** Parameters *)

Inductive Grain := veryFine | fine | medium | coarse | veryCoarse.

Record SedimentSize := {
  grainSize : Qc;         (* size *)
  grainCapacity : Qc;     (* capacity *)
  angleOfRepose : Qc
}.

Record Params := {
  inertia : Qc;
  friction : Qc;
  sedimentCapacityFactor : Qc;
  depositionRate : Qc;
  evaporationRate : Qc;
  minVolume : Qc;
  initialVolume : Qc;
  initialSpeed : Qc;
  maxDropletLifetime : Qc;
  useMultiScale : bool;
  scales : list Qc;
  scaleWeights : list Qc;
  useSedimentSizes : bool;
  (** The entries of the object, in the order [Object.entries] lists them. *)
  sedimentSizes : list (Grain * SedimentSize);
  useFlowAccumulation : bool;
  flowAccumulationFactor : Qc;
  useTemperature : bool;
  temperature : Qc;
  viscosityFactor : Qc;
  useMicroDetails : bool;
  microDetailScale : Qc;
  microDetailStrength : Qc;
  useTalusFormation : bool;
  talusAngleThreshold : Qc;
  talusFormationRate : Qc;
  talusParticleSize : Qc;
  talusStabilityFactor : Qc;
  talusErosionRate : Qc;
  talusDepositionRate : Qc;
  talusMaxHeight : Qc;
  talusMinSlope : Qc;
  talusMaxSlope : Qc
}.

(** The [params] argument of the constructor: an object that may define any
    of the keys above. *)
Record Overlay := {
  o_inertia : option Qc;
  o_friction : option Qc;
  o_sedimentCapacityFactor : option Qc;
  o_depositionRate : option Qc;
  o_evaporationRate : option Qc;
  o_minVolume : option Qc;
  o_initialVolume : option Qc;
  o_initialSpeed : option Qc;
  o_maxDropletLifetime : option Qc;
  o_useMultiScale : option bool;
  o_scales : option (list Qc);
  o_scaleWeights : option (list Qc);
  o_useSedimentSizes : option bool;
  o_sedimentSizes : option (list (Grain * SedimentSize));
  o_useFlowAccumulation : option bool;
  o_flowAccumulationFactor : option Qc;
  o_useTemperature : option bool;
  o_temperature : option Qc;
  o_viscosityFactor : option Qc;
  o_useMicroDetails : option bool;
  o_microDetailScale : option Qc;
  o_microDetailStrength : option Qc;
  o_useTalusFormation : option bool;
  o_talusAngleThreshold : option Qc;
  o_talusFormationRate : option Qc;
  o_talusParticleSize : option Qc;
  o_talusStabilityFactor : option Qc;
  o_talusErosionRate : option Qc;
  o_talusDepositionRate : option Qc;
  o_talusMaxHeight : option Qc;
  o_talusMinSlope : option Qc;
  o_talusMaxSlope : option Qc
}.

(** [{}], the default value of the [params] argument. *)
Definition noOverlay : Overlay :=
  Build_Overlay None None None None None None None None None None None None
                None None None None None None None None None None None None
                None None None None None None None None.

Definition resolutionFactor (M : MathEnv) (width height : Z) : Qc :=
  Math_sqrt M (Z2Qc (width * height) / Z2Qc (500 * 500)).

Definition scaledParams (M : MathEnv) (width height : Z) : Params :=
  let rf := resolutionFactor M width height in
  {| inertia := frac 1 100 * Math_pow M rf (- frac 1 2);
     friction := frac 5 1000 * Math_pow M rf (- frac 1 2);
     sedimentCapacityFactor := 1 * rf;
     depositionRate := frac 8 100 * rf;
     evaporationRate := frac 2 1000 * Math_pow M rf (- frac 1 2);
     minVolume := frac 1 1000 * Math_pow M rf (- 1);
     initialVolume := frac 2 10 * rf;
     initialSpeed := frac 2 10 * Math_sqrt M rf;
     maxDropletLifetime := Z2Qc (Math_floor (120%Z * Math_sqrt M rf));
     useMultiScale := true;
     scales := map (fun s => s * rf) [1; frac 1 2; frac 1 4; frac 1 8; frac 1 16];
     scaleWeights := [frac 3 10; frac 1 4; frac 2 10; frac 15 100; frac 1 10];
     useSedimentSizes := true;
     sedimentSizes :=
       [ (veryFine, {| grainSize := frac 2 100 * rf; grainCapacity := 1; angleOfRepose := 35%Z |});
         (fine, {| grainSize := frac 5 100 * rf; grainCapacity := frac 8 10; angleOfRepose := 32%Z |});
         (medium, {| grainSize := frac 1 10 * rf; grainCapacity := frac 6 10; angleOfRepose := 30%Z |});
         (coarse, {| grainSize := frac 2 10 * rf; grainCapacity := frac 4 10; angleOfRepose := 28%Z |});
         (veryCoarse, {| grainSize := frac 4 10 * rf; grainCapacity := frac 2 10; angleOfRepose := 25%Z |}) ];
     useFlowAccumulation := true;
     flowAccumulationFactor := frac 5 100 * rf;
     useTemperature := true;
     temperature := 20%Z;
     viscosityFactor := frac 1 100 * Math_pow M rf (- frac 1 2);
     useMicroDetails := true;
     microDetailScale := frac 1 100 * rf;
     microDetailStrength := frac 1 10 * rf;
     useTalusFormation := true;
     talusAngleThreshold := 30%Z;
     talusFormationRate := frac 15 100 * rf;
     talusParticleSize := frac 1 10 * rf;
     talusStabilityFactor := frac 8 10;
     talusErosionRate := frac 5 100 * rf;
     talusDepositionRate := frac 1 10 * rf;
     talusMaxHeight := frac 5 10 * rf;
     talusMinSlope := 25%Z;
     talusMaxSlope := 45%Z |}.

(** [Object.assign(scaledParams, params)]: every key the overlay defines
    replaces the scaled default. *)
Definition Object_assign (s : Params) (o : Overlay) : Params :=
  {| inertia := default (inertia s) (o_inertia o);
     friction := default (friction s) (o_friction o);
     sedimentCapacityFactor := default (sedimentCapacityFactor s) (o_sedimentCapacityFactor o);
     depositionRate := default (depositionRate s) (o_depositionRate o);
     evaporationRate := default (evaporationRate s) (o_evaporationRate o);
     minVolume := default (minVolume s) (o_minVolume o);
     initialVolume := default (initialVolume s) (o_initialVolume o);
     initialSpeed := default (initialSpeed s) (o_initialSpeed o);
     maxDropletLifetime := default (maxDropletLifetime s) (o_maxDropletLifetime o);
     useMultiScale := default (useMultiScale s) (o_useMultiScale o);
     scales := default (scales s) (o_scales o);
     scaleWeights := default (scaleWeights s) (o_scaleWeights o);
     useSedimentSizes := default (useSedimentSizes s) (o_useSedimentSizes o);
     sedimentSizes := default (sedimentSizes s) (o_sedimentSizes o);
     useFlowAccumulation := default (useFlowAccumulation s) (o_useFlowAccumulation o);
     flowAccumulationFactor := default (flowAccumulationFactor s) (o_flowAccumulationFactor o);
     useTemperature := default (useTemperature s) (o_useTemperature o);
     temperature := default (temperature s) (o_temperature o);
     viscosityFactor := default (viscosityFactor s) (o_viscosityFactor o);
     useMicroDetails := default (useMicroDetails s) (o_useMicroDetails o);
     microDetailScale := default (microDetailScale s) (o_microDetailScale o);
     microDetailStrength := default (microDetailStrength s) (o_microDetailStrength o);
     useTalusFormation := default (useTalusFormation s) (o_useTalusFormation o);
     talusAngleThreshold := default (talusAngleThreshold s) (o_talusAngleThreshold o);
     talusFormationRate := default (talusFormationRate s) (o_talusFormationRate o);
     talusParticleSize := default (talusParticleSize s) (o_talusParticleSize o);
     talusStabilityFactor := default (talusStabilityFactor s) (o_talusStabilityFactor o);
     talusErosionRate := default (talusErosionRate s) (o_talusErosionRate o);
     talusDepositionRate := default (talusDepositionRate s) (o_talusDepositionRate o);
     talusMaxHeight := default (talusMaxHeight s) (o_talusMaxHeight o);
     talusMinSlope := default (talusMinSlope s) (o_talusMinSlope o);
     talusMaxSlope := default (talusMaxSlope s) (o_talusMaxSlope o) |}.

(** ** Droplets *)

Record Distribution := {
  w_veryFine : Qc;
  w_fine : Qc;
  w_medium : Qc;
  w_coarse : Qc;
  w_veryCoarse : Qc
}.

(** [d.sedimentDistribution[type]] *)
Definition weightOf (sd : Distribution) (g : Grain) : Qc :=
  match g with
  | veryFine => w_veryFine sd
  | fine => w_fine sd
  | medium => w_medium sd
  | coarse => w_coarse sd
  | veryCoarse => w_veryCoarse sd
  end.

Module Droplet.
Record t := mk {
  x : Qc;
  y : Qc;
  dx : Qc;
  dy : Qc;
  speed : Qc;
  water : Qc;
  sediment : Qc;
  lifetime : Z;
  alive : bool;
  sedimentDistribution : option Distribution
}.
End Droplet.

(** ** The engine *)

Inductive Exn := TypeError | RangeError.

(** How a method ends: normally, or by an exception; either way the engine
    has the state [s]. *)
Inductive Completion (S : Type) : Type :=
  | Normal (s : S)
  | Throw (e : Exn) (s : S).
Arguments Normal {S} s.
Arguments Throw {S} e s.

(** Sequencing: [k] continues a normal completion; an exception goes on to
    the caller, [onThrow] giving the caller's view of the state reached at
    the throw. *)
Definition bind {S T : Type} (c : Completion S) (k : S -> Completion T) (onThrow : S -> T) : Completion T :=
  match c with
  | Normal s => k s
  | Throw e s => Throw e (onThrow s)
  end.

Definition stateOf {S : Type} (c : Completion S) : S :=
  match c with Normal s => s | Throw _ s => s end.

Record ErosionSimulator := {
  width : Z;
  height : Z;
  heightMap : list Qc;
  params : Params;
  flowMap : option (list Qc);
  microDetailMap : option (list Qc);
  microDetailNoise : option (list Qc);
  talusMap : option (list Qc);
  slopeMap : option (list Qc);
  droplets : option (list Droplet.t);
  dropletsActive : option bool;
  (** Ghost field: how many values of [Math.random] have been consumed. *)
  randomCalls : nat
}.

Definition with_heightMap (s : ErosionSimulator) (v : list Qc) : ErosionSimulator :=
  {| width := width s; height := height s; heightMap := v; params := params s;
     flowMap := flowMap s; microDetailMap := microDetailMap s;
     microDetailNoise := microDetailNoise s; talusMap := talusMap s; slopeMap := slopeMap s;
     droplets := droplets s; dropletsActive := dropletsActive s; randomCalls := randomCalls s |}.

Definition with_flowMap (s : ErosionSimulator) (v : option (list Qc)) : ErosionSimulator :=
  {| width := width s; height := height s; heightMap := heightMap s; params := params s;
     flowMap := v; microDetailMap := microDetailMap s;
     microDetailNoise := microDetailNoise s; talusMap := talusMap s; slopeMap := slopeMap s;
     droplets := droplets s; dropletsActive := dropletsActive s; randomCalls := randomCalls s |}.

Definition with_microDetailMap (s : ErosionSimulator) (v : option (list Qc)) : ErosionSimulator :=
  {| width := width s; height := height s; heightMap := heightMap s; params := params s;
     flowMap := flowMap s; microDetailMap := v;
     microDetailNoise := microDetailNoise s; talusMap := talusMap s; slopeMap := slopeMap s;
     droplets := droplets s; dropletsActive := dropletsActive s; randomCalls := randomCalls s |}.

Definition with_microDetailNoise (s : ErosionSimulator) (v : option (list Qc)) : ErosionSimulator :=
  {| width := width s; height := height s; heightMap := heightMap s; params := params s;
     flowMap := flowMap s; microDetailMap := microDetailMap s;
     microDetailNoise := v; talusMap := talusMap s; slopeMap := slopeMap s;
     droplets := droplets s; dropletsActive := dropletsActive s; randomCalls := randomCalls s |}.

Definition with_talusMap (s : ErosionSimulator) (v : option (list Qc)) : ErosionSimulator :=
  {| width := width s; height := height s; heightMap := heightMap s; params := params s;
     flowMap := flowMap s; microDetailMap := microDetailMap s;
     microDetailNoise := microDetailNoise s; talusMap := v; slopeMap := slopeMap s;
     droplets := droplets s; dropletsActive := dropletsActive s; randomCalls := randomCalls s |}.

Definition with_slopeMap (s : ErosionSimulator) (v : option (list Qc)) : ErosionSimulator :=
  {| width := width s; height := height s; heightMap := heightMap s; params := params s;
     flowMap := flowMap s; microDetailMap := microDetailMap s;
     microDetailNoise := microDetailNoise s; talusMap := talusMap s; slopeMap := v;
     droplets := droplets s; dropletsActive := dropletsActive s; randomCalls := randomCalls s |}.

Definition with_droplets (s : ErosionSimulator) (v : option (list Droplet.t)) : ErosionSimulator :=
  {| width := width s; height := height s; heightMap := heightMap s; params := params s;
     flowMap := flowMap s; microDetailMap := microDetailMap s;
     microDetailNoise := microDetailNoise s; talusMap := talusMap s; slopeMap := slopeMap s;
     droplets := v; dropletsActive := dropletsActive s; randomCalls := randomCalls s |}.

Definition with_dropletsActive (s : ErosionSimulator) (v : option bool) : ErosionSimulator :=
  {| width := width s; height := height s; heightMap := heightMap s; params := params s;
     flowMap := flowMap s; microDetailMap := microDetailMap s;
     microDetailNoise := microDetailNoise s; talusMap := talusMap s; slopeMap := slopeMap s;
     droplets := droplets s; dropletsActive := v; randomCalls := randomCalls s |}.

Definition with_randomCalls (s : ErosionSimulator) (v : nat) : ErosionSimulator :=
  {| width := width s; height := height s; heightMap := heightMap s; params := params s;
     flowMap := flowMap s; microDetailMap := microDetailMap s;
     microDetailNoise := microDetailNoise s; talusMap := talusMap s; slopeMap := slopeMap s;
     droplets := droplets s; dropletsActive := dropletsActive s; randomCalls := v |}.

(** The integers lo, lo+1, ..., hi-1: the values a counting [for] loop
    gives its variable. *)
Definition range (lo hi : Z) : list Z :=
  map (fun i => (lo + Z.of_nat i)%Z) (seq 0 (Z.to_nat (hi - lo))).

(** The four octaves summed for one cell of the micro-detail noise. *)
Definition octaves (nx ny : Qc) : Qc :=
  fst (fold_left
         (fun (acc : Qc * (Qc * Qc)) (_ : nat) =>
            let '(value, (amplitude, frequency)) := acc in
            (value + _noise2D (nx * frequency) (ny * frequency) * amplitude,
             (amplitude * frac 1 2, frequency * 2%Z)))
         (seq 0 4) (0, (1, 1))).

Definition _initializeMicroDetailNoise (p : Params) (width height : Z)
    (microDetailNoise : list Qc) : list Qc :=
  let scale := microDetailScale p in
  fold_left
    (fun noise y =>
       fold_left
         (fun noise x =>
            let nx := Z2Qc x * scale in
            let ny := Z2Qc y * scale in
            set noise (y * width + x)%Z (octaves nx ny * microDetailStrength p))
         (range 0 width) noise)
    (range 0 height) microDetailNoise.

Definition slopeAt (M : MathEnv) (width : Z) (heightMap : list Qc) (x y : Z) : Qc :=
  let idx := (y * width + x)%Z in
  let dx := (get heightMap (idx + 1) - get heightMap (idx - 1)) / 2%Z in
  let dy := (get heightMap ((y + 1) * width + x) - get heightMap ((y - 1) * width + x)) / 2%Z in
  Math_atan M (Math_sqrt M (dx * dx + dy * dy)) * (180%Z / Math_PI M).

Definition _computeSlopeMap (M : MathEnv) (width height : Z) (heightMap : list Qc)
    (slopeMap : list Qc) : list Qc :=
  fold_left
    (fun slope y =>
       fold_left
         (fun slope x => set slope (y * width + x)%Z (slopeAt M width heightMap x y))
         (range 1 (width - 1)) slope)
    (range 1 (height - 1)) slopeMap.

(** The maps allocated by the constructor and again by [reset]:
    [new Float32Array(n)] raises [RangeError] for a negative length. *)
Definition allocateMaps (M : MathEnv) (s : ErosionSimulator) : Completion ErosionSimulator :=
  let p := params s in
  let n := (width s * height s)%Z in
  let alloc (flag : bool) (k : ErosionSimulator -> Completion ErosionSimulator)
      (s : ErosionSimulator) : Completion ErosionSimulator :=
      if flag then (if (n <? 0)%Z then Throw RangeError s else k s) else Normal s in
  bind (alloc (useFlowAccumulation p)
          (fun s => Normal (with_flowMap s (Some (zeros n)))) s)
    (fun s =>
  bind (alloc (useMultiScale p)
          (fun s => Normal (with_microDetailMap s (Some (zeros n)))) s)
    (fun s =>
  bind (alloc (useMicroDetails p)
          (fun s => Normal (with_microDetailNoise s
             (Some (_initializeMicroDetailNoise p (width s) (height s) (zeros n))))) s)
    (fun s =>
       alloc (useTalusFormation p)
          (fun s => Normal (with_slopeMap (with_talusMap s (Some (zeros n)))
             (Some (_computeSlopeMap M (width s) (height s) (heightMap s) (zeros n))))) s)
    id) id) id.

(** [new ErosionSimulator(width, height, heightMap, params)], called when
    [Math.random] has been used [calls] times. *)
Definition construct (M : MathEnv) (width height : Z) (heightMap : list Qc)
    (overlay : Overlay) (calls : nat) : Completion ErosionSimulator :=
  allocateMaps M
    {| width := width; height := height; heightMap := heightMap;
       params := Object_assign (scaledParams M width height) overlay;
       flowMap := None; microDetailMap := None; microDetailNoise := None;
       talusMap := None; slopeMap := None;
       droplets := None; dropletsActive := None; randomCalls := calls |}.

Definition _calculateInitialSedimentDistribution (M : MathEnv) (calls : nat) : Distribution :=
  {| w_veryFine := Math_random M calls * frac 3 10 + frac 4 10;
     w_fine := Math_random M (calls + 1) * frac 2 10 + frac 2 10;
     w_medium := Math_random M (calls + 2) * frac 15 100 + frac 1 10;
     w_coarse := Math_random M (calls + 3) * frac 1 10 + frac 5 100;
     w_veryCoarse := Math_random M (calls + 4) * frac 5 100 + frac 2 100 |}.

Definition _createDroplet (M : MathEnv) (s : ErosionSimulator) : Droplet.t * ErosionSimulator :=
  let c := randomCalls s in
  let p := params s in
  ( {| Droplet.x := Math_random M c * Z2Qc (width s - 2) + 1;
       Droplet.y := Math_random M (c + 1) * Z2Qc (height s - 2) + 1;
       Droplet.dx := 0;
       Droplet.dy := 0;
       Droplet.speed := initialSpeed p;
       Droplet.water := initialVolume p;
       Droplet.sediment := 0;
       Droplet.lifetime := 0;
       Droplet.alive := true;
       Droplet.sedimentDistribution :=
         if useSedimentSizes p
         then Some (_calculateInitialSedimentDistribution M (c + 2))
         else None |},
    with_randomCalls s (if useSedimentSizes p then c + 7 else c + 2)%nat ).

(** [Array(n).fill().map(() => this._createDroplet())], also the loop of
    [resetDroplets]: n droplets created one after the other. *)
Fixpoint createDroplets (M : MathEnv) (n : nat) (s : ErosionSimulator)
    : list Droplet.t * ErosionSimulator :=
  match n with
  | O => ([], s)
  | S n' =>
      let '(d, s1) := _createDroplet M s in
      let '(ds, s2) := createDroplets M n' s1 in
      (d :: ds, s2)
  end.

Definition resetDroplets (M : MathEnv) (numDroplets : nat) (s : ErosionSimulator)
    : ErosionSimulator :=
  let '(ds, s1) := createDroplets M numDroplets s in
  with_dropletsActive (with_droplets s1 (Some ds)) (Some true).

Definition _calculateViscosity (p : Params) (temperature water : Qc) : Qc :=
  if negb (useTemperature p) then 1
  else
    let baseViscosity := 1 / (1 + temperature * viscosityFactor p) in
    baseViscosity * (1 - water * frac 1 10).

(** The cells a call of [_bilinearAdd] writes: it does nothing outside. *)
Definition inGrid (width height x y : Z) : bool :=
  (x >=? 0)%Z && (y >=? 0)%Z && (x <? width - 1)%Z && (y <? height - 1)%Z.

Definition _bilinearAdd (width height : Z) (heightMap : list Qc)
    (x y : Z) (offX offY value : Qc) : list Qc :=
  let w00 := (1 - offX) * (1 - offY) in
  let w10 := offX * (1 - offY) in
  let w01 := (1 - offX) * offY in
  let w11 := offX * offY in
  if inGrid width height x y then
    let i00 := toIndex width x y in
    let i10 := toIndex width (x + 1) y in
    let i01 := toIndex width x (y + 1) in
    let i11 := toIndex width (x + 1) (y + 1) in
    let m := set heightMap i00 (get heightMap i00 + value * w00) in
    let m := set m i10 (get m i10 + value * w10) in
    let m := set m i01 (get m i01 + value * w01) in
    let m := set m i11 (get m i11 + value * w11) in
    (* Clamp to zero *)
    let m := set m i00 (Math_max 0 (get m i00)) in
    let m := set m i10 (Math_max 0 (get m i10)) in
    let m := set m i01 (Math_max 0 (get m i01)) in
    let m := set m i11 (Math_max 0 (get m i11)) in
    m
  else heightMap.

(** [_bilinearAdd] called on a field of the engine that may be unset: the
    first write raises [TypeError]. *)
Definition _bilinearAdd_field (width height : Z) (field : option (list Qc))
    (x y : Z) (offX offY value : Qc) : Exn + option (list Qc) :=
  if inGrid width height x y then
    match field with
    | Some m => inr (Some (_bilinearAdd width height m x y offX offY value))
    | None => inl TypeError
    end
  else inr field.

Definition _updateTalusFormation (s : ErosionSimulator) (x y erosion deposition : Qc)
    : Completion ErosionSimulator :=
  let p := params s in
  if negb (useTalusFormation p) then Normal s
  else
    let idx := (Math_floor y * width s + Math_floor x)%Z in
    match slopeMap s with
    | None => Throw TypeError s
    | Some sm =>
        let slope := get sm idx in
        if geb slope (talusMinSlope p) && leb slope (talusMaxSlope p) then
          let talusFactor := (slope - talusMinSlope p) / (talusMaxSlope p - talusMinSlope p) in
          let talusChange :=
            (erosion * talusErosionRate p - deposition * talusDepositionRate p)
            * talusFactor * talusFormationRate p in
          match talusMap s with
          | None => Throw TypeError s
          | Some tm =>
              let tm' := set tm idx
                           (Math_max 0 (Math_min (get tm idx + talusChange) (talusMaxHeight p))) in
              let hm := heightMap s in
              Normal (with_heightMap (with_talusMap s (Some tm'))
                        (set hm idx (get hm idx + get tm' idx * talusStabilityFactor p)))
          end
        else Normal s
    end.

(** *** stepDroplets *)

Definition resolutionScale (M : MathEnv) (width height : Z) : Qc :=
  Math_sqrt M (Z2Qc (width * height) / Z2Qc (500 * 500)).

Definition erosionScale (M : MathEnv) (width height : Z) : Qc :=
  Math_pow M (1 / resolutionScale M width height) (frac 1 2)
  * Math_min (resolutionScale M width height) 3%Z.

Definition dropletMultiplier (M : MathEnv) (width height : Z) : Qc :=
  Math_min (resolutionScale M width height) 2%Z.

(** Sediment capacity before the flow term (the multi-scale sum or the
    single-scale product, then the grain-size weighting). *)
Definition baseCapacity (M : MathEnv) (p : Params) (es deltaH speed water : Qc) : Qc :=
  if useMultiScale p then
    fold_left
      (fun capacity i =>
         let scale := nth i (scales p) 0 in
         let weight := nth i (scaleWeights p) 0 in
         let scaledCapacity :=
           Math_max (- deltaH * scale) (frac 1 1000) * speed * water
           * sedimentCapacityFactor p * Math_pow M es (frac 3 2) in
         capacity + scaledCapacity * weight)
      (seq 0 (length (scales p))) 0
  else
    Math_max (- deltaH) (frac 1 1000) * speed * water
    * sedimentCapacityFactor p * Math_pow M es (frac 3 2).

Definition sizeAdjustedCapacity (p : Params) (sd : option Distribution) (capacity : Qc) : Qc :=
  match sd with
  | Some dist =>
      if useSedimentSizes p then
        fold_left
          (fun acc (entry : Grain * SedimentSize) =>
             acc + capacity * grainCapacity (snd entry) * weightOf dist (fst entry))
          (sedimentSizes p) 0
      else capacity
  | None => capacity
  end.

Definition kill (d : Droplet.t) : Droplet.t :=
  {| Droplet.x := Droplet.x d; Droplet.y := Droplet.y d;
     Droplet.dx := Droplet.dx d; Droplet.dy := Droplet.dy d;
     Droplet.speed := Droplet.speed d; Droplet.water := Droplet.water d;
     Droplet.sediment := Droplet.sediment d; Droplet.lifetime := Droplet.lifetime d;
     Droplet.alive := false;
     Droplet.sedimentDistribution := Droplet.sedimentDistribution d |}.

Definition with_speed (d : Droplet.t) (v : Qc) : Droplet.t :=
  {| Droplet.x := Droplet.x d; Droplet.y := Droplet.y d;
     Droplet.dx := Droplet.dx d; Droplet.dy := Droplet.dy d;
     Droplet.speed := v; Droplet.water := Droplet.water d;
     Droplet.sediment := Droplet.sediment d; Droplet.lifetime := Droplet.lifetime d;
     Droplet.alive := Droplet.alive d;
     Droplet.sedimentDistribution := Droplet.sedimentDistribution d |}.

Definition with_sediment (d : Droplet.t) (v : Qc) : Droplet.t :=
  {| Droplet.x := Droplet.x d; Droplet.y := Droplet.y d;
     Droplet.dx := Droplet.dx d; Droplet.dy := Droplet.dy d;
     Droplet.speed := Droplet.speed d; Droplet.water := Droplet.water d;
     Droplet.sediment := v; Droplet.lifetime := Droplet.lifetime d;
     Droplet.alive := Droplet.alive d;
     Droplet.sedimentDistribution := Droplet.sedimentDistribution d |}.

(** Lines "Bilinear height and gradient" to "Move droplet": the droplet with
    its new velocity and position. *)
Definition moveDroplet (M : MathEnv) (es : Qc) (s : ErosionSimulator) (d : Droplet.t)
    : Droplet.t :=
  let p := params s in
  let grad := _calcGradient (width s) (height s) (heightMap s) (Droplet.x d) (Droplet.y d) in
  let viscosity := _calculateViscosity p (temperature p) (Droplet.water d) in
  let dx1 := Droplet.dx d * inertia p * viscosity - fst grad * (1 - inertia p) * es in
  let dy1 := Droplet.dy d * inertia p * viscosity - snd grad * (1 - inertia p) * es in
  let len := Math_sqrt M (dx1 * dx1 + dy1 * dy1) in
  let dx2 := if eqb len 0 then dx1 else dx1 / len in
  let dy2 := if eqb len 0 then dy1 else dy1 / len in
  {| Droplet.x := Droplet.x d + dx2 * es; Droplet.y := Droplet.y d + dy2 * es;
     Droplet.dx := dx2; Droplet.dy := dy2;
     Droplet.speed := Droplet.speed d; Droplet.water := Droplet.water d;
     Droplet.sediment := Droplet.sediment d; Droplet.lifetime := Droplet.lifetime d;
     Droplet.alive := Droplet.alive d;
     Droplet.sedimentDistribution := Droplet.sedimentDistribution d |}.

(** The test under "Clamp to bounds". *)
Definition outOfBounds (s : ErosionSimulator) (d : Droplet.t) : bool :=
  ltb (Droplet.x d) 1 || gtb (Droplet.x d) (Z2Qc (width s - 2))
  || ltb (Droplet.y d) 1 || gtb (Droplet.y d) (Z2Qc (height s - 2)).

(** "Apply flow accumulation": the flow map is updated and the capacity
    scaled. *)
Definition flowAccumulation (es : Qc) (s : ErosionSimulator) (d : Droplet.t) (capacity : Qc)
    : Exn + (ErosionSimulator * Qc) :=
  let p := params s in
  if useFlowAccumulation p then
    match flowMap s with
    | None => inl TypeError
    | Some fm =>
        let idx := (Math_floor (Droplet.y d) * width s + Math_floor (Droplet.x d))%Z in
        let fm' := set fm idx
                     (get fm idx + Droplet.water d * Droplet.speed d
                                   * flowAccumulationFactor p * es) in
        let flowFactor := get fm' idx / 200%Z in
        inr (with_flowMap s (Some fm'), capacity * (1 + flowFactor * es))
    end
  else inr (s, capacity).

(** "Add micro-details": the residue written into [microDetailMap]. *)
Definition microDetails (es : Qc) (s : ErosionSimulator) (d : Droplet.t)
    (cellX cellY : Z) (offX offY amount : Qc) : Completion ErosionSimulator :=
  if useMicroDetails (params s) then
    match microDetailNoise s with
    | None => Throw TypeError s
    | Some noise =>
        let idx := (Math_floor (Droplet.y d) * width s + Math_floor (Droplet.x d))%Z in
        let micro := amount * frac 1 10 * es in
        match _bilinearAdd_field (width s) (height s) (microDetailMap s) cellX cellY offX offY
                (micro * (1 + get noise idx)) with
        | inl e => Throw e s
        | inr m => Normal (with_microDetailMap s m)
        end
    end
  else Normal s.

(** "Enhanced erosion and deposition": what is done with the droplet once
    its capacity is known. *)
Definition erodeOrDeposit (M : MathEnv) (es : Qc) (s : ErosionSimulator) (d : Droplet.t)
    (cellX cellY : Z) (offX offY newH capacity : Qc)
    : Completion (ErosionSimulator * Droplet.t) :=
  let p := params s in
  let w := width s in
  let h := height s in
  if gtb (Droplet.sediment d) capacity then
    let deposit := (Droplet.sediment d - capacity) * depositionRate p
                   * Math_pow M es (frac 3 2) in
    let s1 := with_heightMap s (_bilinearAdd w h (heightMap s) cellX cellY offX offY deposit) in
    bind (_updateTalusFormation s1 (Droplet.x d) (Droplet.y d) 0 deposit)
      (fun s2 =>
         bind (microDetails es s2 d cellX cellY offX offY deposit)
           (fun s3 => Normal (s3, with_sediment d (Droplet.sediment d - deposit)))
           (fun s3 => (s3, d)))
      (fun s2 => (s2, d))
  else
    let erode := Math_min ((capacity - Droplet.sediment d) * depositionRate p
                           * Math_pow M es (frac 3 2)) newH in
    if gtb erode 0 then
      let s1 := with_heightMap s
                  (_bilinearAdd w h (heightMap s) cellX cellY offX offY (- erode)) in
      bind (_updateTalusFormation s1 (Droplet.x d) (Droplet.y d) erode 0)
        (fun s2 =>
           bind (microDetails es s2 d cellX cellY offX offY (- erode))
             (fun s3 => Normal (s3, with_sediment d (Droplet.sediment d + erode)))
             (fun s3 => (s3, d)))
        (fun s2 => (s2, d))
    else Normal (s, d).

(** "Evaporate" and "Kill droplet if conditions met". *)
Definition evaporate (M : MathEnv) (es : Qc) (p : Params) (d : Droplet.t) : Droplet.t :=
  let water' := Droplet.water d * (1 - evaporationRate p * Math_pow M es (- frac 1 2)) in
  let lifetime' := (Droplet.lifetime d + 1)%Z in
  {| Droplet.x := Droplet.x d; Droplet.y := Droplet.y d;
     Droplet.dx := Droplet.dx d; Droplet.dy := Droplet.dy d;
     Droplet.speed := Droplet.speed d; Droplet.water := water';
     Droplet.sediment := Droplet.sediment d; Droplet.lifetime := lifetime';
     Droplet.alive :=
       if ltb water' (minVolume p) || gtb (Z2Qc lifetime') (maxDropletLifetime p)
          || ltb (Droplet.speed d) (frac 1 100)
       then false else Droplet.alive d;
     Droplet.sedimentDistribution := Droplet.sedimentDistribution d |}.

(** One pass of the body of the inner [for] loop. *)
Definition subStep (M : MathEnv) (es : Qc) (sd : ErosionSimulator * Droplet.t)
    : Completion (ErosionSimulator * Droplet.t) :=
  let '(s, d) := sd in
  let p := params s in
  let cellX := Math_floor (Droplet.x d) in
  let cellY := Math_floor (Droplet.y d) in
  let offX := Droplet.x d - cellX in
  let offY := Droplet.y d - cellY in
  let h := _bilinearInterp (width s) (height s) (heightMap s) (Droplet.x d) (Droplet.y d) in
  let d1 := moveDroplet M es s d in
  if outOfBounds s d1 then Normal (s, kill d1)   (* d.alive = false; continue; *)
  else
    let newH := _bilinearInterp (width s) (height s) (heightMap s)
                  (Droplet.x d1) (Droplet.y d1) in
    let deltaH := newH - h in
    let speed1 := Math_sqrt M (Math_max 0 (Droplet.speed d1 * Droplet.speed d1
                                           + deltaH * (- frac 981 100) * es)) in
    let d2 := with_speed d1 (speed1 * (1 - friction p)) in
    let capacity := sizeAdjustedCapacity p (Droplet.sedimentDistribution d2)
                      (baseCapacity M p es deltaH (Droplet.speed d2) (Droplet.water d2)) in
    match flowAccumulation es s d2 capacity with
    | inl e => Throw e (s, d2)
    | inr (s1, capacity) =>
        bind (erodeOrDeposit M es s1 d2 cellX cellY offX offY newH capacity)
          (fun sd3 => Normal (fst sd3, evaporate M es p (snd sd3)))
          id
    end.

(** [for (let step = 0; step < bound; step++) body]: the value of [step]
    when the loop is left, and how it is left.  [continue] ends one pass of
    the body, not the loop, so a pass that ends normally is always followed
    by the test of the next one. *)
Fixpoint forSteps {S : Type} (fuel : nat) (step : Z) (bound : Qc)
    (body : S -> Completion S) (s : S) : Z * Completion S :=
  match fuel with
  | O => (step, Normal s)
  | Datatypes.S fuel' =>
      if ltb (Z2Qc step) bound then
        match body s with
        | Normal s' => forSteps fuel' (step + 1) bound body s'
        | Throw e s' => (step, Throw e s')
        end
      else (step, Normal s)
  end.

(** The inner loop for one droplet.  [dropletMultiplier] is at most 2, so
    two passes are all the loop can make (see [forSteps_fuel]). *)
Definition subSteps (M : MathEnv) (s : ErosionSimulator) (d : Droplet.t)
    : Z * Completion (ErosionSimulator * Droplet.t) :=
  forSteps 2 0 (dropletMultiplier M (width s) (height s))
    (subStep M (erosionScale M (width s) (height s))) (s, d).

(** The loop over the pool: [n] bounds the droplets still to visit, [i] is
    the index, [ds] the pool. *)
Fixpoint dropletLoop (M : MathEnv) (n : nat) (i : nat) (activeCount batchSize : Z)
    (s : ErosionSimulator) (ds : list Droplet.t)
    : Completion (ErosionSimulator * list Droplet.t) :=
  match n with
  | O => Normal (s, ds)
  | Datatypes.S n' =>
      match ds !! i with
      | None => Normal (s, ds)
      | Some d =>
          if (activeCount <? batchSize)%Z then
            if negb (Droplet.alive d) then
              dropletLoop M n' (i + 1) activeCount batchSize s ds
            else
              match snd (subSteps M s d) with
              | Normal (s', d') =>
                  dropletLoop M n' (i + 1) (activeCount + 1) batchSize s' (<[i := d']> ds)
              | Throw e (s', d') => Throw e (s', <[i := d']> ds)
              end
          else Normal (s, ds)
      end
  end.

(** "Update slope map periodically": one value of [Math.random] is drawn
    when talus formation is on. *)
Definition refreshSlopeMap (M : MathEnv) (s : ErosionSimulator) : Completion ErosionSimulator :=
  if useTalusFormation (params s) then
    let r := Math_random M (randomCalls s) in
    let s1 := with_randomCalls s (randomCalls s + 1) in
    if ltb r (frac 1 10) then
      match slopeMap s1 with
      | Some sm =>
          Normal (with_slopeMap s1
                    (Some (_computeSlopeMap M (width s1) (height s1) (heightMap s1) sm)))
      | None =>
          (* the first write of the loops raises; no write, no exception *)
          match range 1 (height s1 - 1), range 1 (width s1 - 1) with
          | _ :: _, _ :: _ => Throw TypeError s1
          | _, _ => Normal s1
          end
      end
    else Normal s1
  else Normal s.

(** [stepDroplets(batchSize, onStep)].  The value returned is
    [anyAlive] of the final state, and [onStep] receives a copy of its
    [heightMap]. *)
Definition stepDroplets (M : MathEnv) (batchSize : Z) (s : ErosionSimulator)
    : Completion ErosionSimulator :=
  match droplets s with
  | None => Throw TypeError s
  | Some ds =>
      bind (dropletLoop M (length ds) 0 0 batchSize s ds)
        (fun sds => refreshSlopeMap M (with_droplets (fst sds) (Some (snd sds))))
        (fun sds => with_droplets (fst sds) (Some (snd sds)))
  end.

Definition anyAlive (s : ErosionSimulator) : bool :=
  match droplets s with
  | Some ds => existsb Droplet.alive ds
  | None => false
  end.

(** *** pause, resume, reset *)

Definition pause (s : ErosionSimulator) : ErosionSimulator :=
  with_dropletsActive s (Some false).

Definition resume (s : ErosionSimulator) : ErosionSimulator :=
  with_dropletsActive s (Some true).

Definition reset (M : MathEnv) (newHeightMap : list Qc) (s : ErosionSimulator)
    : Completion ErosionSimulator :=
  let s1 := with_heightMap s newHeightMap in
  match droplets s1 with
  | None => Throw TypeError s1
  | Some ds =>
      let '(ds', s2) := createDroplets M (length ds) s1 in
      allocateMaps M (with_droplets s2 (Some ds'))
  end.

(** ** The worker (erosionWorker.js) *)

(** The payload of a message is what the caller posted: [numDroplets] is a
    number, not known to be a valid array length. *)
Inductive Request :=
  | Init (width height : Z) (heightMap : list Qc) (params : Overlay) (numDroplets : Qc)
  | Step (batchSize : Z)
  | Pause
  | Resume
  | Reset (heightMap : list Qc).

(** The [message] of an error response: a literal of the worker, or the
    message of the exception it caught. *)
Inductive ErrorText :=
  | Literal (text : string)
  | MessageOf (e : Exn).

Inductive Response :=
  | InitDone                                      (* { type: 'init', success: true } *)
  | InitFailed (error : ErrorText)                (* { type: 'init', success: false, error } *)
  | Progress (heightMap : list Qc)                (* { type: 'progress', heightMap } *)
  | StepDone (alive : bool) (heightMap : list Qc) (* { type: 'step', alive, heightMap } *)
  | Error (message : ErrorText)                   (* { type: 'error', message } *)
  | PauseDone
  | ResumeDone
  | ResetDone.

(** The module variable [simulator]; [null] is [None]. *)
Definition Worker := option ErosionSimulator.

Definition notInitialized : Response := Error (Literal "Simulator not initialized").

Definition callsOf (simulator : Worker) : nat :=
  match simulator with Some s => randomCalls s | None => O end.

(** [Array(n)] for a number n: an array of n holes when n is an integer
    with 0 <= n < 2^32; [RangeError] ([None]) for any other number. *)
Definition Array_ (n : Qc) : option nat :=
  if eqb (Z2Qc (Math_floor n)) n && leb 0 n && ltb n (Z2Qc 4294967296)
  then Some (Z.to_nat (Math_floor n))
  else None.

(** [self.onmessage]: the new value of [simulator] and the messages posted,
    in order.  In the init case [simulator] is assigned as soon as the
    constructor returns, before the pool is built: when [Array(numDroplets)]
    throws, the worker is left with an engine that has no pool. *)
Definition onmessage (M : MathEnv) (simulator : Worker) (e : Request)
    : Worker * list Response :=
  match e with
  | Init width height heightMap params numDroplets =>
      match construct M width height heightMap params (callsOf simulator) with
      | Normal s =>
          match Array_ numDroplets with
          | Some n =>
              let '(ds, s1) := createDroplets M n s in
              (Some (with_droplets s1 (Some ds)), [InitDone])
          | None => (Some s, [InitFailed (MessageOf RangeError)])
          end
      | Throw ex _ => (simulator, [InitFailed (MessageOf ex)])
      end
  | Step batchSize =>
      match simulator with
      | None => (None, [notInitialized])
      | Some s =>
          (* const heightMap = new Float32Array(simulator.heightMap), taken
             before the step *)
          let copy := heightMap s in
          match stepDroplets M batchSize s with
          | Normal s' => (Some s', [Progress (heightMap s'); StepDone (anyAlive s') copy])
          | Throw ex s' => (Some s', [Error (MessageOf ex)])
          end
      end
  | Pause =>
      match simulator with
      | None => (None, [notInitialized])
      | Some s => (Some (pause s), [PauseDone])
      end
  | Resume =>
      match simulator with
      | None => (None, [notInitialized])
      | Some s => (Some (resume s), [ResumeDone])
      end
  | Reset heightMap =>
      match simulator with
      | None => (None, [notInitialized])
      | Some s =>
          match reset M heightMap s with
          | Normal s' => (Some s', [ResetDone])
          | Throw ex s' => (Some s', [Error (MessageOf ex)])
          end
      end
  end.

(** ** A concrete numeric environment

    Square roots are taken on 2^-60 fixed-point numbers, so they are exact
    on the squares the examples use; powers are exact for whole exponents
    and go through the square root for half-integer ones, which are the
    exponents the engine uses (-1, -0.5, 0.5, 1.5). *)

Definition approx_sqrt (x : Qc) : Qc :=
  if ltb x 0 then 0
  else Q2Qc (Z.sqrt (Qfloor (x * Z2Qc (2 ^ 120))) # (2 ^ 60)).

Definition powZ (b : Qc) (n : Z) : Qc :=
  match n with
  | Z0 => 1
  | Zpos k => Qcpower b (Pos.to_nat k)
  | Zneg k => / Qcpower b (Pos.to_nat k)
  end.

Definition approx_pow (b e : Qc) : Qc :=
  match Qden e with
  | 1%positive => powZ b (Qnum e)
  | 2%positive => powZ (approx_sqrt b) (Qnum e)
  | _ => 1
  end.

Definition approx_PI : Qc := frac 355 113.

Definition approx_atan (x : Qc) : Qc :=
  if leb (x * x) 1 then x / (1 + frac 9 32 * x * x)
  else (if ltb x 0 then - (approx_PI / 2%Z) else approx_PI / 2%Z) - x / (x * x + frac 9 32).

(** The generator installed by [setSeed]: its state after n calls.  The
    [%] of the source is the remainder that takes the sign of the dividend
    ([Z.rem]); on the states, which are never negative, it is [mod]. *)
Fixpoint lcgState (seed : Z) (n : nat) : Z :=
  match n with
  | O => (let s := Z.rem seed 2147483647 in if s <=? 0 then s + 2147483646 else s)%Z
  | Datatypes.S n' => (lcgState seed n' * 16807 mod 2147483647)%Z
  end.

(** The value returned by call number n (from 0) of that generator. *)
Definition lcgRandom (seed : Z) (n : nat) : Qc :=
  Z2Qc (lcgState seed (Datatypes.S n)) / Z2Qc 2147483647.

Definition approxMath (random : nat -> Qc) : MathEnv :=
  {| Math_sqrt := approx_sqrt;
     Math_pow := approx_pow;
     Math_atan := approx_atan;
     Math_PI := approx_PI;
     Math_random := random |}.

(** ** More of the engine: [cloneHeightMap], [start], [resetHeightMap] *)

From Stdlib Require Import Sorted.

Definition cloneHeightMap (s : ErosionSimulator) : list Qc :=
  let result := heightMap s in
  let result :=
    match microDetailMap s with
    | Some micro =>
        if useMultiScale (params s) then
          fold_left (fun result i => set result i (get result i + get micro i * frac 1 10))
                    (range 0 (Z.of_nat (length result))) result
        else result
    | None => result
    end in
  let result :=
    match microDetailNoise s with
    | Some noise =>
        if useMicroDetails (params s) then
          fold_left (fun result i => set result i (get result i + get noise i))
                    (range 0 (Z.of_nat (length result))) result
        else result
    | None => result
    end in
  result.

Definition start (M : MathEnv) (numDroplets : nat) (resetHeightmap : bool)
    (initialHeightMap : option (list Qc)) (s : ErosionSimulator) : ErosionSimulator :=
  let s1 := match initialHeightMap with
            | Some newHeightMap => if resetHeightmap then with_heightMap s newHeightMap else s
            | None => s
            end in
  resetDroplets M numDroplets s1.

Definition resetHeightMap (newHeightMap : list Qc) (s : ErosionSimulator) : ErosionSimulator :=
  with_heightMap s newHeightMap.

(** ** The client of the worker (ErosionWorkerService)

    Every method of the service registers a message handler on the worker,
    posts one request and returns a promise that the handler settles.  The
    handlers read the fields [type], [success], [error], [alive] and
    [heightMap] of a message; a field the message does not have is
    [undefined], here [None]. *)

Definition type_of (r : Response) : string :=
  match r with
  | InitDone | InitFailed _ => "init"
  | Progress _ => "progress"
  | StepDone _ _ => "step"
  | Error _ => "error"
  | PauseDone => "pause"
  | ResumeDone => "resume"
  | ResetDone => "reset"
  end.

Definition success_of (r : Response) : option bool :=
  match r with
  | InitDone => Some true
  | InitFailed _ => Some false
  | _ => None
  end.

Definition error_of (r : Response) : option ErrorText :=
  match r with
  | InitFailed error => Some error
  | _ => None
  end.

Definition alive_of (r : Response) : option bool :=
  match r with
  | StepDone alive _ => Some alive
  | _ => None
  end.

Definition heightMap_of (r : Response) : option (list Qc) :=
  match r with
  | Progress heightMap | StepDone _ heightMap => Some heightMap
  | _ => None
  end.

(** Truthiness of the values the handlers test: [undefined], [false] and
    the empty string are falsy.  The message of an exception of the engine
    is not empty. *)
Definition truthy_bool (b : option bool) : bool := default false b.

Definition truthy_text (t : option ErrorText) : bool :=
  match t with
  | Some (Literal text) => negb (String.eqb text "")
  | Some (MessageOf _) => true
  | None => false
  end.

(** How a promise is settled: [resolve()], [resolve({ alive, heightMap })]
    or [reject(new Error(error))]. *)
Inductive Settlement :=
  | Resolved
  | ResolvedStep (alive : option bool) (heightMap : option (list Qc))
  | Rejected (error : option ErrorText).

Module ErosionWorkerService.

(** A [messageHandler] on a message: [None] when it ignores the message and
    stays registered, else the way it settles its promise (it then removes
    itself from the worker). *)
Definition init (r : Response) : option Settlement :=
  if String.eqb (type_of r) "init" then
    Some (if truthy_bool (success_of r) then Resolved else Rejected (error_of r))
  else None.

Definition step (r : Response) : option Settlement :=
  if String.eqb (type_of r) "step" then
    Some (if truthy_text (error_of r) then Rejected (error_of r)
          else ResolvedStep (alive_of r) (heightMap_of r))
  else None.

Definition pause (r : Response) : option Settlement :=
  if String.eqb (type_of r) "pause" then Some Resolved else None.

Definition resume (r : Response) : option Settlement :=
  if String.eqb (type_of r) "resume" then Some Resolved else None.

Definition reset (r : Response) : option Settlement :=
  if String.eqb (type_of r) "reset" then
    Some (if truthy_text (error_of r) then Rejected (error_of r) else Resolved)
  else None.

(** The handler a method registers for the request it posts. *)
Definition messageHandler (e : Request) : Response -> option Settlement :=
  match e with
  | Init _ _ _ _ _ => init
  | Step _ => step
  | Pause => pause
  | Resume => resume
  | Reset _ => reset
  end.

(** The state of a client: the handlers registered on the worker, each
    with the number of the call that made it, and the promises settled so
    far. *)
Record t := mk {
  listeners : list (nat * Request);
  settled : list (nat * Settlement);
  made : nat
}.

Definition new : t := {| listeners := []; settled := []; made := 0 |}.

(** A method is called: its handler is registered; the request is posted
    (see [exchange]). *)
Definition register (c : t) (e : Request) : t :=
  {| listeners := listeners c ++ [(made c, e)];
     settled := settled c;
     made := S (made c) |}.

(** One message of the worker reaches the client: every registered handler
    is run on it, in the order of registration. *)
Definition deliver (c : t) (r : Response) : t :=
  {| listeners := List.filter (fun l => match messageHandler (snd l) r with
                                         | Some _ => false
                                         | None => true
                                         end) (listeners c);
     settled := settled c
                ++ flat_map (fun l => match messageHandler (snd l) r with
                                      | Some o => [(fst l, o)]
                                      | None => []
                                      end) (listeners c);
     made := made c |}.

(** One awaited call: the method is called, the worker handles the request
    and the client receives what the worker posted. *)
Definition exchange (M : MathEnv) (wc : Worker * t) (e : Request) : Worker * t :=
  let c1 := register (snd wc) e in
  let '(w', out) := onmessage M (fst wc) e in
  (w', fold_left deliver out c1).

(** The outcome of call number [k], if it is settled. *)
Definition outcome (c : t) (k : nat) : option Settlement :=
  option_map snd (List.find (fun o => Nat.eqb (fst o) k) (settled c)).

Definition pending (c : t) (k : nat) : bool :=
  existsb (fun l => Nat.eqb (fst l) k) (listeners c).

End ErosionWorkerService.

(** ** Helpers of the application (App) *)

(** [a[i]] on a JavaScript array: [undefined] ([None]) outside it. *)
Definition at_ {A : Type} (a : list A) (i : Z) : option A :=
  if (i <? 0)%Z then None else a !! Z.to_nat i.

(** The loop of [limitPoints]: [fuel] bounds the passes still to make; the
    loop ends by its own test before the fuel [length points] runs out
    (see [limitPoints_length]). *)
Fixpoint limitPoints_loop {A : Type} (fuel : nat) (i : Z) (maxPoints step : Qc)
    (points : list A) (result : list (option A)) : list (option A) :=
  match fuel with
  | O => result
  | S fuel' =>
      if ltb (Z2Qc i) maxPoints then
        limitPoints_loop fuel' (i + 1) maxPoints step points
          (result ++ [at_ points (Math_floor (Z2Qc i * step))])
      else result
  end.

(** [limitPoints(points, maxPoints)]; [maxPoints] may be [undefined].  The
    elements of the result are those the source pushes, [undefined]
    included. *)
Definition limitPoints {A : Type} (points : list A) (maxPoints : option Qc)
    : list (option A) :=
  match maxPoints with
  | None => map Some points
  | Some m =>
      if eqb m 0 || leb (Z2Qc (Z.of_nat (length points))) m then map Some points
      else
        let step := Z2Qc (Z.of_nat (length points)) / m in
        limitPoints_loop (length points) 0 m step points []
  end.

(** [Math.round]: the nearest integer, a half going up. *)
Definition Math_round (x : Qc) : Z := Math_floor (x + frac 1 2).

(** [getZ(x, y)] of the 3D view, over the height map of [heightMapRef]. *)
Definition getZ (hm : option (list Qc)) (width height : Z) (x y : Qc) : Qc :=
  match hm with
  | None => 0
  | Some hm =>
      if (width =? 0)%Z || (height =? 0)%Z then 0
      else
        let xi := Z.max 0 (Z.min (width - 1) (Math_round x)) in
        let yi := Z.max 0 (Z.min (height - 1) (Math_round y)) in
        get hm (yi * width + xi)
  end.

(** The scan for the least and the greatest height ([newMin], [newMax] of
    [runBatch]); [None] is the [Infinity] or [-Infinity] the scan starts
    from. *)
Definition newMin (heightMap : list Qc) : option Qc :=
  fold_left (fun m v => match m with
                        | None => Some v
                        | Some lo => if ltb v lo then Some v else Some lo
                        end) heightMap None.

Definition newMax (heightMap : list Qc) : option Qc :=
  fold_left (fun m v => match m with
                        | None => Some v
                        | Some hi => if gtb v hi then Some v else Some hi
                        end) heightMap None.

(** The grey level of cell i:
    [Math.floor(((heightMap[i] - newMin) / (newMax - newMin || 1)) * 255)]. *)
Definition norm (heightMap : list Qc) (i : Z) : option Z :=
  match newMin heightMap, newMax heightMap with
  | Some lo, Some hi =>
      let span := if eqb (hi - lo) 0 then 1 else hi - lo in
      Some (Math_floor ((get heightMap i - lo) / span * Z2Qc 255))
  | _, _ => None
  end.

(** [handleWheel]: the zoom factor after a wheel event. *)
Definition handleWheel (deltaY z : Qc) : Qc :=
  let delta := - deltaY / Z2Qc 500 in
  Math_min (Math_max (z * (1 + delta)) (frac 1 10)) (Z2Qc 10).
(** * Vocabulary of the statements *)

(** ** The worker *)

Definition isStepOutput (r : Response) : bool :=
  match r with
  | Progress _ | StepDone _ _ => true
  | _ => false
  end.

(** The text an error response carries, when it is a literal of the worker. *)
Definition literalOf (r : Response) : option string :=
  match r with
  | Error (Literal text) => Some text
  | _ => None
  end.

(** ** The height field *)

Definition nonneg (a : list Qc) : Prop := forall k : Z, 0 <= get a k.

(** All cells are non-negative, except perhaps those whose index is in [P]. *)
Definition nonnegExcept (P : Z -> Prop) (a : list Qc) : Prop :=
  forall k : Z, ~ P k -> 0 <= get a k.

(** What the proof of C1 keeps: the field is non-negative, and the
    parameters are those the engine was built with. *)
Definition fieldInv (p : Params) (s : ErosionSimulator) : Prop :=
  nonneg (heightMap s) /\ params s = p.


(** ** Sequences of calls on the engine *)

Inductive Call :=
  | CallStep (batchSize : Z)
  | CallReset (newHeightMap : list Qc).

(** The engine after one call; a call that ends by an exception leaves the
    engine as it was at the throw (the worker catches it and goes on). *)
Definition call (M : MathEnv) (s : ErosionSimulator) (c : Call) : ErosionSimulator :=
  stateOf (match c with
           | CallStep batchSize => stepDroplets M batchSize s
           | CallReset newHeightMap => reset M newHeightMap s
           end).

Definition calls (M : MathEnv) (s : ErosionSimulator) (cs : list Call) : ErosionSimulator :=
  fold_left (call M) cs s.

Definition noNegativeCell (a : list Qc) : Prop := Forall (fun v => 0 <= v) a.

(** Every field handed to [reset] in [cs] is free of negative cells. *)
Definition resetsNonneg (cs : list Call) : Prop :=
  Forall (fun c => match c with
                   | CallReset newHeightMap => noNegativeCell newHeightMap
                   | CallStep _ => True
                   end) cs.

(** The divisions of the step have a divisor that is not zero: the
    viscosity of [_calculateViscosity] and the talus factor of
    [_updateTalusFormation].  (In the source a zero divisor gives an
    infinity or NaN, which no rational stands for.) *)
Definition finiteViscosity (p : Params) : Prop :=
  useTemperature p = true -> 1 + temperature p * viscosityFactor p <> 0.

Definition properTalusRange (p : Params) : Prop :=
  useTalusFormation p = true -> talusMinSlope p <> talusMaxSlope p.

(** Every array of the engine has one cell per grid cell, as the
    constructor and [reset] allocate them: the source then reads no
    [undefined] from them at a cell of the grid. *)
Definition fullMaps (s : ErosionSimulator) : Prop :=
  let n := (width s * height s)%Z in
  Z.of_nat (length (heightMap s)) = n
  /\ (forall m, flowMap s = Some m -> Z.of_nat (length m) = n)
  /\ (forall m, microDetailMap s = Some m -> Z.of_nat (length m) = n)
  /\ (forall m, microDetailNoise s = Some m -> Z.of_nat (length m) = n)
  /\ (forall m, talusMap s = Some m -> Z.of_nat (length m) = n)
  /\ (forall m, slopeMap s = Some m -> Z.of_nat (length m) = n).

(** Every field handed to [reset] in [cs] has n cells. *)
Definition resetsSized (n : Z) (cs : list Call) : Prop :=
  Forall (fun c => match c with
                   | CallReset newHeightMap => Z.of_nat (length newHeightMap) = n
                   | CallStep _ => True
                   end) cs.

(** Every feature off. *)
Definition bareOverlay : Overlay :=
  {| o_inertia := None; o_friction := None; o_sedimentCapacityFactor := None;
     o_depositionRate := None; o_evaporationRate := None; o_minVolume := None;
     o_initialVolume := None; o_initialSpeed := None; o_maxDropletLifetime := None;
     o_useMultiScale := Some false; o_scales := None; o_scaleWeights := None;
     o_useSedimentSizes := Some false; o_sedimentSizes := None;
     o_useFlowAccumulation := Some false; o_flowAccumulationFactor := None;
     o_useTemperature := Some false; o_temperature := None; o_viscosityFactor := None;
     o_useMicroDetails := Some false; o_microDetailScale := None;
     o_microDetailStrength := None;
     o_useTalusFormation := Some false; o_talusAngleThreshold := None;
     o_talusFormationRate := None; o_talusParticleSize := None;
     o_talusStabilityFactor := None; o_talusErosionRate := None;
     o_talusDepositionRate := None; o_talusMaxHeight := None;
     o_talusMinSlope := None; o_talusMaxSlope := None |}.

(** The environment of the examples: [approxMath] with the generator of
    [setSeed(1)]. *)
Definition exampleMath : MathEnv := approxMath (lcgRandom 1).

(** The engine as the worker's init leaves it. *)
Definition initialized (M : MathEnv) (width height : Z) (heightMap : list Qc)
    (params : Overlay) (numDroplets : nat) : ErosionSimulator :=
  let s0 := stateOf (construct M width height heightMap params 0) in
  with_droplets (snd (createDroplets M numDroplets s0))
                (Some (fst (createDroplets M numDroplets s0))).

(** ** Sub-steps *)

(** The number of passes C3 states: min(resolutionScale, 2.0), rounded down,
    and at least 1. *)
Definition statedSubSteps (M : MathEnv) (width height : Z) : Z :=
  Z.max 1 (Math_floor (Math_min (resolutionScale M width height) 2%Z)).

(** The number of passes the loop header allows: the integers 0, 1, ... below
    min(resolutionScale, 2.0). *)
Definition allowedSubSteps (M : MathEnv) (width height : Z) : Z :=
  if ltb 1 (resolutionScale M width height) then 2
  else if ltb 0 (resolutionScale M width height) then 1
  else 0.

(** ** Droplet positions *)

(** 1 <= x < width - 1 and 1 <= y < height - 1: the droplet is over an
    interior cell. *)
Definition overInterior (width height : Z) (d : Droplet.t) : Prop :=
  1 <= Droplet.x d /\ Droplet.x d < Z2Qc (width - 1)
  /\ 1 <= Droplet.y d /\ Droplet.y d < Z2Qc (height - 1).

(** 1 <= x <= width - 2 and 1 <= y <= height - 2: the margin of C5, which is
    the margin [stepDroplets] tests. *)
Definition insideMargin (width height : Z) (d : Droplet.t) : Prop :=
  1 <= Droplet.x d /\ Droplet.x d <= Z2Qc (width - 2)
  /\ 1 <= Droplet.y d /\ Droplet.y d <= Z2Qc (height - 2).

Definition aliveOverInterior (width height : Z) (d : Droplet.t) : Prop :=
  Droplet.alive d = true -> overInterior width height d.

Definition unitRandom (M : MathEnv) : Prop :=
  forall n, 0 <= Math_random M n /\ Math_random M n < 1.

(** ** The flat 4 x 4 field *)

Definition flat4 : list Qc := replicate 16 1.

(** A droplet as [_createDroplet] makes it, placed at (2, 2). *)
Definition freshAt22 (p : Params) (sd : option Distribution) : Droplet.t :=
  {| Droplet.x := 2%Z; Droplet.y := 2%Z; Droplet.dx := 0; Droplet.dy := 0;
     Droplet.speed := initialSpeed p; Droplet.water := initialVolume p;
     Droplet.sediment := 0; Droplet.lifetime := 0; Droplet.alive := true;
     Droplet.sedimentDistribution := sd |}.

(** The same droplet after one pass over a flat field, when it carries
    nothing and can carry nothing: it has not moved, friction has slowed it,
    some water has evaporated, and the three kill tests have been made. *)
Definition afterFlatPass (M : MathEnv) (p : Params) (sd : option Distribution) : Droplet.t :=
  let speed' := Math_sqrt M (Math_max 0 (initialSpeed p * initialSpeed p)) * (1 - friction p) in
  let water' := initialVolume p
                * (1 - evaporationRate p * Math_pow M (erosionScale M 4 4) (- frac 1 2)) in
  {| Droplet.x := 2%Z; Droplet.y := 2%Z; Droplet.dx := 0; Droplet.dy := 0;
     Droplet.speed := speed'; Droplet.water := water';
     Droplet.sediment := 0; Droplet.lifetime := 1;
     Droplet.alive := negb (ltb water' (minVolume p) || gtb 1 (maxDropletLifetime p)
                            || ltb speed' (frac 1 100));
     Droplet.sedimentDistribution := sd |}.

(** What that droplet can carry in its first pass over the flat field: its
    speed after friction, the sediment capacity the pass computes for it
    (the height difference is 0; the flow map holds zeros before the pass),
    and the amount the pass would erode,
    [Math.min(capacity * depositionRate * erosionScale^1.5, newH)] with
    newH = 1. *)
Definition flatSpeed (M : MathEnv) (p : Params) : Qc :=
  Math_sqrt M (Math_max 0 (initialSpeed p * initialSpeed p)) * (1 - friction p).

Definition flatCapacity (M : MathEnv) (p : Params) (sd : option Distribution) : Qc :=
  let es := erosionScale M 4 4 in
  let capacity :=
    sizeAdjustedCapacity p sd (baseCapacity M p es 0 (flatSpeed M p) (initialVolume p)) in
  if useFlowAccumulation p then
    let flow := initialVolume p * flatSpeed M p * flowAccumulationFactor p * es in
    capacity * (1 + flow / 200%Z * es)
  else capacity.

Definition flatErosion (M : MathEnv) (p : Params) (sd : option Distribution) : Qc :=
  Math_min (flatCapacity M p sd * depositionRate p * Math_pow M (erosionScale M 4 4) (frac 3 2))
           1.

(** The stream of [Math.random] that places a droplet at the middle of its
    range. *)
Definition halfMath : MathEnv := approxMath (fun _ => frac 1 2).

(** The parameters of the example against C2: nothing slows, dries or ages
    the droplet, and the capacity is large. *)
Definition livelyOverlay : Overlay :=
  {| o_inertia := None; o_friction := Some 0; o_sedimentCapacityFactor := Some (Z2Qc 1000000);
     o_depositionRate := Some (Z2Qc 1000); o_evaporationRate := Some 0; o_minVolume := Some 0;
     o_initialVolume := Some 1; o_initialSpeed := Some 1;
     o_maxDropletLifetime := Some (Z2Qc 10);
     o_useMultiScale := None; o_scales := None; o_scaleWeights := None;
     o_useSedimentSizes := None; o_sedimentSizes := None;
     o_useFlowAccumulation := None; o_flowAccumulationFactor := None;
     o_useTemperature := None; o_temperature := None; o_viscosityFactor := None;
     o_useMicroDetails := None; o_microDetailScale := None;
     o_microDetailStrength := None;
     o_useTalusFormation := None; o_talusAngleThreshold := None;
     o_talusFormationRate := None; o_talusParticleSize := None;
     o_talusStabilityFactor := None; o_talusErosionRate := None;
     o_talusDepositionRate := None; o_talusMaxHeight := None;
     o_talusMinSlope := None; o_talusMaxSlope := None |}.

(** The defaults without the micro-detail maps. *)
Definition plainOverlay : Overlay :=
  {| o_inertia := None; o_friction := None; o_sedimentCapacityFactor := None;
     o_depositionRate := None; o_evaporationRate := None; o_minVolume := None;
     o_initialVolume := None; o_initialSpeed := None; o_maxDropletLifetime := None;
     o_useMultiScale := None; o_scales := None; o_scaleWeights := None;
     o_useSedimentSizes := None; o_sedimentSizes := None;
     o_useFlowAccumulation := None; o_flowAccumulationFactor := None;
     o_useTemperature := None; o_temperature := None; o_viscosityFactor := None;
     o_useMicroDetails := Some false; o_microDetailScale := None;
     o_microDetailStrength := None;
     o_useTalusFormation := None; o_talusAngleThreshold := None;
     o_talusFormationRate := None; o_talusParticleSize := None;
     o_talusStabilityFactor := None; o_talusErosionRate := None;
     o_talusDepositionRate := None; o_talusMaxHeight := None;
     o_talusMinSlope := None; o_talusMaxSlope := None |}.

(** The defaults without the micro-detail maps, and with a droplet that can
    carry nothing. *)
Definition noCapacityOverlay : Overlay :=
  {| o_inertia := None; o_friction := None; o_sedimentCapacityFactor := Some 0;
     o_depositionRate := None; o_evaporationRate := None; o_minVolume := None;
     o_initialVolume := None; o_initialSpeed := None; o_maxDropletLifetime := None;
     o_useMultiScale := None; o_scales := None; o_scaleWeights := None;
     o_useSedimentSizes := None; o_sedimentSizes := None;
     o_useFlowAccumulation := None; o_flowAccumulationFactor := None;
     o_useTemperature := None; o_temperature := None; o_viscosityFactor := None;
     o_useMicroDetails := Some false; o_microDetailScale := None;
     o_microDetailStrength := None;
     o_useTalusFormation := None; o_talusAngleThreshold := None;
     o_talusFormationRate := None; o_talusParticleSize := None;
     o_talusStabilityFactor := None; o_talusErosionRate := None;
     o_talusDepositionRate := None; o_talusMaxHeight := None;
     o_talusMinSlope := None; o_talusMaxSlope := None |}.


(** ** The engine of the micro-detail example (C10)

    The defaults, with multi-scale capacity switched off and micro-details
    left on. *)
Definition microOnlyOverlay : Overlay :=
  {| o_inertia := None; o_friction := None; o_sedimentCapacityFactor := None;
     o_depositionRate := None; o_evaporationRate := None; o_minVolume := None;
     o_initialVolume := None; o_initialSpeed := None; o_maxDropletLifetime := None;
     o_useMultiScale := Some false; o_scales := None; o_scaleWeights := None;
     o_useSedimentSizes := None; o_sedimentSizes := None;
     o_useFlowAccumulation := None; o_flowAccumulationFactor := None;
     o_useTemperature := None; o_temperature := None; o_viscosityFactor := None;
     o_useMicroDetails := Some true; o_microDetailScale := None;
     o_microDetailStrength := None;
     o_useTalusFormation := None; o_talusAngleThreshold := None;
     o_talusFormationRate := None; o_talusParticleSize := None;
     o_talusStabilityFactor := None; o_talusErosionRate := None;
     o_talusDepositionRate := None; o_talusMaxHeight := None;
     o_talusMinSlope := None; o_talusMaxSlope := None |}.

(** ** The engine of the edge example (C4)

    A 600 x 600 grid (resolution scale about 1.2, so two passes per droplet)
    of height 1 with a ridge of height 10 in column 596; big droplets
    (initialVolume 20, which makes the viscosity factor negative); the
    micro-detail and talus maps switched off; one droplet, created at
    (597.5, 300.5). *)
Definition edgeRandom (n : nat) : Qc :=
  match n with
  | O => frac 1193 1196
  | Datatypes.S O => frac 599 1196
  | _ => frac 1 2
  end.

Definition edgeMath : MathEnv := approxMath edgeRandom.

Definition ridgeRow : list Qc := replicate 596 1 ++ [Z2Qc 10; 1; 1; 1].

Definition ridgeField : list Qc := concat (replicate 600 ridgeRow).

Definition edgeOverlay : Overlay :=
  {| o_inertia := None; o_friction := None; o_sedimentCapacityFactor := None;
     o_depositionRate := None; o_evaporationRate := None; o_minVolume := None;
     o_initialVolume := Some (Z2Qc 20); o_initialSpeed := None; o_maxDropletLifetime := None;
     o_useMultiScale := None; o_scales := None; o_scaleWeights := None;
     o_useSedimentSizes := None; o_sedimentSizes := None;
     o_useFlowAccumulation := None; o_flowAccumulationFactor := None;
     o_useTemperature := None; o_temperature := None; o_viscosityFactor := None;
     o_useMicroDetails := Some false; o_microDetailScale := None;
     o_microDetailStrength := None;
     o_useTalusFormation := Some false; o_talusAngleThreshold := None;
     o_talusFormationRate := None; o_talusParticleSize := None;
     o_talusStabilityFactor := None; o_talusErosionRate := None;
     o_talusDepositionRate := None; o_talusMaxHeight := None;
     o_talusMinSlope := None; o_talusMaxSlope := None |}.

Definition edgeEngine : ErosionSimulator := initialized edgeMath 600 600 ridgeField edgeOverlay 1.

Definition edgeDroplet : Droplet.t :=
  match droplets edgeEngine with
  | Some (d :: _) => d
  | _ => freshAt22 (params edgeEngine) None
  end.

(** ** Vocabulary of the further properties *)

(** The field a x + b y + c on a width x height grid. *)
Definition planeField (width height : Z) (a b c : Qc) (heightMap : list Qc) : Prop :=
  Z.of_nat (length heightMap) = (width * height)%Z
  /\ forall x y : Z, (0 <= x < width)%Z -> (0 <= y < height)%Z ->
       get heightMap (toIndex width x y) = a * Z2Qc x + b * Z2Qc y + c.

(** The largest magnitude of a cell of the micro-detail noise: four octaves
    of amplitudes 1, 1/2, 1/4, 1/8 of a noise within 9/2, times the
    strength. *)
Definition noiseAmplitude (p : Params) : Qc := frac 135 16 * microDetailStrength p.

Definition interiorCell (width height x y : Z) : bool :=
  (1 <=? x)%Z && (x <? width - 1)%Z && (1 <=? y)%Z && (y <? height - 1)%Z.

(** A droplet as [_createDroplet] leaves it, its random position and grain
    weights apart. *)
Definition freshDroplet (p : Params) (d : Droplet.t) : Prop :=
  Droplet.dx d = 0 /\ Droplet.dy d = 0
  /\ Droplet.speed d = initialSpeed p /\ Droplet.water d = initialVolume p
  /\ Droplet.sediment d = 0 /\ Droplet.lifetime d = 0%Z /\ Droplet.alive d = true
  /\ (is_Some (Droplet.sedimentDistribution d) <-> useSedimentSizes p = true).

(** The values of [Math.random] one droplet takes. *)
Definition randomPerDroplet (p : Params) : nat := if useSedimentSizes p then 7 else 2.

(** The modulus of the generator of [setSeed]. *)
Definition lcgModulus : Z := 2147483647.

(** The parts of the engine that [stepDroplets] never changes: the
    dimensions, the parameters, the noise pattern, the activity flag, and
    which maps exist and how long they are. *)
Definition shapeOf (s : ErosionSimulator) :=
  (width s, height s, params s, microDetailNoise s, dropletsActive s,
   (length (heightMap s), option_map length (flowMap s),
    option_map length (microDetailMap s),
    option_map length (talusMap s), option_map length (slopeMap s))).

(** Every map that a feature flag makes [stepDroplets] use exists. *)
Definition mapsReady (s : ErosionSimulator) : Prop :=
  (useFlowAccumulation (params s) = true -> is_Some (flowMap s))
  /\ (useMicroDetails (params s) = true ->
        is_Some (microDetailNoise s) /\ is_Some (microDetailMap s))
  /\ (useTalusFormation (params s) = true -> is_Some (slopeMap s) /\ is_Some (talusMap s)).

(** The flags of an engine whose constructor allocates every map its steps
    use: micro-details need the multi-scale flag, which is the one that
    allocates [microDetailMap]. *)
Definition consistentFlags (p : Params) : Prop :=
  useMicroDetails p = true -> useMultiScale p = true.

(** The indices of the alive droplets from index i on, in pool order. *)
Definition aliveFrom (i : nat) (ds : list Droplet.t) : list nat :=
  List.filter (fun j => match ds !! j with Some d => Droplet.alive d | None => false end)
              (seq i (length ds - i)).

(** The droplets a call [stepDroplets(batchSize)] works on: the first
    batchSize alive ones. *)
Definition selected (batchSize : Z) (ds : list Droplet.t) : list nat :=
  take (Z.to_nat batchSize) (aliveFrom 0 ds).

(** A method applied to the result of another, an exception passing
    through. *)
Definition andThen (f : ErosionSimulator -> ErosionSimulator)
    (c : Completion ErosionSimulator) : Completion ErosionSimulator :=
  match c with
  | Normal s => Normal (f s)
  | Throw e s => Throw e (f s)
  end.

(** The worker serving a list of requests: its last state and all the
    messages it posted, in order. *)
Definition serve (M : MathEnv) (simulator : Worker) (requests : list Request)
    : Worker * list Response :=
  fold_left (fun (acc : Worker * list Response) e =>
               let '(w, out) := onmessage M (fst acc) e in (w, snd acc ++ out))
            requests (simulator, []).

Definition isInit (e : Request) : bool :=
  match e with Init _ _ _ _ _ => true | _ => false end.

Definition isError (r : Response) : bool :=
  match r with Error _ => true | _ => false end.

(** An engine the worker can step and reset for ever: its maps are there,
    it has a pool, its area is not negative, and its flags are
    consistent. *)
Definition ready (s : ErosionSimulator) : Prop :=
  mapsReady s /\ is_Some (droplets s) /\ (0 <= width s * height s)%Z
  /\ consistentFlags (params s).

(** The maps the constructor allocates; [reset] allocates the same. *)
Definition mapsOf (s : ErosionSimulator) :=
  (flowMap s, microDetailMap s, microDetailNoise s, talusMap s, slopeMap s).

(** A map is there exactly when its flag is set. *)
Definition mapsFollowFlags (s : ErosionSimulator) : Prop :=
  (useFlowAccumulation (params s) = false -> flowMap s = None)
  /\ (useMultiScale (params s) = false -> microDetailMap s = None)
  /\ (useMicroDetails (params s) = false -> microDetailNoise s = None)
  /\ (useTalusFormation (params s) = false -> talusMap s = None /\ slopeMap s = None).

(** What the calls keep of the auxiliary maps: the parameters, a property
    [Pm] of the micro-detail map and a property [Pt] of the talus map. *)
Definition auxKept (p : Params) (Pm Pt : list Qc -> Prop) (s : ErosionSimulator) : Prop :=
  params s = p
  /\ (forall m, microDetailMap s = Some m -> Pm m)
  /\ (forall t, talusMap s = Some t -> Pt t).

(** A 4 x 4 field that rises by 0.7 per column: its interior slopes, about
    35 degrees, are inside the default talus range. *)
Definition tilted : list Qc :=
  map (fun k => frac 7 10 * Z2Qc (k mod 4)) (range 0 16).

(** The defaults, with a droplet that keeps its speed, loses a good part
    of its water in each pass and lays sediment down fast: on the flat
    field it erodes in its first pass and deposits in its second. *)
Definition settlingOverlay : Overlay :=
  {| o_inertia := None; o_friction := Some 0; o_sedimentCapacityFactor := None;
     o_depositionRate := Some (Z2Qc 10); o_evaporationRate := Some (frac 1 4);
     o_minVolume := Some 0;
     o_initialVolume := None; o_initialSpeed := Some 1; o_maxDropletLifetime := None;
     o_useMultiScale := None; o_scales := None; o_scaleWeights := None;
     o_useSedimentSizes := None; o_sedimentSizes := None;
     o_useFlowAccumulation := None; o_flowAccumulationFactor := None;
     o_useTemperature := None; o_temperature := None; o_viscosityFactor := None;
     o_useMicroDetails := None; o_microDetailScale := None;
     o_microDetailStrength := None;
     o_useTalusFormation := None; o_talusAngleThreshold := None;
     o_talusFormationRate := None; o_talusParticleSize := None;
     o_talusStabilityFactor := None; o_talusErosionRate := None;
     o_talusDepositionRate := None; o_talusMaxHeight := None;
     o_talusMinSlope := None; o_talusMaxSlope := None |}.

(** The passes a droplet can still live through: none when it is dead,
    else one more than the lifetimes left before [maxDropletLifetime] is
    passed. *)
Definition lifeBudget (p : Params) (d : Droplet.t) : nat :=
  if Droplet.alive d
  then S (Z.to_nat (Math_floor (maxDropletLifetime p) + 1 - Droplet.lifetime d))
  else 0.

Definition poolBudget (p : Params) (ds : list Droplet.t) : nat :=
  list_sum (map (lifeBudget p) ds).

(** What every call keeps of an engine built for a w x h grid with the
    parameters p and a pool of n droplets. *)
Definition keptBy (w h : Z) (p : Params) (n : nat) (s : ErosionSimulator) : Prop :=
  width s = w /\ height s = h /\ params s = p
  /\ option_map length (droplets s) = Some n
  /\ mapsFollowFlags s.

(** The engine with its activity flag set to v, alone or beside a
    droplet. *)
Definition flagged (v : option bool) (s : ErosionSimulator) : ErosionSimulator :=
  with_dropletsActive s v.

Definition flagged2 (v : option bool) (r : ErosionSimulator * Droplet.t)
    : ErosionSimulator * Droplet.t :=
  (flagged v (fst r), snd r).

(** Closed comparisons of rationals, by computation. *)
Ltac qcompute :=
  unfold Qcle, Qclt; vm_compute; first [reflexivity | discriminate | (intro; discriminate)].

(** * Properties *)

(** ** Arithmetic on [Qc] *)

(** Goals and hypotheses about the order of [Qc] are sent to [Q], where the
    linear and non-linear arithmetic procedures work. *)
Ltac qc2q :=
  unfold Qcle, Qclt, Qcminus, Qcopp, Qcdiv, Z2Qc, frac in *;
  cbn [this Qcplus Qcmult Q2Qc] in *;
  rewrite ?Qred_correct in *.

(** [inject_Z] of a numeral is written as the fraction it is, in the goal
    and in the hypotheses. *)
Ltac qnum :=
  repeat match goal with
         | |- context [inject_Z ?z] =>
             tryif is_var z then fail else
               (let r := eval vm_compute in z in
                constr_eq r z;
                let f := eval cbv in (inject_Z z) in
                progress change (inject_Z z) with f)
         | H : context [inject_Z ?z] |- _ =>
             tryif is_var z then fail else
               (let r := eval vm_compute in z in
                constr_eq r z;
                let f := eval cbv in (inject_Z z) in
                progress change (inject_Z z) with f in H)
         end.

Lemma ltb_lt (a b : Qc) : ltb a b = true <-> a < b.
Proof.
  unfold ltb. destruct (Qclt_le_dec a b) as [H | H]; split; try easy.
  intros H'. exfalso. qc2q. lra.
Qed.

Lemma ltb_ge (a b : Qc) : ltb a b = false <-> b <= a.
Proof.
  unfold ltb. destruct (Qclt_le_dec a b) as [H | H]; split; try easy.
  intros H'. exfalso. qc2q. lra.
Qed.

Lemma leb_le (a b : Qc) : leb a b = true <-> a <= b.
Proof.
  unfold leb. destruct (Qclt_le_dec b a) as [H | H]; split; try easy.
  intros H'. exfalso. qc2q. lra.
Qed.

Lemma Math_max_lower (a b : Qc) : a <= Math_max a b.
Proof.
  unfold Math_max. destruct (ltb a b) eqn:E.
  - apply ltb_lt in E. qc2q. lra.
  - qc2q. lra.
Qed.

Lemma Math_min_le_r (a b : Qc) : Math_min a b <= b.
Proof.
  unfold Math_min. destruct (ltb b a) eqn:E.
  - qc2q. lra.
  - apply ltb_ge in E. exact E.
Qed.

Lemma Math_floor_Z (z : Z) : Math_floor (Z2Qc z) = z.
Proof.
  unfold Math_floor, Z2Qc. cbn [this Q2Qc].
  rewrite inject_Z_Qred. apply Qfloor_Z.
Qed.

Lemma Math_floor_le (x : Qc) : Z2Qc (Math_floor x) <= x.
Proof. unfold Math_floor. qc2q. apply Qfloor_le. Qed.

Lemma Math_floor_lt (x : Qc) : x < Z2Qc (Math_floor x) + 1.
Proof.
  unfold Math_floor. qc2q.
  pose proof (Qlt_floor x) as H. rewrite inject_Z_plus in H. exact H.
Qed.

(** ** Typed arrays *)

Lemma get_set_ne (a : list Qc) (i k : Z) (v : Qc) :
  k <> i -> get (set a i v) k = get a k.
Proof.
  intros Hne. unfold get, set.
  destruct (k <? 0)%Z eqn:Hk; [reflexivity |].
  destruct (i <? 0)%Z eqn:Hi; [reflexivity |].
  rewrite list_lookup_insert_ne; [reflexivity | lia].
Qed.

(** ** pause and resume (C8) *)

(** C8. [pause] and [resume] write the activity flag and nothing else: the
    height field, the droplet pool (every field of every droplet), the
    auxiliary maps, the dimensions and the parameters of the engine are the
    ones it had before the call. *)
Theorem pause_resume_only_flag (s : ErosionSimulator) :
  (dropletsActive (pause s) = Some false
   /\ pause s = with_dropletsActive s (Some false)
   /\ heightMap (pause s) = heightMap s
   /\ droplets (pause s) = droplets s
   /\ flowMap (pause s) = flowMap s
   /\ microDetailMap (pause s) = microDetailMap s
   /\ microDetailNoise (pause s) = microDetailNoise s
   /\ talusMap (pause s) = talusMap s
   /\ slopeMap (pause s) = slopeMap s
   /\ params (pause s) = params s
   /\ width (pause s) = width s /\ height (pause s) = height s)
  /\
  (dropletsActive (resume s) = Some true
   /\ resume s = with_dropletsActive s (Some true)
   /\ heightMap (resume s) = heightMap s
   /\ droplets (resume s) = droplets s
   /\ flowMap (resume s) = flowMap s
   /\ microDetailMap (resume s) = microDetailMap s
   /\ microDetailNoise (resume s) = microDetailNoise s
   /\ talusMap (resume s) = talusMap s
   /\ slopeMap (resume s) = slopeMap s
   /\ params (resume s) = params s
   /\ width (resume s) = width s /\ height (resume s) = height s).
Proof. repeat split. Qed.

(** ** Bilinear sampling at integer coordinates (C6) *)

(** C6, as stated, fails on the last column and row: on a 2x2 grid of fives
    the sample at the cell (1,1) is 0, not the 5 stored there. *)
Lemma bilinear_last_cell_reads_zero :
  let grid := [Z2Qc 5; Z2Qc 5; Z2Qc 5; Z2Qc 5] in
  _bilinearInterp 2 2 grid (Z2Qc 1) (Z2Qc 1) = 0
  /\ get grid (toIndex 2 1 1) = Z2Qc 5
  /\ _bilinearInterp 2 2 grid (Z2Qc 1) (Z2Qc 1) <> get grid (toIndex 2 1 1).
Proof.
  cbv zeta. split; [| split].
  - apply Qc_is_canon. reflexivity.
  - apply Qc_is_canon. reflexivity.
  - intros H. apply (f_equal this) in H. vm_compute in H. discriminate H.
Qed.

(** C6, amended. On a grid that has its width x height cells, sampling at
    integer coordinates (x, y) with 0 <= x < width - 1 and 0 <= y < height - 1
    returns the value stored in cell (x, y); on the last column, the last
    row and outside the grid (x < 0, y < 0, x >= width - 1 or
    y >= height - 1) the sample is 0. *)
Theorem bilinear_exact_inside (width height : Z) (heightMap : list Qc) (x y : Z) :
  Z.of_nat (length heightMap) = (width * height)%Z ->
  ((0 <= x < width - 1)%Z -> (0 <= y < height - 1)%Z ->
   _bilinearInterp width height heightMap (Z2Qc x) (Z2Qc y) = get heightMap (toIndex width x y))
  /\ ((x < 0)%Z \/ (y < 0)%Z \/ (width - 1 <= x)%Z \/ (height - 1 <= y)%Z ->
      _bilinearInterp width height heightMap (Z2Qc x) (Z2Qc y) = 0).
Proof.
  intros _. unfold _bilinearInterp. rewrite !Math_floor_Z. split.
  - intros Hx Hy.
    replace ((x <? 0)%Z || (y <? 0)%Z || (x >=? width - 1)%Z || (y >=? height - 1)%Z)
      with false by (symmetry; repeat (apply orb_false_intro); lia).
    ring.
  - intros Hout.
    replace ((x <? 0)%Z || (y <? 0)%Z || (x >=? width - 1)%Z || (y >=? height - 1)%Z)
      with true; [reflexivity |].
    symmetry. rewrite !orb_true_iff. rewrite !Z.ltb_lt, !Z.geb_le. tauto.
Qed.

Lemma bilinear_exact_inside_witness :
  let grid := map Z2Qc [1; 2; 3; 4; 5; 6; 7; 8; 9]%Z in
  _bilinearInterp 3 3 grid (Z2Qc 1) (Z2Qc 1) = get grid (toIndex 3 1 1)
  /\ _bilinearInterp 3 3 grid (Z2Qc 2) (Z2Qc 1) = 0
  /\ _bilinearInterp 3 3 grid (Z2Qc 1) (Z2Qc (-1)) = 0.
Proof.
  cbv zeta.
  split; [| split].
  - apply (bilinear_exact_inside 3 3 (map Z2Qc [1; 2; 3; 4; 5; 6; 7; 8; 9]%Z) 1 1);
      [reflexivity | lia | lia].
  - apply (bilinear_exact_inside 3 3 (map Z2Qc [1; 2; 3; 4; 5; 6; 7; 8; 9]%Z) 2 1);
      [reflexivity | lia].
  - apply (bilinear_exact_inside 3 3 (map Z2Qc [1; 2; 3; 4; 5; 6; 7; 8; 9]%Z) 1 (-1));
      [reflexivity | lia].
Defined.

(** ** The noise field (C7) *)

Lemma _fade_unit (t : Qc) : 0 <= t -> t <= 1 -> 0 <= _fade t /\ _fade t <= 1.
Proof.
  intros H0 H1. unfold _fade. qc2q.
  set (q := this t) in *. clearbody q. clear t. qnum.
  assert (Hq : (0 <= q * q)%Q) by nra.
  assert (Hc : (0 <= q * q * q)%Q) by nra.
  assert (Hp : (0 <= q * (q * 6 - 15) + 10)%Q) by nra.
  assert (Hm : (0 <= (1 - q) * (1 - q) * (1 - q))%Q).
  { assert (Hs : (0 <= 1 - q)%Q) by lra.
    repeat apply Qmult_le_0_compat; exact Hs. }
  assert (Hr : (0 <= 6 * (q * q) + 3 * q + 1)%Q) by nra.
  split.
  - apply Qmult_le_0_compat; assumption.
  - assert (E : (1 - q * q * q * (q * (q * 6 - 15) + 10) ==
                 ((1 - q) * (1 - q) * (1 - q)) * (6 * (q * q) + 3 * q + 1))%Q) by ring.
    assert (0 <= ((1 - q) * (1 - q) * (1 - q)) * (6 * (q * q) + 3 * q + 1))%Q
      by (apply Qmult_le_0_compat; assumption).
    lra.
Qed.

Lemma land15_cases (hash : Z) :
  let h := Z.land hash 15 in (0 <= h < 16)%Z.
Proof.
  cbv zeta. change (Z.land hash 15) with (Z.land hash (Z.ones 4)).
  rewrite Z.land_ones by lia.
  change (2 ^ 4)%Z with 16%Z.
  pose proof (Z.mod_pos_bound hash 16 ltac:(lia)). lia.
Qed.

Lemma fraction_unit (x : Qc) : 0 <= x - Math_floor x /\ x - Math_floor x <= 1.
Proof.
  pose proof (Math_floor_le x) as Hl. pose proof (Math_floor_lt x) as Hu.
  qc2q. split; lra.
Qed.

Lemma Qsquare_nonneg (x : Q) : (0 <= x * x)%Q.
Proof.
  destruct (Qlt_le_dec x 0) as [Hneg | Hpos].
  - assert (H : (0 <= (- x) * (- x))%Q) by (apply Qmult_le_0_compat; lra).
    assert (E : ((- x) * (- x) == x * x)%Q) by ring. lra.
  - apply Qmult_le_0_compat; assumption.
Qed.

(** The blend of a coordinate with its mirror image, weighted by the fade
    curve, never exceeds one half. *)
Lemma fade_blend_Q (a : Q) :
  (0 <= a -> a <= 1 ->
   a + (a * a * a * (a * (a * 6 + - (15)) + 10)) * (1 - 2 * a) <= 1 # 2)%Q.
Proof.
  intros H0 H1.
  set (t := (a * (1 - a))%Q).
  assert (Ht : (0 <= t)%Q) by (apply Qmult_le_0_compat; lra).
  assert (Hp : (0 <= 6 * (t * t) + 2 * t + 1)%Q).
  { assert (0 <= t * t)%Q by (apply Qmult_le_0_compat; assumption). lra. }
  assert (Hs : (0 <= (a - (1 # 2)) * (a - (1 # 2)))%Q) by apply Qsquare_nonneg.
  assert (Hm : (0 <= ((a - (1 # 2)) * (a - (1 # 2))) * (6 * (t * t) + 2 * t + 1))%Q)
    by (apply Qmult_le_0_compat; assumption).
  assert (E : ((1 # 2) - (a + (a * a * a * (a * (a * 6 + - (15)) + 10)) * (1 - 2 * a))
               == 2 * (((a - (1 # 2)) * (a - (1 # 2))) * (6 * (t * t) + 2 * t + 1)))%Q)
    by (unfold t; ring).
  lra.
Qed.

Lemma lerp_mono_Q (t p q P Q' : Q) :
  (0 <= t -> t <= 1 -> p <= P -> q <= Q' ->
   p + t * (q + - p) <= P + t * (Q' + - P))%Q.
Proof.
  intros Ht0 Ht1 Hp Hq.
  assert (0 <= (1 - t) * (P - p))%Q by (apply Qmult_le_0_compat; lra).
  assert (0 <= t * (Q' - q))%Q by (apply Qmult_le_0_compat; lra).
  lra.
Qed.

Lemma fade_blend (a : Qc) :
  0 <= a -> a <= 1 -> a + _fade a * (1 - Z2Qc 2 * a) <= frac 1 2.
Proof.
  intros H0 H1. unfold _fade. qc2q. qnum.
  pose proof (fade_blend_Q (this a) H0 H1) as H. lra.
Qed.

(** The gradient is at most 8 |x| + |y| in size. *)
Lemma _grad_weighted (hash : Z) (x y X Y : Qc) :
  - X <= x -> x <= X -> - Y <= y -> y <= Y ->
  - (Z2Qc 8 * X + Y) <= _grad hash x y /\ _grad hash x y <= Z2Qc 8 * X + Y.
Proof.
  intros Hx0 Hx1 Hy0 Hy1. unfold _grad.
  pose proof (land15_cases hash) as Hh. cbv zeta in Hh.
  set (h := Z.land hash 15) in *.
  assert (Hc : (h = 0 \/ h = 1 \/ h = 2 \/ h = 3 \/ h = 4 \/ h = 5 \/ h = 6 \/ h = 7 \/
                h = 8 \/ h = 9 \/ h = 10 \/ h = 11 \/ h = 12 \/ h = 13 \/ h = 14 \/
                h = 15)%Z) by lia.
  clearbody h. clear Hh. qc2q.
  repeat (destruct Hc as [Hc | Hc]); subst h;
    repeat match goal with
      | |- context [Z.eqb ?u ?v] =>
          let r := eval vm_compute in (Z.eqb u v) in progress change (Z.eqb u v) with r
      | |- context [Z.add 1 ?u] =>
          let r := eval vm_compute in (Z.add 1 u) in progress change (Z.add 1 u) with r
      end;
    cbv iota; cbn [this Q2Qc]; rewrite ?Qred_correct; qnum; split; lra.
Qed.

(** Two levels of blending of four values that the gradients bound. *)
Lemma blend_bound_Q (a b u v g00 g10 g01 g11 : Q) :
  (0 <= a -> a <= 1 -> 0 <= b -> b <= 1 ->
   0 <= u -> u <= 1 -> 0 <= v -> v <= 1 ->
   a + u * (1 - 2 * a) <= 1 # 2 ->
   b + v * (1 - 2 * b) <= 1 # 2 ->
   - (8 * a + b) <= g00 -> g00 <= 8 * a + b ->
   - (8 * (1 - a) + b) <= g10 -> g10 <= 8 * (1 - a) + b ->
   - (8 * a + (1 - b)) <= g01 -> g01 <= 8 * a + (1 - b) ->
   - (8 * (1 - a) + (1 - b)) <= g11 -> g11 <= 8 * (1 - a) + (1 - b) ->
   - (9 # 2) <= (g00 + u * (g10 + - g00))
                + v * ((g01 + u * (g11 + - g01)) + - (g00 + u * (g10 + - g00)))
   /\ (g00 + u * (g10 + - g00))
      + v * ((g01 + u * (g11 + - g01)) + - (g00 + u * (g10 + - g00))) <= 9 # 2)%Q.
Proof.
  intros Ha0 Ha1 Hb0 Hb1 Hu0 Hu1 Hv0 Hv1 Hfa Hfb L00 U00 L10 U10 L01 U01 L11 U11.
  pose proof (lerp_mono_Q u g00 g10 _ _ Hu0 Hu1 U00 U10) as Hup0.
  pose proof (lerp_mono_Q u g01 g11 _ _ Hu0 Hu1 U01 U11) as Hup1.
  pose proof (lerp_mono_Q v _ _ _ _ Hv0 Hv1 Hup0 Hup1) as Hup.
  pose proof (lerp_mono_Q u _ _ g00 g10 Hu0 Hu1 L00 L10) as Hlo0.
  pose proof (lerp_mono_Q u _ _ g01 g11 Hu0 Hu1 L01 L11) as Hlo1.
  pose proof (lerp_mono_Q v _ _ _ _ Hv0 Hv1 Hlo0 Hlo1) as Hlo.
  split; lra.
Qed.

Lemma blend_bound (a b u v g00 g10 g01 g11 : Qc) :
  0 <= a -> a <= 1 -> 0 <= b -> b <= 1 ->
  0 <= u -> u <= 1 -> 0 <= v -> v <= 1 ->
  a + u * (1 - Z2Qc 2 * a) <= frac 1 2 ->
  b + v * (1 - Z2Qc 2 * b) <= frac 1 2 ->
  - (Z2Qc 8 * a + b) <= g00 -> g00 <= Z2Qc 8 * a + b ->
  - (Z2Qc 8 * (1 - a) + b) <= g10 -> g10 <= Z2Qc 8 * (1 - a) + b ->
  - (Z2Qc 8 * a + (1 - b)) <= g01 -> g01 <= Z2Qc 8 * a + (1 - b) ->
  - (Z2Qc 8 * (1 - a) + (1 - b)) <= g11 -> g11 <= Z2Qc 8 * (1 - a) + (1 - b) ->
  - frac 9 2 <= _lerp v (_lerp u g00 g10) (_lerp u g01 g11)
  /\ _lerp v (_lerp u g00 g10) (_lerp u g01 g11) <= frac 9 2.
Proof.
  intros Ha0 Ha1 Hb0 Hb1 Hu0 Hu1 Hv0 Hv1 Hfa Hfb L00 U00 L10 U10 L01 U01 L11 U11.
  unfold _lerp. qc2q. qnum.
  apply (blend_bound_Q (this a) (this b) (this u) (this v)); assumption.
Qed.

Lemma mirror_bounds (a : Qc) :
  0 <= a -> a <= 1 -> - a <= a /\ a <= a /\ - (1 - a) <= a - 1 /\ a - 1 <= 1 - a.
Proof. intros H0 H1. qc2q. repeat split; lra. Qed.

Lemma _noise2D_bound (x y : Qc) :
  - frac 9 2 <= _noise2D x y /\ _noise2D x y <= frac 9 2.
Proof.
  unfold _noise2D. cbv zeta.
  destruct (fraction_unit x) as [Ha0 Ha1]. destruct (fraction_unit y) as [Hb0 Hb1].
  generalize dependent (x - Math_floor x). intros a Ha0 Ha1.
  generalize dependent (y - Math_floor y). intros b Hb0 Hb1.
  destruct (_fade_unit a Ha0 Ha1) as [Hu0 Hu1].
  destruct (_fade_unit b Hb0 Hb1) as [Hv0 Hv1].
  destruct (mirror_bounds a Ha0 Ha1) as (A1 & A2 & A3 & A4).
  destruct (mirror_bounds b Hb0 Hb1) as (B1 & B2 & B3 & B4).
  match goal with
  | |- _ <= _lerp _ (_lerp _ (_grad ?h00 _ _) (_grad ?h10 _ _))
                    (_lerp _ (_grad ?h01 _ _) (_grad ?h11 _ _)) /\ _ =>
      destruct (_grad_weighted h00 a b a b A1 A2 B1 B2) as [L00 U00];
      destruct (_grad_weighted h10 (a - 1) b (1 - a) b A3 A4 B1 B2) as [L10 U10];
      destruct (_grad_weighted h01 a (b - 1) a (1 - b) A1 A2 B3 B4) as [L01 U01];
      destruct (_grad_weighted h11 (a - 1) (b - 1) (1 - a) (1 - b) A3 A4 B3 B4) as [L11 U11];
      exact (blend_bound a b (_fade a) (_fade b)
               (_grad h00 a b) (_grad h10 (a - 1) b)
               (_grad h01 a (b - 1)) (_grad h11 (a - 1) (b - 1))
               Ha0 Ha1 Hb0 Hb1 Hu0 Hu1 Hv0 Hv1
               (fade_blend a Ha0 Ha1) (fade_blend b Hb0 Hb1)
               L00 U00 L10 U10 L01 U01 L11 U11)
  end.
Qed.

(** C7, as stated, fails: the sample at (0.5, 101) is 4, far outside
    [-1, 1]. *)
Lemma noise_sample_exceeds_unit_range :
  _noise2D (frac 1 2) (Z2Qc 101) = Z2Qc 4
  /\ ~ (- (1) <= _noise2D (frac 1 2) (Z2Qc 101) /\ _noise2D (frac 1 2) (Z2Qc 101) <= 1).
Proof.
  assert (E : _noise2D (frac 1 2) (Z2Qc 101) = Z2Qc 4)
    by (apply Qc_is_canon; vm_compute; reflexivity).
  split; [exact E |].
  rewrite E. intros [_ H]. revert H. unfold Qcle. vm_compute. intros H. apply H. reflexivity.
Qed.

(** C7, amended. The sample is a function of (x, y) alone, built from the
    fixed 512-entry table (the 256-entry permutation of 0..255, twice), a
    gradient chosen by the low four bits of the hash (x-weight 1..8, y-weight
    always 1, one sign for both), the fade curve, which maps [0, 1] into
    [0, 1], and two levels of linear blending of the four corners; its
    values lie in [-4.5, 4.5], not in [-1, 1]. *)
Theorem noise_sample_range :
  (forall x y : Qc, - frac 9 2 <= _noise2D x y /\ _noise2D x y <= frac 9 2)
  /\ length permutation = 256%nat
  /\ length _p = 512%nat
  /\ (forall v : Z, (0 <= v < 256)%Z -> In v permutation)
  /\ (forall i : Z, (0 <= i < 256)%Z -> p_at (i + 256) = p_at i)
  /\ (forall (hash : Z) (a b : Qc),
        exists k : Z, (1 <= k <= 8)%Z
          /\ (_grad hash a b = Z2Qc k * a + b \/ _grad hash a b = - (Z2Qc k * a + b)))
  /\ (forall t : Qc, 0 <= t -> t <= 1 -> 0 <= _fade t /\ _fade t <= 1).
Proof.
  split; [exact _noise2D_bound |].
  split; [reflexivity |].
  split; [reflexivity |].
  split.
  { intros v Hv.
    assert (Hall : forallb (fun v => existsb (Z.eqb v) permutation) (range 0 256) = true)
      by (vm_compute; reflexivity).
    rewrite forallb_forall in Hall.
    specialize (Hall v). rewrite existsb_exists in Hall.
    destruct Hall as (w & Hw & E).
    - unfold range. apply in_map_iff. exists (Z.to_nat v). split; [lia |].
      apply in_seq. lia.
    - apply Z.eqb_eq in E. now subst w. }
  split.
  { intros i Hi.
    assert (Hall : forallb (fun i => (p_at (i + 256) =? p_at i)%Z) (range 0 256) = true)
      by (vm_compute; reflexivity).
    rewrite forallb_forall in Hall.
    apply Z.eqb_eq. apply Hall.
    unfold range. apply in_map_iff. exists (Z.to_nat i). split; [lia |].
    apply in_seq. lia. }
  split.
  { intros hash a b. unfold _grad.
    pose proof (land15_cases hash) as Hh. cbv zeta in Hh.
    set (h := Z.land hash 15) in *.
    assert (Hc : (h = 0 \/ h = 1 \/ h = 2 \/ h = 3 \/ h = 4 \/ h = 5 \/ h = 6 \/ h = 7 \/
                  h = 8 \/ h = 9 \/ h = 10 \/ h = 11 \/ h = 12 \/ h = 13 \/ h = 14 \/
                  h = 15)%Z) by lia.
    clearbody h.
    repeat (destruct Hc as [Hc | Hc]); subst h;
      repeat match goal with
        | |- context [Z.eqb ?u ?v] =>
            let r := eval vm_compute in (Z.eqb u v) in progress change (Z.eqb u v) with r
        | |- context [Z.add 1 ?u] =>
            let r := eval vm_compute in (Z.add 1 u) in progress change (Z.add 1 u) with r
        end;
      cbv iota;
      match goal with
      | |- context [Z2Qc ?k * a + _] => exists k; split; [lia |]
      | |- context [- Z2Qc ?k * a + _] => exists k; split; [lia |]
      end;
      change (Z2Qc 1) with 1; first [ left; ring | right; ring ]. }
  exact _fade_unit.
Qed.

(** ** Invariants of the step loops *)

(** A property of the state that every pass of a loop body keeps, however
    the pass ends, holds when the loop is left. *)
Lemma forSteps_invariant {S : Type} (P : S -> Prop) (body : S -> Completion S) (bound : Qc) :
  (forall s, P s -> P (stateOf (body s))) ->
  forall fuel step s, P s -> P (stateOf (snd (forSteps fuel step bound body s))).
Proof.
  intros Hbody. induction fuel as [| fuel IH]; intros step s Hs; cbn [forSteps].
  - exact Hs.
  - destruct (ltb (Z2Qc step) bound); [| exact Hs].
    specialize (Hbody s Hs). destruct (body s) as [s' | e s']; cbn [stateOf] in Hbody.
    + apply IH. exact Hbody.
    + exact Hbody.
Qed.

Section StepInvariant.
Variable M : MathEnv.
(** [Inv] speaks of the engine, [Pd] of one droplet. *)
Variable Inv : ErosionSimulator -> Prop.
Variable Pd : Droplet.t -> Prop.

Hypothesis subStep_keeps : forall es s d,
  Inv s -> Pd d ->
  Inv (fst (stateOf (subStep M es (s, d)))) /\ Pd (snd (stateOf (subStep M es (s, d)))).
Hypothesis droplets_frame : forall s v, Inv s -> Inv (with_droplets s v).
Hypothesis slopeMap_frame : forall s v, Inv s -> Inv (with_slopeMap s v).
Hypothesis randomCalls_frame : forall s v, Inv s -> Inv (with_randomCalls s v).

Lemma subSteps_keeps (s : ErosionSimulator) (d : Droplet.t) :
  Inv s -> Pd d ->
  Inv (fst (stateOf (snd (subSteps M s d)))) /\ Pd (snd (stateOf (snd (subSteps M s d)))).
Proof using subStep_keeps.
  intros Hs Hd. unfold subSteps.
  apply (forSteps_invariant (fun sd => Inv (fst sd) /\ Pd (snd sd))).
  - intros [s1 d1] [H1 H2]. apply subStep_keeps; assumption.
  - split; assumption.
Qed.

Lemma dropletLoop_keeps (n i : nat) (activeCount batchSize : Z)
    (s : ErosionSimulator) (ds : list Droplet.t) :
  Inv s -> Forall Pd ds ->
  Inv (fst (stateOf (dropletLoop M n i activeCount batchSize s ds)))
  /\ Forall Pd (snd (stateOf (dropletLoop M n i activeCount batchSize s ds))).
Proof using subStep_keeps.
  revert i activeCount s ds.
  induction n as [| n IH]; intros i activeCount s ds Hs Hds; cbn [dropletLoop].
  - split; assumption.
  - destruct (ds !! i) as [d |] eqn:Hd; [| split; assumption].
    destruct (activeCount <? batchSize)%Z; [| split; assumption].
    destruct (negb (Droplet.alive d)); [apply IH; assumption |].
    assert (Hpd : Pd d) by (eapply Forall_lookup_1; eassumption).
    destruct (subSteps_keeps s d Hs Hpd) as [H1 H2].
    destruct (snd (subSteps M s d)) as [[s' d'] | e [s' d']]; cbn [stateOf fst snd] in *.
    + apply IH; [assumption | apply Forall_insert; assumption].
    + split; [assumption | apply Forall_insert; assumption].
Qed.

Lemma refreshSlopeMap_keeps (s : ErosionSimulator) :
  Inv s -> Inv (stateOf (refreshSlopeMap M s)).
Proof using slopeMap_frame randomCalls_frame.
  intros Hs. unfold refreshSlopeMap.
  destruct (useTalusFormation (params s)); [| exact Hs].
  destruct (ltb _ _); [| cbn [stateOf]; apply randomCalls_frame; exact Hs].
  cbn [slopeMap with_randomCalls].
  destruct (slopeMap s).
  - cbn [stateOf]. apply slopeMap_frame, randomCalls_frame, Hs.
  - cbn [height width with_randomCalls].
    destruct (range 1 (height s - 1)); [cbn [stateOf]; apply randomCalls_frame, Hs |].
    destruct (range 1 (width s - 1)); cbn [stateOf]; apply randomCalls_frame, Hs.
Qed.

Lemma stepDroplets_keeps (batchSize : Z) (s : ErosionSimulator) :
  Inv s ->
  (forall ds, droplets s = Some ds -> Forall Pd ds) ->
  Inv (stateOf (stepDroplets M batchSize s))
  /\ (forall ds, droplets (stateOf (stepDroplets M batchSize s)) = Some ds -> Forall Pd ds).
Proof using subStep_keeps droplets_frame slopeMap_frame randomCalls_frame.
  intros Hs Hds. unfold stepDroplets.
  destruct (droplets s) as [ds |] eqn:E; [| cbn [stateOf]; rewrite E; split; [exact Hs | easy]].
  destruct (dropletLoop_keeps (length ds) 0 0 batchSize s ds Hs (Hds ds eq_refl)) as [H1 H2].
  destruct (dropletLoop M (length ds) 0 0 batchSize s ds) as [[s' ds'] | e [s' ds']];
    cbn [bind stateOf fst snd] in *.
  - split.
    + apply refreshSlopeMap_keeps, droplets_frame, H1.
    + intros ds2 E2.
      assert (Hd : droplets (stateOf (refreshSlopeMap M (with_droplets s' (Some ds'))))
                   = Some ds').
      { unfold refreshSlopeMap.
        repeat match goal with
               | |- context [if ?b then _ else _] => destruct b
               | |- context [match ?o with Some _ => _ | None => _ end] => destruct o
               | |- context [match ?l with [] => _ | _ :: _ => _ end] => destruct l
               end; reflexivity. }
      rewrite Hd in E2. injection E2 as <-. exact H2.
  - split; [apply droplets_frame, H1 |].
    intros ds2 E2. cbn [droplets with_droplets] in E2. injection E2 as <-. exact H2.
Qed.
End StepInvariant.

(** ** Non-negativity of the height field (C1) *)

Lemma Qcle_0_0 : (0 : Qc) <= 0.
Proof. qc2q. lra. Qed.

Lemma nonneg_Forall (a : list Qc) : nonneg a <-> Forall (fun c => 0 <= c) a.
Proof.
  split.
  - intros H. apply Forall_lookup_2. intros i c Hi.
    specialize (H (Z.of_nat i)). unfold get in H.
    destruct (Z.ltb_spec (Z.of_nat i) 0) as [Hneg | _]; [lia |].
    rewrite Nat2Z.id, Hi in H. exact H.
  - intros H k. unfold get. destruct (k <? 0)%Z; [apply Qcle_0_0 |].
    destruct (a !! Z.to_nat k) as [c |] eqn:E; cbn [default].
    + eapply Forall_lookup_1 in H; [exact H | exact E].
    + apply Qcle_0_0.
Qed.

Lemma get_set_same (a : list Qc) (i : Z) (v : Qc) :
  get (set a i v) i = v \/ get (set a i v) i = 0.
Proof.
  unfold get, set. destruct (i <? 0)%Z; [now right |].
  destruct (decide (Z.to_nat i < length a)%nat) as [Hlt | Hge].
  - left. now rewrite list_lookup_insert_eq.
  - right. rewrite list_insert_ge by lia.
    rewrite lookup_ge_None_2 by lia. reflexivity.
Qed.

Lemma get_set_nonneg (a : list Qc) (i : Z) (v : Qc) : 0 <= v -> 0 <= get (set a i v) i.
Proof.
  intros Hv. destruct (get_set_same a i v) as [-> | ->]; [exact Hv | apply Qcle_0_0].
Qed.

Lemma nonneg_set (a : list Qc) (i : Z) (v : Qc) : nonneg a -> 0 <= v -> nonneg (set a i v).
Proof.
  intros Ha Hv k. destruct (Z.eq_dec k i) as [-> | Hne].
  - apply get_set_nonneg, Hv.
  - rewrite get_set_ne by exact Hne. apply Ha.
Qed.

Lemma nonnegExcept_write (P : Z -> Prop) (a : list Qc) (i : Z) (v : Qc) :
  nonnegExcept P a -> P i -> nonnegExcept P (set a i v).
Proof.
  intros Ha Hi k Hk. rewrite get_set_ne; [apply Ha, Hk |]. intros ->. exact (Hk Hi).
Qed.

Lemma nonnegExcept_clamp (P : Z -> Prop) (a : list Qc) (i : Z) (v : Qc) :
  nonnegExcept P a -> 0 <= v -> nonnegExcept (fun k => P k /\ k <> i) (set a i v).
Proof.
  intros Ha Hv k Hk. destruct (Z.eq_dec k i) as [-> | Hne].
  - apply get_set_nonneg, Hv.
  - rewrite get_set_ne by exact Hne. apply Ha. intros HP. apply Hk. split; assumption.
Qed.

(** The four clamps of [_bilinearAdd] leave the four cells it wrote
    non-negative, whatever the grid held. *)
Lemma _bilinearAdd_except (P : Z -> Prop) (width height : Z) (a : list Qc)
    (x y : Z) (offX offY value : Qc) :
  nonnegExcept P a ->
  inGrid width height x y = true ->
  nonnegExcept
    (fun k => P k /\ k <> toIndex width x y /\ k <> toIndex width (x + 1) y
              /\ k <> toIndex width x (y + 1) /\ k <> toIndex width (x + 1) (y + 1))
    (_bilinearAdd width height a x y offX offY value).
Proof.
  intros Ha Hin. unfold _bilinearAdd. rewrite Hin. cbv zeta.
  set (i00 := toIndex width x y) in *. set (i10 := toIndex width (x + 1) y) in *.
  set (i01 := toIndex width x (y + 1)) in *. set (i11 := toIndex width (x + 1) (y + 1)) in *.
  set (Q := fun k => P k \/ k = i00 \/ k = i10 \/ k = i01 \/ k = i11).
  assert (H0 : nonnegExcept Q a) by (intros k Hk; apply Ha; intros Hp; apply Hk; left; exact Hp).
  match goal with
  | |- nonnegExcept _ (set (set (set (set ?m _ _) _ _) _ _) _ _) =>
      assert (H4 : nonnegExcept Q m)
  end.
  { repeat (apply nonnegExcept_write; [| unfold Q; tauto]). exact H0. }
  match goal with
  | |- nonnegExcept _ ?m =>
      assert (H8 : nonnegExcept
                     (fun k => (((Q k /\ k <> i00) /\ k <> i10) /\ k <> i01) /\ k <> i11) m)
  end.
  { repeat (apply nonnegExcept_clamp; [| apply Math_max_lower]). exact H4. }
  intros k Hk. apply H8. unfold Q. intros H. apply Hk.
  destruct (Z.eq_dec k i00), (Z.eq_dec k i10), (Z.eq_dec k i01), (Z.eq_dec k i11); tauto.
Qed.

Lemma _bilinearAdd_nonneg (width height : Z) (a : list Qc) (x y : Z) (offX offY value : Qc) :
  nonneg a -> nonneg (_bilinearAdd width height a x y offX offY value).
Proof.
  intros Ha. destruct (inGrid width height x y) eqn:Hin.
  - intros k.
    apply (_bilinearAdd_except (fun _ => False)); [intros j _; apply Ha | exact Hin | tauto].
  - unfold _bilinearAdd. rewrite Hin. exact Ha.
Qed.

Section FieldInvariant.
Variable p : Params.
Hypothesis stability : useTalusFormation p = true -> 0 <= talusStabilityFactor p.

Lemma _updateTalusFormation_field (s : ErosionSimulator) (x y erosion deposition : Qc) :
  fieldInv p s -> fieldInv p (stateOf (_updateTalusFormation s x y erosion deposition)).
Proof using stability.
  intros [Hn Hp]. unfold _updateTalusFormation. rewrite Hp.
  destruct (useTalusFormation p) eqn:Ht; cbn [negb]; [| split; assumption].
  destruct (slopeMap s); [| split; assumption].
  destruct (geb _ _ && leb _ _); [| split; assumption].
  destruct (talusMap s) as [tm |]; [| split; assumption].
  cbn [stateOf]. split; [| exact Hp]. cbn [heightMap with_heightMap].
  apply nonneg_set; [exact Hn |].
  match goal with
  | |- 0 <= ?h + get (set ?tm ?i ?v) ?i * ?f =>
      assert (H1 : 0 <= h) by apply Hn;
      assert (H2 : 0 <= get (set tm i v) i) by apply get_set_nonneg, Math_max_lower;
      assert (H3 : 0 <= f) by auto;
      generalize dependent (get (set tm i v) i); generalize dependent h;
      generalize dependent f
  end.
  intros f _ Hf h Hh t Ht'. qc2q. nra.
Qed.

Lemma microDetails_field (es : Qc) (s : ErosionSimulator) (d : Droplet.t)
    (cellX cellY : Z) (offX offY amount : Qc) :
  fieldInv p s -> fieldInv p (stateOf (microDetails es s d cellX cellY offX offY amount)).
Proof.
  intros Hs. unfold microDetails.
  destruct (useMicroDetails (params s)); [| exact Hs].
  destruct (microDetailNoise s); [| exact Hs].
  destruct (_bilinearAdd_field _ _ _ _ _ _ _ _); exact Hs.
Qed.

Lemma erodeOrDeposit_field (M : MathEnv) (es : Qc) (s : ErosionSimulator) (d : Droplet.t)
    (cellX cellY : Z) (offX offY newH capacity : Qc) :
  fieldInv p s ->
  fieldInv p (fst (stateOf (erodeOrDeposit M es s d cellX cellY offX offY newH capacity))).
Proof using stability.
  intros [Hn Hp]. unfold erodeOrDeposit.
  assert (Hadd : forall v, fieldInv p (with_heightMap s
            (_bilinearAdd (width s) (height s) (heightMap s) cellX cellY offX offY v)))
    by (intros v; split; [apply _bilinearAdd_nonneg, Hn | exact Hp]).
  destruct (gtb (Droplet.sediment d) capacity).
  - match goal with
    | |- context [_updateTalusFormation ?s1 ?x ?y ?e ?dp] =>
        pose proof (_updateTalusFormation_field s1 x y e dp (Hadd _)) as Ht;
        destruct (_updateTalusFormation s1 x y e dp) as [s2 | ex s2]
    end; cbn [bind stateOf fst] in *; [| exact Ht].
    match goal with
    | |- context [microDetails ?a ?b ?c ?e ?f ?g ?h ?i] =>
        pose proof (microDetails_field a b c e f g h i Ht) as Hm;
        destruct (microDetails a b c e f g h i)
    end; cbn [bind stateOf fst] in *; exact Hm.
  - destruct (gtb _ 0); [| split; assumption].
    match goal with
    | |- context [_updateTalusFormation ?s1 ?x ?y ?e ?dp] =>
        pose proof (_updateTalusFormation_field s1 x y e dp (Hadd _)) as Ht;
        destruct (_updateTalusFormation s1 x y e dp) as [s2 | ex s2]
    end; cbn [bind stateOf fst] in *; [| exact Ht].
    match goal with
    | |- context [microDetails ?a ?b ?c ?e ?f ?g ?h ?i] =>
        pose proof (microDetails_field a b c e f g h i Ht) as Hm;
        destruct (microDetails a b c e f g h i)
    end; cbn [bind stateOf fst] in *; exact Hm.
Qed.

Lemma subStep_field (M : MathEnv) (es : Qc) (s : ErosionSimulator) (d : Droplet.t) :
  fieldInv p s -> True ->
  fieldInv p (fst (stateOf (subStep M es (s, d)))) /\ True.
Proof using stability.
  intros Hs _. split; [| exact I]. unfold subStep.
  destruct (outOfBounds s _); [exact Hs |].
  match goal with
  | |- context [flowAccumulation ?a ?b ?c ?e] =>
      assert (Hf : match flowAccumulation a b c e with
                   | inl _ => True
                   | inr (s1, _) => fieldInv p s1
                   end);
      [ unfold flowAccumulation;
        destruct (useFlowAccumulation (params b)); [destruct (flowMap b) |]; try exact I;
        exact Hs
      | destruct (flowAccumulation a b c e) as [ex | [s1 cap]] ]
  end; [exact Hs |].
  match goal with
  | |- context [erodeOrDeposit ?a ?b ?c ?e ?f ?g ?h ?i ?j ?k] =>
      pose proof (erodeOrDeposit_field a b c e f g h i j k Hf) as He;
      destruct (erodeOrDeposit a b c e f g h i j k) as [[s3 d3] | ex [s3 d3]]
  end; cbn [bind stateOf fst snd id] in *; exact He.
Qed.

Lemma stepDroplets_field (M : MathEnv) (batchSize : Z) (s : ErosionSimulator) :
  fieldInv p s -> fieldInv p (stateOf (stepDroplets M batchSize s)).
Proof using stability.
  intros Hs.
  apply (stepDroplets_keeps M (fieldInv p) (fun _ => True)); try assumption.
  - intros es s0 d0. apply subStep_field.
  - intros s0 v H0. exact H0.
  - intros s0 v H0. exact H0.
  - intros s0 v H0. exact H0.
  - intros ds _. apply Forall_forall. easy.
Qed.
End FieldInvariant.

Lemma allocateMaps_frame (M : MathEnv) (s : ErosionSimulator) :
  let s' := stateOf (allocateMaps M s) in
  heightMap s' = heightMap s /\ params s' = params s /\ droplets s' = droplets s
  /\ width s' = width s /\ height s' = height s.
Proof.
  unfold allocateMaps. cbv zeta.
  destruct (useFlowAccumulation (params s)), (useMultiScale (params s)),
    (useMicroDetails (params s)), (useTalusFormation (params s)),
    (width s * height s <? 0)%Z; cbn; repeat split.
Qed.

Lemma createDroplets_frame (M : MathEnv) (n : nat) (s : ErosionSimulator) :
  let s' := snd (createDroplets M n s) in
  heightMap s' = heightMap s /\ params s' = params s /\ droplets s' = droplets s
  /\ width s' = width s /\ height s' = height s.
Proof.
  revert s. induction n as [| n IH]; intros s; cbn [createDroplets].
  - repeat split.
  - destruct (_createDroplet M s) as [d s1] eqn:E1.
    specialize (IH s1). destruct (createDroplets M n s1) as [ds s2]. cbn [snd] in *.
    unfold _createDroplet in E1. injection E1 as _ <-.
    cbn [heightMap params droplets width height with_randomCalls] in IH. exact IH.
Qed.

Lemma createDroplets_length (M : MathEnv) (n : nat) (s : ErosionSimulator) :
  length (fst (createDroplets M n s)) = n.
Proof.
  revert s. induction n as [| n IH]; intros s; cbn [createDroplets]; [reflexivity |].
  destruct (_createDroplet M s) as [d s1]. specialize (IH s1).
  destruct (createDroplets M n s1) as [ds s2]. cbn [fst length] in *. now rewrite IH.
Qed.

Lemma reset_field (p : Params) (M : MathEnv) (newHeightMap : list Qc) (s : ErosionSimulator) :
  params s = p -> nonneg newHeightMap -> fieldInv p (stateOf (reset M newHeightMap s)).
Proof.
  intros Hp Hn. unfold reset. cbn [droplets with_heightMap].
  destruct (droplets s) as [ds |]; [| split; assumption].
  pose proof (createDroplets_frame M (length ds) (with_heightMap s newHeightMap)) as Hc.
  destruct (createDroplets M (length ds) (with_heightMap s newHeightMap)) as [ds' s2].
  cbv zeta in Hc. cbn [snd heightMap params with_heightMap] in Hc.
  destruct Hc as (Hh & Hp2 & _).
  destruct (allocateMaps_frame M (with_droplets s2 (Some ds'))) as (Hh3 & Hp3 & _).
  cbn [heightMap params with_droplets] in Hh3, Hp3.
  split; [rewrite Hh3, Hh; exact Hn | rewrite Hp3, Hp2; exact Hp].
Qed.

Lemma reset_heightMap (M : MathEnv) (newHeightMap : list Qc) (s : ErosionSimulator) :
  heightMap (stateOf (reset M newHeightMap s)) = newHeightMap.
Proof.
  unfold reset. cbn [droplets with_heightMap].
  destruct (droplets s) as [ds |]; [| reflexivity].
  pose proof (createDroplets_frame M (length ds) (with_heightMap s newHeightMap)) as Hc.
  destruct (createDroplets M (length ds) (with_heightMap s newHeightMap)) as [ds' s2].
  cbv zeta in Hc. cbn [snd heightMap with_heightMap] in Hc. destruct Hc as (Hh & _).
  destruct (allocateMaps_frame M (with_droplets s2 (Some ds'))) as (Hh3 & _).
  cbn [heightMap with_droplets] in Hh3. now rewrite Hh3.
Qed.

Lemma calls_field (p : Params) (M : MathEnv) (cs : list Call) (s : ErosionSimulator) :
  (useTalusFormation p = true -> 0 <= talusStabilityFactor p) ->
  resetsNonneg cs -> fieldInv p s -> fieldInv p (calls M s cs).
Proof.
  intros Hst. revert s. induction cs as [| c cs IH]; intros s Hcs Hs; [exact Hs |].
  cbn [calls fold_left]. apply Forall_cons in Hcs as [Hc Hcs].
  apply IH; [exact Hcs |]. unfold call. destruct c as [b | hm].
  - apply stepDroplets_field; assumption.
  - apply reset_field; [apply Hs | apply nonneg_Forall, Hc].
Qed.

Lemma construct_heightMap (M : MathEnv) (width height : Z) (heightMap0 : list Qc)
    (overlay : Overlay) (c : nat) :
  heightMap (stateOf (construct M width height heightMap0 overlay c)) = heightMap0.
Proof.
  unfold construct.
  match goal with
  | |- context [allocateMaps M ?s] => destruct (allocateMaps_frame M s) as (H & _)
  end.
  exact H.
Qed.




(** ** The inner loop (C3) *)

Lemma ltb_Math_min_2 (c rs : Qc) : c < 2%Z -> ltb c (Math_min rs 2%Z) = ltb c rs.
Proof.
  intros Hc. unfold Math_min. destruct (ltb 2%Z rs) eqn:E; [| reflexivity].
  apply ltb_lt in E. transitivity true; [apply ltb_lt; exact Hc | symmetry; apply ltb_lt].
  qc2q. lra.
Qed.

Lemma ltb_2_Math_min (rs : Qc) : ltb 2%Z (Math_min rs 2%Z) = false.
Proof. apply ltb_ge. apply Math_min_le_r. Qed.

(** With a bound of at most 2 the loop is over after two passes: more fuel
    changes nothing. *)
Lemma forSteps_fuel {S : Type} (extra : nat) (rs : Qc) (body : S -> Completion S) (s : S) :
  forSteps (2 + extra) 0 (Math_min rs 2%Z) body s = forSteps 2 0 (Math_min rs 2%Z) body s.
Proof.
  cbn [forSteps Nat.add].
  destruct (ltb (Z2Qc 0) (Math_min rs 2%Z)); [| reflexivity].
  destruct (body s) as [s1 | e s1]; [| reflexivity].
  destruct (ltb (Z2Qc (0 + 1)) (Math_min rs 2%Z)); [| reflexivity].
  destruct (body s1) as [s2 | e s2]; [| reflexivity].
  destruct extra; [reflexivity |]. cbn [forSteps].
  change (0 + 1 + 1)%Z with 2%Z. rewrite ltb_2_Math_min. reflexivity.
Qed.

Lemma subSteps_unfold (M : MathEnv) (s : ErosionSimulator) (d : Droplet.t) :
  let rs := resolutionScale M (width s) (height s) in
  let body := subStep M (erosionScale M (width s) (height s)) in
  subSteps M s d =
    if ltb 0 rs then
      match body (s, d) with
      | Normal sd1 =>
          if ltb 1 rs then
            match body sd1 with
            | Normal sd2 => (2%Z, Normal sd2)
            | Throw e sd2 => (1%Z, Throw e sd2)
            end
          else (1%Z, Normal sd1)
      | Throw e sd1 => (0%Z, Throw e sd1)
      end
    else (0%Z, Normal (s, d)).
Proof.
  cbv zeta. unfold subSteps, dropletMultiplier. cbn [forSteps].
  change (Z2Qc 0) with (0 : Qc). change (Z2Qc (0 + 1)) with (1 : Qc).
  rewrite !ltb_Math_min_2 by (qc2q; qnum; lra).
  reflexivity.
Qed.

(** C3, as stated, fails: on a 600 x 600 grid the resolution scale is about 1.2,
    the stated count is 1, and the loop makes two passes. *)
Lemma two_passes_at_600 :
  let M := exampleMath in
  let s0 := stateOf (construct M 600 600 (zeros 360000) bareOverlay 0) in
  let d := fst (_createDroplet M s0) in
  let s := snd (_createDroplet M s0) in
  width s = 600%Z /\ height s = 600%Z
  /\ statedSubSteps M 600 600 = 1%Z
  /\ fst (subSteps M s d) = 2%Z
  /\ fst (subSteps M s d) <> statedSubSteps M (width s) (height s).
Proof.
  cbv zeta.
  set (s0 := stateOf (construct exampleMath 600 600 (zeros 360000) bareOverlay 0)).
  assert (Hw : width (snd (_createDroplet exampleMath s0)) = 600%Z) by reflexivity.
  assert (Hh : height (snd (_createDroplet exampleMath s0)) = 600%Z) by reflexivity.
  assert (E1 : statedSubSteps exampleMath 600 600 = 1%Z) by (vm_compute; reflexivity).
  assert (E2 : fst (subSteps exampleMath (snd (_createDroplet exampleMath s0))
                      (fst (_createDroplet exampleMath s0))) = 2%Z)
    by (vm_compute; reflexivity).
  repeat split; try assumption.
  rewrite E2, Hw, Hh, E1. discriminate.
Qed.

(** C3, amended. For each selected droplet the inner loop makes one pass for
    each integer 0, 1, ... below min(resolutionScale, 2.0): none when the
    resolution scale is not positive, one when it is in (0, 1], two when it
    is above 1 (so two, not one, for a scale strictly between 1 and 2).  A
    pass that throws ends the loop; a pass that kills the droplet does not.
    The loop variable ends at [allowedSubSteps] when no pass throws, and two
    passes of fuel are all the loop uses. *)
Theorem subSteps_passes (M : MathEnv) (s : ErosionSimulator) (d : Droplet.t) :
  let rs := resolutionScale M (width s) (height s) in
  let body := subStep M (erosionScale M (width s) (height s)) in
  subSteps M s d =
    (if ltb 0 rs then
       match body (s, d) with
       | Normal sd1 =>
           if ltb 1 rs then
             match body sd1 with
             | Normal sd2 => (2%Z, Normal sd2)
             | Throw e sd2 => (1%Z, Throw e sd2)
             end
           else (1%Z, Normal sd1)
       | Throw e sd1 => (0%Z, Throw e sd1)
       end
     else (0%Z, Normal (s, d)))
  /\ match snd (subSteps M s d) with
     | Normal _ => fst (subSteps M s d) = allowedSubSteps M (width s) (height s)
     | Throw _ _ => (fst (subSteps M s d) < allowedSubSteps M (width s) (height s))%Z
     end
  /\ forall extra : nat,
       forSteps (2 + extra) 0 (dropletMultiplier M (width s) (height s)) body (s, d)
       = subSteps M s d.
Proof.
  cbv zeta. split; [apply subSteps_unfold |]. split.
  - rewrite subSteps_unfold. cbv zeta. unfold allowedSubSteps.
    destruct (ltb 0 (resolutionScale M (width s) (height s))) eqn:E0.
    + destruct (subStep M _ (s, d)) as [sd1 | e sd1].
      * destruct (ltb 1 (resolutionScale M (width s) (height s))) eqn:E1.
        -- destruct (subStep M _ sd1); cbn [fst snd]; lia.
        -- cbn [fst snd]. reflexivity.
      * cbn [fst snd]. destruct (ltb 1 _); lia.
    + cbn [fst snd].
      destruct (ltb 1 (resolutionScale M (width s) (height s))) eqn:E1; [| reflexivity].
      apply ltb_lt in E1. apply ltb_ge in E0. exfalso. qc2q. lra.
  - intros extra. unfold subSteps, dropletMultiplier. apply forSteps_fuel.
Qed.

(** ** Droplet positions (C5) *)

Lemma _updateTalusFormation_frame (s : ErosionSimulator) (x y erosion deposition : Qc) :
  let s' := stateOf (_updateTalusFormation s x y erosion deposition) in
  width s' = width s /\ height s' = height s /\ params s' = params s.
Proof.
  cbv zeta. unfold _updateTalusFormation.
  destruct (negb _); [repeat split |].
  destruct (slopeMap s); [| repeat split].
  destruct (geb _ _ && leb _ _); [| repeat split].
  destruct (talusMap s); repeat split.
Qed.

Lemma microDetails_frame (es : Qc) (s : ErosionSimulator) (d : Droplet.t)
    (cellX cellY : Z) (offX offY amount : Qc) :
  let s' := stateOf (microDetails es s d cellX cellY offX offY amount) in
  width s' = width s /\ height s' = height s /\ params s' = params s.
Proof.
  cbv zeta. unfold microDetails.
  destruct (useMicroDetails (params s)); [| repeat split].
  destruct (microDetailNoise s); [| repeat split].
  destruct (_bilinearAdd_field _ _ _ _ _ _ _ _); repeat split.
Qed.

Lemma erodeOrDeposit_frame (M : MathEnv) (es : Qc) (s : ErosionSimulator) (d : Droplet.t)
    (cellX cellY : Z) (offX offY newH capacity : Qc) :
  let r := stateOf (erodeOrDeposit M es s d cellX cellY offX offY newH capacity) in
  width (fst r) = width s /\ height (fst r) = height s /\ params (fst r) = params s
  /\ Droplet.x (snd r) = Droplet.x d /\ Droplet.y (snd r) = Droplet.y d
  /\ Droplet.alive (snd r) = Droplet.alive d.
Proof.
  cbv zeta. unfold erodeOrDeposit.
  destruct (gtb (Droplet.sediment d) capacity).
  - match goal with
    | |- context [_updateTalusFormation ?s1 ?x ?y ?e ?dp] =>
        destruct (_updateTalusFormation_frame s1 x y e dp) as (Hw & Hh & Hp);
        destruct (_updateTalusFormation s1 x y e dp) as [s2 | ex s2]
    end; cbn [bind stateOf fst snd with_heightMap width height params] in *;
      [| repeat split; assumption].
    match goal with
    | |- context [microDetails ?a ?b ?c ?e ?f ?g ?h ?i] =>
        destruct (microDetails_frame a b c e f g h i) as (Hw2 & Hh2 & Hp2);
        destruct (microDetails a b c e f g h i)
    end; cbn [bind stateOf fst snd] in *; repeat split; congruence.
  - destruct (gtb _ 0); [| repeat split].
    match goal with
    | |- context [_updateTalusFormation ?s1 ?x ?y ?e ?dp] =>
        destruct (_updateTalusFormation_frame s1 x y e dp) as (Hw & Hh & Hp);
        destruct (_updateTalusFormation s1 x y e dp) as [s2 | ex s2]
    end; cbn [bind stateOf fst snd with_heightMap width height params] in *;
      [| repeat split; assumption].
    match goal with
    | |- context [microDetails ?a ?b ?c ?e ?f ?g ?h ?i] =>
        destruct (microDetails_frame a b c e f g h i) as (Hw2 & Hh2 & Hp2);
        destruct (microDetails a b c e f g h i)
    end; cbn [bind stateOf fst snd] in *; repeat split; congruence.
Qed.

Lemma subStep_frame (M : MathEnv) (es : Qc) (s : ErosionSimulator) (d : Droplet.t) :
  let r := stateOf (subStep M es (s, d)) in
  width (fst r) = width s /\ height (fst r) = height s /\ params (fst r) = params s
  /\ (Droplet.alive (snd r) = true -> Droplet.alive d = true /\ insideMargin (width s) (height s) (snd r)).
Proof.
  cbv zeta. unfold subStep.
  destruct (outOfBounds s (moveDroplet M es s d)) eqn:Hout.
  - cbn. repeat split; discriminate.
  - set (d1 := moveDroplet M es s d) in *.
    assert (Hin : insideMargin (width s) (height s) d1).
    { unfold outOfBounds, gtb in Hout.
      apply orb_false_elim in Hout as [Hout H4]. apply orb_false_elim in Hout as [Hout H3].
      apply orb_false_elim in Hout as [H1 H2].
      apply ltb_ge in H1, H2, H3, H4. repeat split; assumption. }
    assert (Ha : Droplet.alive d1 = Droplet.alive d) by reflexivity.
    match goal with
    | |- context [flowAccumulation ?a ?b ?c ?e] =>
        assert (Hf : match flowAccumulation a b c e with
                     | inl _ => True
                     | inr (s1, _) => width s1 = width s /\ height s1 = height s
                                      /\ params s1 = params s
                     end);
        [ unfold flowAccumulation;
          destruct (useFlowAccumulation (params b)); [destruct (flowMap b) |]; try exact I;
          repeat split
        | destruct (flowAccumulation a b c e) as [ex | [s1 cap]] ]
    end.
    + cbn [stateOf fst snd]. split; [reflexivity |]. split; [reflexivity |].
      split; [reflexivity |]. cbn [Droplet.alive with_speed]. intros Hal.
      split; [congruence | exact Hin].
    + destruct Hf as (Hw & Hh & Hp).
      match goal with
      | |- context [erodeOrDeposit ?a ?b ?c ?e ?f ?g ?h ?i ?j ?k] =>
          pose proof (erodeOrDeposit_frame a b c e f g h i j k) as He;
          destruct (erodeOrDeposit a b c e f g h i j k) as [[s3 d3] | ex [s3 d3]]
      end; cbv zeta in He; cbn [bind stateOf fst snd id] in *;
        destruct He as (Hw3 & Hh3 & Hp3 & Hx & Hy & Hal);
        cbn [Droplet.x Droplet.y Droplet.alive with_speed] in Hx, Hy, Hal.
      * split; [congruence |]. split; [congruence |]. split; [congruence |].
        unfold evaporate, insideMargin. cbn [Droplet.alive Droplet.x Droplet.y].
        rewrite Hx, Hy. intros Hk. split; [| exact Hin].
        destruct (_ || _) in Hk; [discriminate | congruence].
      * split; [congruence |]. split; [congruence |]. split; [congruence |].
        unfold insideMargin. rewrite Hx, Hy. intros Hk. split; [congruence | exact Hin].
Qed.

Lemma insideMargin_overInterior (width height : Z) (d : Droplet.t) :
  insideMargin width height d -> overInterior width height d.
Proof.
  unfold insideMargin, overInterior. intros (H1 & H2 & H3 & H4).
  assert (Hw : Z2Qc (width - 2) < Z2Qc (width - 1)).
  { unfold Z2Qc, Qclt. cbn [this Q2Qc]. rewrite !Qred_correct. rewrite <- Zlt_Qlt. lia. }
  assert (Hh : Z2Qc (height - 2) < Z2Qc (height - 1)).
  { unfold Z2Qc, Qclt. cbn [this Q2Qc]. rewrite !Qred_correct. rewrite <- Zlt_Qlt. lia. }
  repeat split; try assumption.
  - eapply Qcle_lt_trans; eassumption.
  - eapply Qcle_lt_trans; eassumption.
Qed.

Lemma random_span (r : Qc) (n : Z) :
  0 <= r -> r < 1 -> (2 < n)%Z ->
  1 <= r * Z2Qc (n - 2) + 1 /\ r * Z2Qc (n - 2) + 1 < Z2Qc (n - 1).
Proof.
  intros H0 H1 Hn.
  assert (Hpos : 0 < Z2Qc (n - 2)).
  { unfold Z2Qc, Qclt. cbn [this Q2Qc]. rewrite !Qred_correct.
    change 0%Q with (inject_Z 0). rewrite <- Zlt_Qlt. lia. }
  assert (E : Z2Qc (n - 1) = Z2Qc (n - 2) + 1).
  { apply Qc_is_canon. unfold Z2Qc. cbn [this Q2Qc Qcplus]. rewrite !Qred_correct.
    unfold Qeq, Qplus, inject_Z. cbn [Qnum Qden]. lia. }
  rewrite E. generalize dependent (Z2Qc (n - 2)). intros m Hm _.
  unfold Qcle, Qclt in *. cbn [this Qcplus Qcmult Q2Qc] in *. rewrite ?Qred_correct in *.
  split; nra.
Qed.

Lemma _createDroplet_overInterior (M : MathEnv) (s : ErosionSimulator) :
  unitRandom M -> (2 < width s)%Z -> (2 < height s)%Z ->
  let d := fst (_createDroplet M s) in
  Droplet.alive d = true /\ overInterior (width s) (height s) d.
Proof.
  intros Hr Hw Hh. cbv zeta. unfold _createDroplet, overInterior.
  cbn [fst Droplet.alive Droplet.x Droplet.y].
  destruct (Hr (randomCalls s)) as [Ha Hb]. destruct (Hr (randomCalls s + 1)%nat) as [Hc Hd].
  destruct (random_span _ _ Ha Hb Hw). destruct (random_span _ _ Hc Hd Hh).
  repeat split; assumption.
Qed.

Lemma createDroplets_overInterior (M : MathEnv) (n : nat) (s : ErosionSimulator) :
  unitRandom M -> (2 < width s)%Z -> (2 < height s)%Z ->
  Forall (fun d => Droplet.alive d = true /\ overInterior (width s) (height s) d)
         (fst (createDroplets M n s)).
Proof.
  intros Hr. revert s. induction n as [| n IH]; intros s Hw Hh; cbn [createDroplets].
  - constructor.
  - pose proof (_createDroplet_overInterior M s Hr Hw Hh) as Hd. cbv zeta in Hd.
    destruct (_createDroplet M s) as [d s1] eqn:E1.
    assert (Hw1 : width s1 = width s /\ height s1 = height s)
      by (unfold _createDroplet in E1; injection E1 as _ <-; split; reflexivity).
    destruct Hw1 as [Hw1 Hh1].
    specialize (IH s1). rewrite Hw1, Hh1 in IH. specialize (IH Hw Hh).
    destruct (createDroplets M n s1) as [ds s2]. cbn [fst] in *.
    constructor; assumption.
Qed.

Lemma reset_frame (M : MathEnv) (newHeightMap : list Qc) (s : ErosionSimulator) :
  let s' := stateOf (reset M newHeightMap s) in
  width s' = width s /\ height s' = height s /\ params s' = params s
  /\ (droplets s' = droplets s /\ droplets s = None
      \/ exists ds, droplets s = Some ds
           /\ droplets s' = Some (fst (createDroplets M (length ds) (with_heightMap s newHeightMap)))).
Proof.
  cbv zeta. unfold reset. cbn [droplets with_heightMap].
  destruct (droplets s) as [ds |] eqn:E; [| cbn; rewrite E; repeat split; left; split; reflexivity].
  pose proof (createDroplets_frame M (length ds) (with_heightMap s newHeightMap)) as Hc.
  destruct (createDroplets M (length ds) (with_heightMap s newHeightMap)) as [ds' s2] eqn:Ec.
  cbv zeta in Hc. cbn [snd fst heightMap params width height with_heightMap] in *.
  destruct Hc as (_ & Hp & _ & Hw & Hh).
  destruct (allocateMaps_frame M (with_droplets s2 (Some ds'))) as (_ & Hp3 & Hd3 & Hw3 & Hh3).
  cbn [params width height droplets with_droplets] in *.
  repeat split; try congruence. right. exists ds. split; [reflexivity |].
  rewrite Ec. exact Hd3.
Qed.

Lemma calls_overInterior (M : MathEnv) (w h : Z) (cs : list Call) (s : ErosionSimulator) :
  unitRandom M -> (2 < w)%Z -> (2 < h)%Z ->
  width s = w /\ height s = h ->
  (forall ds, droplets s = Some ds -> Forall (aliveOverInterior w h) ds) ->
  (width (calls M s cs) = w /\ height (calls M s cs) = h)
  /\ (forall ds, droplets (calls M s cs) = Some ds -> Forall (aliveOverInterior w h) ds).
Proof.
  intros Hr Hw Hh. revert s. induction cs as [| c cs IH]; intros s Hs Hds.
  - split; assumption.
  - cbn [calls fold_left].
    assert (Hc : (width (call M s c) = w /\ height (call M s c) = h)
                 /\ (forall ds, droplets (call M s c) = Some ds ->
                                 Forall (aliveOverInterior w h) ds)).
    { unfold call. destruct c as [b | hm].
      - apply (stepDroplets_keeps M (fun s => width s = w /\ height s = h)
                 (aliveOverInterior w h)); try assumption; try (intros; assumption).
        intros es s0 d0 [Hw0 Hh0] Hd0.
        destruct (subStep_frame M es s0 d0) as (H1 & H2 & _ & H4).
        split; [split; [rewrite H1; exact Hw0 | rewrite H2; exact Hh0] |].
        intros Hal. apply insideMargin_overInterior. rewrite <- Hw0, <- Hh0. apply H4, Hal.
      - destruct Hs as [Hsw Hsh].
        destruct (reset_frame M hm s) as (H1 & H2 & _ & [[Hd Hn] | (ds0 & Hd0 & Hd)]).
        + split; [split; congruence |].
          intros ds E. rewrite Hd, Hn in E. discriminate E.
        + split; [split; congruence |].
          intros ds E. rewrite Hd in E. injection E as <-.
          pose proof (createDroplets_overInterior M (length ds0) (with_heightMap s hm) Hr)
            as Hcr.
          cbn [width height with_heightMap] in Hcr.
          rewrite Hsw, Hsh in Hcr. specialize (Hcr Hw Hh).
          eapply Forall_impl; [exact Hcr |]. intros d [_ Hd1] _. exact Hd1. }
    destruct Hc as [Hc1 Hc2]. apply IH; assumption.
Qed.



Lemma lcgRandom_unit (seed : Z) : unitRandom (approxMath (lcgRandom seed)).
Proof.
  intros n. cbn [Math_random approxMath]. unfold lcgRandom. cbn [lcgState].
  pose proof (Z.mod_pos_bound (lcgState seed n * 16807) 2147483647 ltac:(lia)) as Hb.
  set (v := ((lcgState seed n * 16807) mod 2147483647)%Z) in *. clearbody v.
  unfold Qcle, Qclt, Qcdiv, Qcinv, Z2Qc. cbn [this Qcmult Q2Qc]. rewrite !Qred_correct.
  change (/ inject_Z 2147483647)%Q with (1 # 2147483647)%Q.
  unfold Qle, Qlt, Qmult, inject_Z. cbn [Qnum Qden]. split; lia.
Qed.


(** ** One step on the flat 4 x 4 field (C2) *)

Lemma zero_factor (acc a b c d e : Qc) : acc + a * b * c * 0 * d * e = acc.
Proof. ring. Qed.

Lemma zero_factor' (a b c d : Qc) : a * b * c * 0 * d = 0.
Proof. ring. Qed.

Lemma zero_grain (acc c w : Qc) : acc + 0 * c * w = acc.
Proof. ring. Qed.

Lemma fold_left_zero {A : Type} (f : Qc -> A -> Qc) (l : list A) :
  (forall a, f 0 a = 0) -> fold_left f l 0 = 0.
Proof.
  intros Hf. induction l as [| a l IH]; cbn [fold_left]; [reflexivity |].
  rewrite (Hf a). exact IH.
Qed.

Lemma baseCapacity_zero (M : MathEnv) (p : Params) (es deltaH speed water : Qc) :
  sedimentCapacityFactor p = 0 -> baseCapacity M p es deltaH speed water = 0.
Proof.
  intros Hz. unfold baseCapacity.
  destruct (useMultiScale p).
  - apply fold_left_zero. intros i. cbv beta. rewrite Hz. apply zero_factor.
  - rewrite Hz. apply zero_factor'.
Qed.

Lemma sizeAdjustedCapacity_zero (p : Params) (sd : option Distribution) :
  sizeAdjustedCapacity p sd 0 = 0.
Proof.
  unfold sizeAdjustedCapacity. destruct sd as [dist |]; [| reflexivity].
  destruct (useSedimentSizes p); [| reflexivity].
  apply fold_left_zero. intros e. apply zero_grain.
Qed.

Lemma flat4_sample : _bilinearInterp 4 4 flat4 (Z2Qc 2) (Z2Qc 2) = 1.
Proof. apply Qc_is_canon. vm_compute. reflexivity. Qed.

Lemma flat4_gradient : _calcGradient 4 4 flat4 (Z2Qc 2) (Z2Qc 2) = (0, 0).
Proof. unfold _calcGradient. rewrite Math_floor_Z. reflexivity. Qed.

Lemma moveDroplet_flat (M : MathEnv) (es : Qc) (s : ErosionSimulator) (sd : option Distribution) :
  width s = 4%Z -> height s = 4%Z -> heightMap s = flat4 ->
  moveDroplet M es s (freshAt22 (params s) sd) = freshAt22 (params s) sd.
Proof.
  intros Hw Hh Hm. unfold moveDroplet. rewrite Hw, Hh, Hm.
  cbn [freshAt22 Droplet.x Droplet.y Droplet.dx Droplet.dy Droplet.speed Droplet.water
       Droplet.sediment Droplet.lifetime Droplet.alive Droplet.sedimentDistribution].
  rewrite flat4_gradient. cbn [fst snd].
  set (v := _calculateViscosity _ _ _).
  replace (0 * inertia (params s) * v - 0 * (1 - inertia (params s)) * es) with (0 : Qc) by ring.
  set (len := Math_sqrt M (0 * 0 + 0 * 0)).
  assert (E : (if eqb len 0 then (0 : Qc) else 0 / len) = 0)
    by (destruct (eqb len 0); [reflexivity | unfold Qcdiv; ring]).
  rewrite E.
  replace (Z2Qc 2 + 0 * es) with (Z2Qc 2) by ring.
  reflexivity.
Qed.

Lemma outOfBounds_flat (s : ErosionSimulator) (p : Params) (sd : option Distribution) :
  width s = 4%Z -> height s = 4%Z -> outOfBounds s (freshAt22 p sd) = false.
Proof.
  intros Hw Hh. unfold outOfBounds. rewrite Hw, Hh. reflexivity.
Qed.

Lemma flatCapacity_zero (M : MathEnv) (p : Params) (sd : option Distribution) :
  sedimentCapacityFactor p = 0 -> flatCapacity M p sd = 0 /\ flatErosion M p sd = 0.
Proof.
  intros Hz.
  assert (E : flatCapacity M p sd = 0).
  { unfold flatCapacity. cbv zeta.
    rewrite baseCapacity_zero by exact Hz. rewrite sizeAdjustedCapacity_zero.
    destruct (useFlowAccumulation p); [ring | reflexivity]. }
  split; [exact E |]. unfold flatErosion. rewrite E.
  replace (0 * depositionRate p * Math_pow M (erosionScale M 4 4) (frac 3 2)) with (0 : Qc)
    by ring.
  reflexivity.
Qed.

Lemma subStep_flat (M : MathEnv) (s : ErosionSimulator) (sd : option Distribution) :
  width s = 4%Z -> height s = 4%Z -> heightMap s = flat4 ->
  (useFlowAccumulation (params s) = true -> flowMap s = Some (zeros 16)) ->
  0 <= flatCapacity M (params s) sd ->
  flatErosion M (params s) sd <= 0 ->
  exists s',
    subStep M (erosionScale M 4 4) (s, freshAt22 (params s) sd)
    = Normal (s', afterFlatPass M (params s) sd)
    /\ heightMap s' = flat4 /\ params s' = params s /\ slopeMap s' = slopeMap s
    /\ width s' = 4%Z /\ height s' = 4%Z /\ randomCalls s' = randomCalls s.
Proof.
  intros Hw Hh Hm Hflow Hcap Hero. unfold subStep.
  rewrite moveDroplet_flat by assumption.
  rewrite outOfBounds_flat by assumption.
  rewrite Hw, Hh, Hm.
  cbn [freshAt22 Droplet.x Droplet.y Droplet.dx Droplet.dy Droplet.speed Droplet.water
       Droplet.sediment Droplet.lifetime Droplet.alive Droplet.sedimentDistribution with_speed].
  rewrite flat4_sample, Math_floor_Z.
  replace (1 - 1) with (0 : Qc) by ring.
  match goal with
  | |- context [Math_max 0 ?a] =>
      replace a with (initialSpeed (params s) * initialSpeed (params s)) by ring
  end.
  fold (flatSpeed M (params s)).
  set (d2 := with_speed _ _).
  set (cap0 := sizeAdjustedCapacity (params s) sd
                 (baseCapacity M (params s) (erosionScale M 4 4) 0 (flatSpeed M (params s))
                    (initialVolume (params s)))).
  assert (Hd2 : Droplet.sediment d2 = 0) by reflexivity.
  assert (Hf : exists s1,
             flowAccumulation (erosionScale M 4 4) s d2 cap0
             = inr (s1, flatCapacity M (params s) sd)
             /\ heightMap s1 = flat4 /\ params s1 = params s /\ slopeMap s1 = slopeMap s
             /\ width s1 = 4%Z /\ height s1 = 4%Z /\ randomCalls s1 = randomCalls s).
  { unfold flowAccumulation, flatCapacity. cbv zeta. fold cap0.
    destruct (useFlowAccumulation (params s)) eqn:Ef.
    - rewrite (Hflow eq_refl), Hw.
      cbn [d2 with_speed freshAt22 Droplet.x Droplet.y Droplet.water Droplet.speed].
      rewrite Math_floor_Z.
      change (2 * 4 + 2)%Z with 10%Z.
      match goal with
      | |- context [get (set (zeros 16) 10 ?v) 10] =>
          change (get (set (zeros 16) 10 v) 10) with v
      end.
      change (get (zeros 16) 10) with (0 : Qc).
      eexists. split.
      { apply f_equal. apply f_equal2; [reflexivity |].
        match goal with
        | |- cap0 * (1 + (0 + ?a) / ?b * ?e) = _ => replace (0 + a) with a by ring
        end.
        reflexivity. }
      repeat split; assumption.
    - exists s. repeat split; assumption. }
  destruct Hf as (s1 & Ef & Hm1 & Hp1 & Hs1 & Hw1 & Hh1 & Hr1). rewrite Ef.
  exists s1. split; [| repeat split; assumption].
  unfold erodeOrDeposit. rewrite Hd2, Hp1.
  assert (G1 : gtb 0 (flatCapacity M (params s) sd) = false)
    by (unfold gtb; apply ltb_ge; exact Hcap).
  rewrite G1.
  replace (flatCapacity M (params s) sd - 0) with (flatCapacity M (params s) sd) by ring.
  fold (flatErosion M (params s) sd).
  assert (G2 : gtb (flatErosion M (params s) sd) 0 = false)
    by (unfold gtb; apply ltb_ge; exact Hero).
  rewrite G2. cbn [bind fst snd].
  reflexivity.
Qed.

(** What the constructor leaves behind when the grid has a size: the maps
    of the flags that are set, except that [microDetailMap] follows
    [useMultiScale], not [useMicroDetails]. *)
Lemma construct_ok (M : MathEnv) (w h : Z) (hm : list Qc) (ov : Overlay) (c : nat) :
  (0 <= w * h)%Z ->
  exists s,
    construct M w h hm ov c = Normal s
    /\ width s = w /\ height s = h /\ heightMap s = hm
    /\ params s = Object_assign (scaledParams M w h) ov
    /\ flowMap s = (if useFlowAccumulation (params s) then Some (zeros (w * h)) else None)
    /\ microDetailMap s = (if useMultiScale (params s) then Some (zeros (w * h)) else None)
    /\ (useMicroDetails (params s) = true -> is_Some (microDetailNoise s))
    /\ (useTalusFormation (params s) = true -> is_Some (slopeMap s) /\ is_Some (talusMap s))
    /\ droplets s = None /\ randomCalls s = c.
Proof.
  intros Hn. unfold construct, allocateMaps.
  cbn [params width height].
  destruct (Z.ltb_spec (w * h) 0) as [Hneg | _]; [lia |].
  generalize (Object_assign (scaledParams M w h) ov). intros p.
  destruct (useFlowAccumulation p) eqn:E1, (useMultiScale p) eqn:E2,
    (useMicroDetails p) eqn:E3, (useTalusFormation p) eqn:E4;
    cbn; eexists; (split; [reflexivity |]); cbn; rewrite ?E1, ?E2, ?E3, ?E4;
    repeat split; try reflexivity; try discriminate; eauto.
Qed.

Lemma refreshSlopeMap_ok (M : MathEnv) (s : ErosionSimulator) :
  (useTalusFormation (params s) = true -> is_Some (slopeMap s)) ->
  exists s', refreshSlopeMap M s = Normal s'
             /\ heightMap s' = heightMap s /\ droplets s' = droplets s.
Proof.
  intros Hs. unfold refreshSlopeMap.
  destruct (useTalusFormation (params s)); [| exists s; repeat split].
  destruct (Hs eq_refl) as [sm Esm].
  destruct (ltb _ _); [| eexists; repeat split].
  cbn [slopeMap with_randomCalls]. rewrite Esm. eexists. repeat split.
Qed.



(** ** Leaving the margin (C4) *)

(** The part of C4 that holds: a pass whose move leaves the margin kills the
    droplet, keeps the moved position and does nothing else. *)
Lemma subStep_out_of_bounds (M : MathEnv) (es : Qc) (s : ErosionSimulator) (d : Droplet.t) :
  outOfBounds s (moveDroplet M es s d) = true ->
  subStep M es (s, d) = Normal (s, kill (moveDroplet M es s d)).
Proof. intros H. unfold subStep. rewrite H. reflexivity. Qed.

(** C4 fails on the code: [continue] ends the pass, not the loop.  On the
    edge engine the droplet starts at (597.5, 300.5) and its first pass
    carries it to x = 598.59..., beyond width - 2 = 598: it is killed and the
    engine is untouched.  The loop then makes its second pass on the dead
    droplet: the negative viscosity factor turns it round, it comes back
    inside the margin, and the pass erodes the cells (598, 300) and
    (599, 300) and adds to the flow map.  When stepDroplets(1) returns, the
    droplet is dead and the height field has changed. *)
Theorem dead_droplet_erodes_in_second_pass :
  let M := edgeMath in
  let s := edgeEngine in
  let d := edgeDroplet in
  let es := erosionScale M (width s) (height s) in
  let d1 := moveDroplet M es s d in
  let s' := stateOf (stepDroplets M 1 s) in
  droplets s = Some [d]
  /\ Droplet.x d = frac 1195 2 /\ Droplet.alive d = true
  /\ outOfBounds s d1 = true
  /\ subStep M es (s, d) = Normal (s, kill d1)
  /\ Z2Qc (width s - 2) < Droplet.x (kill d1)
  /\ fst (subSteps M s d) = 2%Z
  /\ anyAlive s' = false
  /\ get (heightMap s') (toIndex 600 598 300) < get (heightMap s) (toIndex 600 598 300)
  /\ get (heightMap s') (toIndex 600 599 300) < get (heightMap s) (toIndex 600 599 300)
  /\ heightMap s' <> heightMap s.
Proof.
  cbv zeta.
  assert (Hout : outOfBounds edgeEngine
                   (moveDroplet edgeMath (erosionScale edgeMath (width edgeEngine)
                                            (height edgeEngine)) edgeEngine edgeDroplet) = true)
    by (vm_compute; reflexivity).
  assert (H598 : get (heightMap (stateOf (stepDroplets edgeMath 1 edgeEngine))) (toIndex 600 598 300)
                 < get (heightMap edgeEngine) (toIndex 600 598 300))
    by (unfold Qclt; vm_compute; reflexivity).
  split; [vm_compute; reflexivity |].
  split; [apply Qc_is_canon; vm_compute; reflexivity |].
  split; [vm_compute; reflexivity |].
  split; [exact Hout |].
  split; [apply subStep_out_of_bounds, Hout |].
  split; [unfold Qclt; vm_compute; reflexivity |].
  split; [vm_compute; reflexivity |].
  split; [vm_compute; reflexivity |].
  split; [exact H598 |].
  split; [unfold Qclt; vm_compute; reflexivity |].
  intros E. rewrite E in H598. revert H598. unfold Qclt.
  generalize (this (get (heightMap edgeEngine) (toIndex 600 598 300))). intros q H.
  apply (Qlt_irrefl q). exact H.
Qed.

(** ** The micro-detail map (C10) *)

(** The constructor allocates [microDetailMap] under [useMultiScale]; the
    step writes it under [useMicroDetails]. *)
Lemma microDetailMap_follows_useMultiScale (M : MathEnv) (w h : Z) (hm : list Qc)
    (ov : Overlay) (c : nat) (s : ErosionSimulator) :
  construct M w h hm ov c = Normal s ->
  useMultiScale (params s) = false ->
  microDetailMap s = None.
Proof.
  unfold construct, allocateMaps. cbn [params width height].
  generalize (Object_assign (scaledParams M w h) ov). intros p.
  destruct (useFlowAccumulation p) eqn:E1, (useMultiScale p) eqn:E2,
    (useMicroDetails p) eqn:E3, (useTalusFormation p) eqn:E4,
    (w * h <? 0)%Z; cbn; intros H; inversion H; subst s; cbn; rewrite ?E2;
    try discriminate; reflexivity.
Qed.

(** C10 fails on the code.  With useMultiScale off and useMicroDetails on
    (all else default), the engine built on the flat 4 x 4 field has a
    micro-detail noise map and no micro-detail map; its droplet at (2, 2)
    erodes, and the step ends in a TypeError at the write into the missing
    map, which the worker reports as an error message. *)
Theorem step_throws_on_missing_microDetailMap :
  let s := initialized halfMath 4 4 flat4 microOnlyOverlay 1 in
  fst (onmessage halfMath None (Init 4 4 flat4 microOnlyOverlay 1)) = Some s
  /\ useMultiScale (params s) = false
  /\ useMicroDetails (params s) = true
  /\ is_Some (microDetailNoise s)
  /\ microDetailMap s = None
  /\ (exists s', stepDroplets halfMath 1 s = Throw TypeError s')
  /\ snd (onmessage halfMath (Some s) (Step 1)) = [Error (MessageOf TypeError)].
Proof.
  cbv zeta.
  split; [vm_compute; reflexivity |].
  split; [vm_compute; reflexivity |].
  split; [vm_compute; reflexivity |].
  split; [vm_compute; eexists; reflexivity |].
  split; [vm_compute; reflexivity |].
  split; [vm_compute; eexists; reflexivity |].
  vm_compute. reflexivity.
Qed.

(** ** The worker before a successful init (C9) *)

Lemma Array__negative : Array_ (- (1)) = None.
Proof. reflexivity. Qed.

(** C9. On a worker that holds no simulator the claim is what the code
    does: a step is answered by the one error message "Simulator not
    initialized", [stepDroplets] is not run and [simulator] stays null.
    The code breaks the claim after an init that failed on its droplet
    count: for init(4, 4, flat field, default parameters, -1 droplets) the
    constructor returns and [simulator] is assigned, then [Array(-1)]
    throws [RangeError] and the init is reported as failed; the worker is
    left with an engine without a pool, a step passes the test of
    [simulator], runs [stepDroplets], which throws [TypeError] on the
    missing pool, and the answer carries the message of that exception,
    not "Simulator not initialized". *)
Theorem step_after_failed_init_runs_stepDroplets (M : MathEnv) (batchSize : Z) :
  (let '(simulator', out) := onmessage M None (Step batchSize) in
   out = [Error (Literal "Simulator not initialized")]
   /\ (exists r text, out = [r] /\ literalOf r = Some text
         /\ String.index 0 "not initialized" text = Some 10%nat)
   /\ existsb isStepOutput out = false
   /\ simulator' = None)
  /\ (let '(simulator1, out1) := onmessage M None (Init 4 4 flat4 noOverlay (- (1))) in
      out1 = [InitFailed (MessageOf RangeError)]
      /\ (exists s, simulator1 = Some s /\ droplets s = None
                    /\ stepDroplets M batchSize s = Throw TypeError s)
      /\ snd (onmessage M simulator1 (Step batchSize)) = [Error (MessageOf TypeError)]
      /\ snd (onmessage M simulator1 (Step batchSize)) <> [notInitialized]).
Proof.
  split.
  - cbn [onmessage]. unfold notInitialized.
    split; [reflexivity |].
    split; [exists (Error (Literal "Simulator not initialized")),
              "Simulator not initialized"%string; repeat split |].
    split; reflexivity.
  - destruct (construct_ok M 4 4 flat4 noOverlay 0 ltac:(lia))
      as (s & Hs & _ & _ & _ & _ & _ & _ & _ & _ & Hd & _).
    cbn [onmessage callsOf]. rewrite Hs, Array__negative.
    assert (Hstep : stepDroplets M batchSize s = Throw TypeError s)
      by (unfold stepDroplets; rewrite Hd; reflexivity).
    split; [reflexivity |].
    split; [exists s; repeat split; assumption |].
    cbn [onmessage]. rewrite Hstep. cbn [snd].
    split; [reflexivity | discriminate].
Qed.
(** ** Sampling and writing the height field *)

Lemma Z2Qc_plus (a b : Z) : Z2Qc (a + b) = Z2Qc a + Z2Qc b.
Proof.
  apply Qc_is_canon. unfold Z2Qc. cbn [this Q2Qc Qcplus]. rewrite !Qred_correct.
  rewrite inject_Z_plus. reflexivity.
Qed.

Lemma Z2Qc_le (a b : Z) : (a <= b)%Z <-> Z2Qc a <= Z2Qc b.
Proof.
  unfold Z2Qc, Qcle. cbn [this Q2Qc]. rewrite !Qred_correct. rewrite <- Zle_Qle. reflexivity.
Qed.

Lemma Z2Qc_lt (a b : Z) : (a < b)%Z <-> Z2Qc a < Z2Qc b.
Proof.
  unfold Z2Qc, Qclt. cbn [this Q2Qc]. rewrite !Qred_correct. rewrite <- Zlt_Qlt. reflexivity.
Qed.

Lemma Qcle_lt_trans' (a b c : Qc) : a <= b -> b < c -> a < c.
Proof. intros H1 H2. qc2q. lra. Qed.

(** Integer bounds of x are bounds of [Math.floor x]. *)
Lemma Math_floor_bounds (x : Qc) (lo hi : Z) :
  Z2Qc lo <= x -> x < Z2Qc hi -> (lo <= Math_floor x < hi)%Z.
Proof.
  intros Hlo Hhi.
  pose proof (Math_floor_le x) as H1. pose proof (Math_floor_lt x) as H2.
  assert (A : Z2Qc lo < Z2Qc (Math_floor x + 1)).
  { rewrite Z2Qc_plus. change (Z2Qc 1) with 1. qc2q. lra. }
  assert (B : Z2Qc (Math_floor x) < Z2Qc hi) by (qc2q; lra).
  apply Z2Qc_lt in A. apply Z2Qc_lt in B. lia.
Qed.

Lemma get_lookup (a : list Qc) (i : Z) :
  (0 <= i < Z.of_nat (length a))%Z -> a !! Z.to_nat i = Some (get a i).
Proof.
  intros Hi. unfold get.
  destruct (Z.ltb_spec i 0) as [Hneg | _]; [lia |].
  destruct (lookup_lt_is_Some_2 a (Z.to_nat i) ltac:(lia)) as [v E].
  rewrite E. reflexivity.
Qed.

Lemma get_Forall (P : Qc -> Prop) (a : list Qc) (i : Z) :
  Forall P a -> (0 <= i < Z.of_nat (length a))%Z -> P (get a i).
Proof.
  intros Ha Hi. eapply Forall_lookup_1; [exact Ha | apply get_lookup, Hi].
Qed.

(** The four corners of an in-grid cell are cells of the array. *)
Lemma corners_in_range (width height x y : Z) :
  (0 <= x < width - 1)%Z -> (0 <= y < height - 1)%Z ->
  (0 <= toIndex width x y < width * height)%Z
  /\ (0 <= toIndex width (x + 1) y < width * height)%Z
  /\ (0 <= toIndex width x (y + 1) < width * height)%Z
  /\ (0 <= toIndex width (x + 1) (y + 1) < width * height)%Z.
Proof. intros Hx Hy. unfold toIndex. repeat split; nia. Qed.

(** Inside the grid the sample is the weighted mean of the four corners of
    the cell under (x, y). *)
Lemma _bilinearInterp_inside (width height : Z) (heightMap : list Qc) (x y : Qc) :
  0 <= x -> x < Z2Qc (width - 1) -> 0 <= y -> y < Z2Qc (height - 1) ->
  let cellX := Math_floor x in
  let cellY := Math_floor y in
  let offX := x - Z2Qc cellX in
  let offY := y - Z2Qc cellY in
  (0 <= cellX < width - 1)%Z /\ (0 <= cellY < height - 1)%Z
  /\ 0 <= offX /\ offX <= 1 /\ 0 <= offY /\ offY <= 1
  /\ _bilinearInterp width height heightMap x y =
       get heightMap (toIndex width cellX cellY) * (1 - offX) * (1 - offY)
       + get heightMap (toIndex width (cellX + 1) cellY) * offX * (1 - offY)
       + get heightMap (toIndex width cellX (cellY + 1)) * (1 - offX) * offY
       + get heightMap (toIndex width (cellX + 1) (cellY + 1)) * offX * offY.
Proof.
  intros Hx0 Hx1 Hy0 Hy1. cbv zeta.
  pose proof (Math_floor_bounds x 0 (width - 1) Hx0 Hx1) as Hcx.
  pose proof (Math_floor_bounds y 0 (height - 1) Hy0 Hy1) as Hcy.
  pose proof (fraction_unit x) as [Hox0 Hox1].
  pose proof (fraction_unit y) as [Hoy0 Hoy1].
  repeat (split; [first [assumption | lia] |]).
  unfold _bilinearInterp.
  replace ((Math_floor x <? 0)%Z || (Math_floor y <? 0)%Z
           || (Math_floor x >=? width - 1)%Z || (Math_floor y >=? height - 1)%Z)
    with false by (symmetry; repeat (apply orb_false_intro); lia).
  reflexivity.
Qed.

Lemma Qcle_trans' (a b c : Qc) : a <= b -> b <= c -> a <= c.
Proof. intros H1 H2. qc2q. lra. Qed.

Lemma Qcle_refl' (a : Qc) : a <= a.
Proof. qc2q. lra. Qed.

Lemma bilinear_nonneg_Q (h00 h10 h01 h11 ox oy : Q) :
  (0 <= ox -> ox <= 1 -> 0 <= oy -> oy <= 1 ->
   0 <= h00 -> 0 <= h10 -> 0 <= h01 -> 0 <= h11 ->
   0 <= h00 * (1 - ox) * (1 - oy) + h10 * ox * (1 - oy) + h01 * (1 - ox) * oy
        + h11 * ox * oy)%Q.
Proof.
  intros.
  assert (W00 : (0 <= h00 * (1 - ox))%Q) by (apply Qmult_le_0_compat; lra).
  assert (W10 : (0 <= h10 * ox)%Q) by (apply Qmult_le_0_compat; lra).
  assert (W01 : (0 <= h01 * (1 - ox))%Q) by (apply Qmult_le_0_compat; lra).
  assert (W11 : (0 <= h11 * ox)%Q) by (apply Qmult_le_0_compat; lra).
  assert (0 <= h00 * (1 - ox) * (1 - oy))%Q by (apply Qmult_le_0_compat; lra).
  assert (0 <= h10 * ox * (1 - oy))%Q by (apply Qmult_le_0_compat; lra).
  assert (0 <= h01 * (1 - ox) * oy)%Q by (apply Qmult_le_0_compat; lra).
  assert (0 <= h11 * ox * oy)%Q by (apply Qmult_le_0_compat; lra).
  lra.
Qed.

(** A sum with the bilinear weights of four values that are not negative
    is not negative. *)
Lemma bilinear_nonneg (h00 h10 h01 h11 ox oy : Qc) :
  0 <= ox -> ox <= 1 -> 0 <= oy -> oy <= 1 ->
  0 <= h00 -> 0 <= h10 -> 0 <= h01 -> 0 <= h11 ->
  0 <= h00 * (1 - ox) * (1 - oy) + h10 * ox * (1 - oy) + h01 * (1 - ox) * oy + h11 * ox * oy.
Proof.
  intros. qc2q.
  exact (bilinear_nonneg_Q (this h00) (this h10) (this h01) (this h11) (this ox) (this oy)
           ltac:(assumption) ltac:(assumption) ltac:(assumption) ltac:(assumption)
           ltac:(assumption) ltac:(assumption) ltac:(assumption) ltac:(assumption)).
Qed.

(** X1. On a width x height map without negative cells, _bilinearInterp
    never returns a negative value, at whatever point it samples: inside
    the grid every term of the sum is a product of a cell and of weights
    that are not negative, and elsewhere the guard returns 0. *)
Theorem _bilinearInterp_never_negative (width height : Z) (heightMap : list Qc) (x y : Qc) :
  Z.of_nat (length heightMap) = (width * height)%Z ->
  noNegativeCell heightMap ->
  0 <= _bilinearInterp width height heightMap x y.
Proof.
  intros Hlen Hall. unfold _bilinearInterp.
  destruct ((Math_floor x <? 0)%Z || (Math_floor y <? 0)%Z
            || (Math_floor x >=? width - 1)%Z || (Math_floor y >=? height - 1)%Z) eqn:G;
    [apply Qcle_0_0 |].
  apply orb_false_elim in G as [G G4]. apply orb_false_elim in G as [G G3].
  apply orb_false_elim in G as [G1 G2].
  assert (Hcx : (0 <= Math_floor x < width - 1)%Z) by lia.
  assert (Hcy : (0 <= Math_floor y < height - 1)%Z) by lia.
  destruct (corners_in_range width height _ _ Hcx Hcy) as (I00 & I10 & I01 & I11).
  rewrite <- Hlen in I00, I10, I01, I11.
  pose proof (fraction_unit x) as [Hox0 Hox1].
  pose proof (fraction_unit y) as [Hoy0 Hoy1].
  exact (bilinear_nonneg _ _ _ _ _ _ Hox0 Hox1 Hoy0 Hoy1
           (get_Forall _ _ _ Hall I00) (get_Forall _ _ _ Hall I10)
           (get_Forall _ _ _ Hall I01) (get_Forall _ _ _ Hall I11)).
Qed.

Lemma _bilinearInterp_never_negative_witness :
  0 <= _bilinearInterp 3 3 (map Z2Qc [1; 2; 3; 4; 0; 6; 7; 8; 9]%Z) (frac 1 2) (frac 3 2)
  /\ 0 <= _bilinearInterp 3 3 (map Z2Qc [1; 2; 3; 4; 0; 6; 7; 8; 9]%Z) (frac 5 2) (- (1)).
Proof.
  split.
  - apply (_bilinearInterp_never_negative 3 3 (map Z2Qc [1; 2; 3; 4; 0; 6; 7; 8; 9]%Z)
             (frac 1 2) (frac 3 2));
      [reflexivity | repeat constructor; qcompute].
  - apply (_bilinearInterp_never_negative 3 3 (map Z2Qc [1; 2; 3; 4; 0; 6; 7; 8; 9]%Z)
             (frac 5 2) (- (1)));
      [reflexivity | repeat constructor; qcompute].
Defined.

Lemma _bilinearInterp_plane (width height : Z) (a b c : Qc) (heightMap : list Qc) (x y : Qc) :
  planeField width height a b c heightMap ->
  0 <= x -> x < Z2Qc (width - 1) -> 0 <= y -> y < Z2Qc (height - 1) ->
  _bilinearInterp width height heightMap x y = a * x + b * y + c.
Proof.
  intros [_ Hp] Hx0 Hx1 Hy0 Hy1.
  destruct (_bilinearInterp_inside width height heightMap x y Hx0 Hx1 Hy0 Hy1)
    as (Hcx & Hcy & _ & _ & _ & _ & ->).
  rewrite !Hp by lia. rewrite !Z2Qc_plus. change (Z2Qc 1) with 1. ring.
Qed.

(** X3. On a height map that is the plane a*x + b*y + c, _calcGradient returns
    exactly (a, b) at every point with 1 <= x < width - 2 and 1 <= y <
    height - 2 (numbers being exact rationals, as in the whole model). *)
Theorem _calcGradient_plane (width height : Z) (a b c : Qc) (heightMap : list Qc) (x y : Qc) :
  planeField width height a b c heightMap ->
  1 <= x -> x < Z2Qc (width - 2) -> 1 <= y -> y < Z2Qc (height - 2) ->
  _calcGradient width height heightMap x y = (a, b).
Proof.
  intros Hp Hx0 Hx1 Hy0 Hy1.
  pose proof (Math_floor_bounds x 1 (width - 2) Hx0 Hx1) as Hcx.
  pose proof (Math_floor_bounds y 1 (height - 2) Hy0 Hy1) as Hcy.
  unfold _calcGradient.
  replace ((Math_floor x <? 1)%Z || (Math_floor y <? 1)%Z
           || (Math_floor x >=? width - 2)%Z || (Math_floor y >=? height - 2)%Z)
    with false by (symmetry; repeat (apply orb_false_intro); lia).
  cbv zeta.
  assert (W : Z2Qc (width - 1) = Z2Qc (width - 2) + 1)
    by (replace (width - 1)%Z with (width - 2 + 1)%Z by lia; exact (Z2Qc_plus (width - 2) 1)).
  assert (H : Z2Qc (height - 1) = Z2Qc (height - 2) + 1)
    by (replace (height - 1)%Z with (height - 2 + 1)%Z by lia; exact (Z2Qc_plus (height - 2) 1)).
  rewrite !(_bilinearInterp_plane width height a b c) by
    (first [exact Hp | rewrite ?W, ?H; qc2q; lra]).
  f_equal; apply Qc_is_canon; unfold frac; qc2q;
    rewrite ?Qred_correct; cbn [this Qcplus Qcmult Qcminus Qcopp Q2Qc]; rewrite ?Qred_correct;
    field.
Qed.

Lemma _calcGradient_plane_witness :
  _calcGradient 4 4
    (map Z2Qc [3; 4; 5; 6; 5; 6; 7; 8; 7; 8; 9; 10; 9; 10; 11; 12]%Z)
    (frac 3 2) (frac 5 4)
  = (1, Z2Qc 2).
Proof.
  apply (_calcGradient_plane 4 4 1 (Z2Qc 2) (Z2Qc 3)
           (map Z2Qc [3; 4; 5; 6; 5; 6; 7; 8; 7; 8; 9; 10; 9; 10; 11; 12]%Z)
           (frac 3 2) (frac 5 4));
    [| qcompute ..].
  split; [reflexivity |].
  intros x y Hx Hy.
  assert (Ex : x = 0%Z \/ x = 1%Z \/ x = 2%Z \/ x = 3%Z) by lia.
  assert (Ey : y = 0%Z \/ y = 1%Z \/ y = 2%Z \/ y = 3%Z) by lia.
  destruct Ex as [-> | [-> | [-> | ->]]], Ey as [-> | [-> | [-> | ->]]];
    apply Qc_is_canon; vm_compute; reflexivity.
Defined.

Lemma length_set (a : list Qc) (i : Z) (v : Qc) : length (set a i v) = length a.
Proof. unfold set. destruct (i <? 0)%Z; [reflexivity | apply length_insert]. Qed.

Lemma get_set_eq (a : list Qc) (i : Z) (v : Qc) :
  (0 <= i < Z.of_nat (length a))%Z -> get (set a i v) i = v.
Proof.
  intros Hi. unfold get, set.
  destruct (Z.ltb_spec i 0) as [Hneg | _]; [lia |].
  rewrite list_lookup_insert_eq by lia. reflexivity.
Qed.

(** What [_bilinearAdd] leaves in the array, cell by cell, when the cell
    (x, y) is in the grid and the array has its width x height cells. *)
Lemma _bilinearAdd_cells (width height : Z) (a : list Qc) (x y : Z) (offX offY value : Qc) :
  Z.of_nat (length a) = (width * height)%Z ->
  inGrid width height x y = true ->
  let a' := _bilinearAdd width height a x y offX offY value in
  let i00 := toIndex width x y in
  let i10 := toIndex width (x + 1) y in
  let i01 := toIndex width x (y + 1) in
  let i11 := toIndex width (x + 1) (y + 1) in
  let n00 := Math_max 0 (get a i00 + value * ((1 - offX) * (1 - offY))) in
  let n10 := Math_max 0 (get a i10 + value * (offX * (1 - offY))) in
  let n01 := Math_max 0 (get a i01 + value * ((1 - offX) * offY)) in
  let n11 := Math_max 0 (get a i11 + value * (offX * offY)) in
  get a' i00 = n00 /\ get a' i10 = n10 /\ get a' i01 = n01 /\ get a' i11 = n11
  /\ (forall k, k <> i00 -> k <> i10 -> k <> i01 -> k <> i11 -> get a' k = get a k)
  /\ length a' = length a.
Proof.
  intros Hlen Hin. cbv zeta.
  unfold _bilinearAdd. rewrite Hin. cbv zeta.
  unfold inGrid in Hin. apply andb_prop in Hin as [Hin H4]. apply andb_prop in Hin as [Hin H3].
  apply andb_prop in Hin as [H1 H2].
  assert (Hx : (0 <= x < width - 1)%Z) by lia.
  assert (Hy : (0 <= y < height - 1)%Z) by lia.
  destruct (corners_in_range width height x y Hx Hy) as (I00 & I10 & I01 & I11).
  rewrite <- Hlen in I00, I10, I01, I11.
  assert (D1 : toIndex width (x + 1) y <> toIndex width x y) by (unfold toIndex; lia).
  assert (D2 : toIndex width x (y + 1) <> toIndex width x y) by (unfold toIndex; nia).
  assert (D3 : toIndex width (x + 1) (y + 1) <> toIndex width x y) by (unfold toIndex; nia).
  assert (D4 : toIndex width x (y + 1) <> toIndex width (x + 1) y) by (unfold toIndex; nia).
  assert (D5 : toIndex width (x + 1) (y + 1) <> toIndex width (x + 1) y)
    by (unfold toIndex; nia).
  assert (D6 : toIndex width (x + 1) (y + 1) <> toIndex width x (y + 1))
    by (unfold toIndex; lia).
  set (i00 := toIndex width x y) in *. set (i10 := toIndex width (x + 1) y) in *.
  set (i01 := toIndex width x (y + 1)) in *. set (i11 := toIndex width (x + 1) (y + 1)) in *.
  clearbody i00 i10 i01 i11.
  set (m1 := set a i00 (get a i00 + value * ((1 - offX) * (1 - offY)))).
  assert (L1 : length m1 = length a) by apply length_set.
  assert (G1 : forall k, k <> i00 -> get m1 k = get a k) by (intros; apply get_set_ne; assumption).
  assert (E1 : get m1 i00 = get a i00 + value * ((1 - offX) * (1 - offY)))
    by (apply get_set_eq; assumption).
  clearbody m1.
  set (m2 := set m1 i10 (get m1 i10 + value * (offX * (1 - offY)))).
  assert (L2 : length m2 = length m1) by apply length_set.
  assert (G2 : forall k, k <> i10 -> get m2 k = get m1 k) by (intros; apply get_set_ne; assumption).
  assert (E2 : get m2 i10 = get m1 i10 + value * (offX * (1 - offY)))
    by (apply get_set_eq; rewrite L1; assumption).
  clearbody m2.
  set (m3 := set m2 i01 (get m2 i01 + value * ((1 - offX) * offY))).
  assert (L3 : length m3 = length m2) by apply length_set.
  assert (G3 : forall k, k <> i01 -> get m3 k = get m2 k) by (intros; apply get_set_ne; assumption).
  assert (E3 : get m3 i01 = get m2 i01 + value * ((1 - offX) * offY))
    by (apply get_set_eq; rewrite L2, L1; assumption).
  clearbody m3.
  set (m4 := set m3 i11 (get m3 i11 + value * (offX * offY))).
  assert (L4 : length m4 = length m3) by apply length_set.
  assert (G4 : forall k, k <> i11 -> get m4 k = get m3 k) by (intros; apply get_set_ne; assumption).
  assert (E4 : get m4 i11 = get m3 i11 + value * (offX * offY))
    by (apply get_set_eq; rewrite L3, L2, L1; assumption).
  clearbody m4.
  set (m5 := set m4 i00 (Math_max 0 (get m4 i00))).
  assert (L5 : length m5 = length m4) by apply length_set.
  assert (G5 : forall k, k <> i00 -> get m5 k = get m4 k) by (intros; apply get_set_ne; assumption).
  assert (E5 : get m5 i00 = Math_max 0 (get m4 i00))
    by (apply get_set_eq; rewrite L4, L3, L2, L1; assumption).
  clearbody m5.
  set (m6 := set m5 i10 (Math_max 0 (get m5 i10))).
  assert (L6 : length m6 = length m5) by apply length_set.
  assert (G6 : forall k, k <> i10 -> get m6 k = get m5 k) by (intros; apply get_set_ne; assumption).
  assert (E6 : get m6 i10 = Math_max 0 (get m5 i10))
    by (apply get_set_eq; rewrite L5, L4, L3, L2, L1; assumption).
  clearbody m6.
  set (m7 := set m6 i01 (Math_max 0 (get m6 i01))).
  assert (L7 : length m7 = length m6) by apply length_set.
  assert (G7 : forall k, k <> i01 -> get m7 k = get m6 k) by (intros; apply get_set_ne; assumption).
  assert (E7 : get m7 i01 = Math_max 0 (get m6 i01))
    by (apply get_set_eq; rewrite L6, L5, L4, L3, L2, L1; assumption).
  clearbody m7.
  set (m8 := set m7 i11 (Math_max 0 (get m7 i11))).
  assert (L8 : length m8 = length m7) by apply length_set.
  assert (G8 : forall k, k <> i11 -> get m8 k = get m7 k) by (intros; apply get_set_ne; assumption).
  assert (E8 : get m8 i11 = Math_max 0 (get m7 i11))
    by (apply get_set_eq; rewrite L7, L6, L5, L4, L3, L2, L1; assumption).
  clearbody m8.
  assert (C00 : get m4 i00 = get a i00 + value * ((1 - offX) * (1 - offY))).
  { rewrite G4, G3, G2 by auto. exact E1. }
  assert (C10 : get m5 i10 = get a i10 + value * (offX * (1 - offY))).
  { rewrite G5, G4, G3 by auto. rewrite E2, G1 by auto. reflexivity. }
  assert (C01 : get m6 i01 = get a i01 + value * ((1 - offX) * offY)).
  { rewrite G6, G5, G4 by auto. rewrite E3, G2, G1 by auto. reflexivity. }
  assert (C11 : get m7 i11 = get a i11 + value * (offX * offY)).
  { rewrite G7, G6, G5 by auto. rewrite E4, G3, G2, G1 by auto. reflexivity. }
  rewrite C00 in *. rewrite C10 in *. rewrite C01 in *. rewrite C11 in *.
  split; [rewrite G8, G7, G6 by auto; exact E5 |].
  split; [rewrite G8, G7 by auto; exact E6 |].
  split; [rewrite G8 by auto; exact E7 |].
  split; [exact E8 |].
  split.
  { intros k K00 K10 K01 K11.
    rewrite G8, G7, G6, G5, G4, G3, G2, G1 by assumption. reflexivity. }
  congruence.
Qed.

Lemma Math_max_0_ge (t : Qc) : t <= Math_max 0 t.
Proof.
  unfold Math_max. destruct (ltb 0 t) eqn:E; [apply Qcle_refl' |].
  apply ltb_ge in E. exact E.
Qed.

Lemma Math_max_0_le (t u : Qc) : 0 <= u -> t <= u -> Math_max 0 t <= u.
Proof.
  intros Hu Ht. unfold Math_max. destruct (ltb 0 t); assumption.
Qed.

Lemma weight_nonneg (p q : Qc) : 0 <= p -> 0 <= q -> 0 <= p * q.
Proof. intros Hp Hq. qc2q. apply Qmult_le_0_compat; assumption. Qed.

Lemma weight_nonpos (v w : Qc) : v <= 0 -> 0 <= w -> v * w <= 0.
Proof.
  intros Hv Hw. qc2q.
  assert (H : (0 <= (- this v) * this w)%Q) by (apply Qmult_le_0_compat; lra).
  lra.
Qed.

Lemma complement_nonneg (p : Qc) : p <= 1 -> 0 <= 1 - p.
Proof. intros Hp. qc2q. lra. Qed.

(** A cell after an addition of t and the clamp to zero. *)
Lemma raised_cell (c t : Qc) : 0 <= t -> c <= Math_max 0 (c + t).
Proof.
  intros Ht. apply (Qcle_trans' c (c + t)); [qc2q; lra | apply Math_max_0_ge].
Qed.

Lemma lowered_cell (c t : Qc) :
  0 <= c -> t <= 0 -> 0 <= Math_max 0 (c + t) /\ Math_max 0 (c + t) <= c.
Proof.
  intros Hc Ht. split; [apply Math_max_lower |].
  apply Math_max_0_le; [exact Hc | qc2q; lra].
Qed.

(** The four weights of [_bilinearAdd] for offsets in [0, 1]. *)
Lemma weights_nonneg (offX offY : Qc) :
  0 <= offX -> offX <= 1 -> 0 <= offY -> offY <= 1 ->
  0 <= (1 - offX) * (1 - offY) /\ 0 <= offX * (1 - offY)
  /\ 0 <= (1 - offX) * offY /\ 0 <= offX * offY.
Proof.
  intros Hx0 Hx1 Hy0 Hy1.
  pose proof (complement_nonneg offX Hx1) as Cx.
  pose proof (complement_nonneg offY Hy1) as Cy.
  repeat split; apply weight_nonneg; assumption.
Qed.

(** X4. A deposit lowers no cell: after _bilinearAdd of a value >= 0 with
    offsets in [0, 1] on a width x height map, every cell holds at least
    what it held before (the four corners of the cell receive their share,
    the clamp to zero can only raise a cell, and the other cells are not
    written). *)
Theorem _bilinearAdd_deposit_lowers_no_cell (width height : Z) (a : list Qc) (x y : Z)
    (offX offY value : Qc) (k : Z) :
  Z.of_nat (length a) = (width * height)%Z ->
  0 <= offX -> offX <= 1 -> 0 <= offY -> offY <= 1 ->
  0 <= value ->
  get a k <= get (_bilinearAdd width height a x y offX offY value) k.
Proof.
  intros Hlen Hx0 Hx1 Hy0 Hy1 Hv.
  destruct (inGrid width height x y) eqn:Hin;
    [| unfold _bilinearAdd; rewrite Hin; apply Qcle_refl'].
  destruct (_bilinearAdd_cells width height a x y offX offY value Hlen Hin)
    as (E00 & E10 & E01 & E11 & Hrest & _).
  destruct (weights_nonneg offX offY Hx0 Hx1 Hy0 Hy1) as (W00 & W10 & W01 & W11).
  destruct (Z.eq_dec k (toIndex width x y)) as [-> | N00];
    [rewrite E00; apply raised_cell, weight_nonneg; assumption |].
  destruct (Z.eq_dec k (toIndex width (x + 1) y)) as [-> | N10];
    [rewrite E10; apply raised_cell, weight_nonneg; assumption |].
  destruct (Z.eq_dec k (toIndex width x (y + 1))) as [-> | N01];
    [rewrite E01; apply raised_cell, weight_nonneg; assumption |].
  destruct (Z.eq_dec k (toIndex width (x + 1) (y + 1))) as [-> | N11];
    [rewrite E11; apply raised_cell, weight_nonneg; assumption |].
  rewrite (Hrest k N00 N10 N01 N11). apply Qcle_refl'.
Qed.

Lemma _bilinearAdd_deposit_lowers_no_cell_witness :
  get (map Z2Qc [1; 2; 3; 4; 5; 6; 7; 8; 9]%Z) 4
  <= get (_bilinearAdd 3 3 (map Z2Qc [1; 2; 3; 4; 5; 6; 7; 8; 9]%Z) 1 1
            (frac 1 4) (frac 1 2) (Z2Qc 2)) 4.
Proof.
  apply (_bilinearAdd_deposit_lowers_no_cell 3 3 (map Z2Qc [1; 2; 3; 4; 5; 6; 7; 8; 9]%Z) 1 1
           (frac 1 4) (frac 1 2) (Z2Qc 2) 4);
    [reflexivity | qcompute ..].
Defined.

(** X5. An erosion raises no cell and leaves none negative: after
    _bilinearAdd of a value <= 0 with offsets in [0, 1] on a width x height
    map without negative cells, every cell holds at most what it held
    before, and at least 0. *)
Theorem _bilinearAdd_erosion_raises_no_cell (width height : Z) (a : list Qc) (x y : Z)
    (offX offY value : Qc) (k : Z) :
  Z.of_nat (length a) = (width * height)%Z ->
  noNegativeCell a ->
  (0 <= k < Z.of_nat (length a))%Z ->
  0 <= offX -> offX <= 1 -> 0 <= offY -> offY <= 1 ->
  value <= 0 ->
  0 <= get (_bilinearAdd width height a x y offX offY value) k
  /\ get (_bilinearAdd width height a x y offX offY value) k <= get a k.
Proof.
  intros Hlen Hall Hk Hx0 Hx1 Hy0 Hy1 Hv.
  pose proof (get_Forall _ _ _ Hall Hk) as Hc.
  destruct (inGrid width height x y) eqn:Hin;
    [| unfold _bilinearAdd; rewrite Hin; split; [exact Hc | apply Qcle_refl']].
  destruct (_bilinearAdd_cells width height a x y offX offY value Hlen Hin)
    as (E00 & E10 & E01 & E11 & Hrest & _).
  destruct (weights_nonneg offX offY Hx0 Hx1 Hy0 Hy1) as (W00 & W10 & W01 & W11).
  destruct (Z.eq_dec k (toIndex width x y)) as [E | N00];
    [rewrite E in *; rewrite E00; apply lowered_cell;
       [exact Hc | apply weight_nonpos; assumption] |].
  destruct (Z.eq_dec k (toIndex width (x + 1) y)) as [E | N10];
    [rewrite E in *; rewrite E10; apply lowered_cell;
       [exact Hc | apply weight_nonpos; assumption] |].
  destruct (Z.eq_dec k (toIndex width x (y + 1))) as [E | N01];
    [rewrite E in *; rewrite E01; apply lowered_cell;
       [exact Hc | apply weight_nonpos; assumption] |].
  destruct (Z.eq_dec k (toIndex width (x + 1) (y + 1))) as [E | N11];
    [rewrite E in *; rewrite E11; apply lowered_cell;
       [exact Hc | apply weight_nonpos; assumption] |].
  rewrite (Hrest k N00 N10 N01 N11). split; [exact Hc | apply Qcle_refl'].
Qed.

Lemma _bilinearAdd_erosion_raises_no_cell_witness :
  let a := map Z2Qc [1; 2; 3; 4; 0; 6; 7; 8; 9]%Z in
  0 <= get (_bilinearAdd 3 3 a 1 1 (frac 1 4) (frac 1 2) (- Z2Qc 2)) 4
  /\ get (_bilinearAdd 3 3 a 1 1 (frac 1 4) (frac 1 2) (- Z2Qc 2)) 4 <= get a 4.
Proof.
  apply (_bilinearAdd_erosion_raises_no_cell 3 3 (map Z2Qc [1; 2; 3; 4; 0; 6; 7; 8; 9]%Z) 1 1
           (frac 1 4) (frac 1 2) (- Z2Qc 2) 4);
    [reflexivity | repeat constructor; qcompute | vm_compute; split; [discriminate | reflexivity]
    | qcompute ..].
Defined.

(** X6. _bilinearAdd keeps the length of the map and changes no cell other
    than the four corners (x, y), (x+1, y), (x, y+1), (x+1, y+1); for a
    cell outside the grid (x or y negative, x >= width - 1 or y >= height
    - 1) it changes nothing at all. *)
Theorem _bilinearAdd_touches_four_cells (width height : Z) (a : list Qc) (x y : Z)
    (offX offY value : Qc) :
  let a' := _bilinearAdd width height a x y offX offY value in
  length a' = length a
  /\ (forall k : Z,
        k <> toIndex width x y -> k <> toIndex width (x + 1) y ->
        k <> toIndex width x (y + 1) -> k <> toIndex width (x + 1) (y + 1) ->
        get a' k = get a k)
  /\ (inGrid width height x y = false -> a' = a).
Proof.
  cbv zeta. unfold _bilinearAdd.
  destruct (inGrid width height x y); cbv zeta.
  - split; [rewrite !length_set; reflexivity |].
    split; [| discriminate].
    intros k K00 K10 K01 K11. rewrite !get_set_ne by assumption. reflexivity.
  - repeat split; reflexivity.
Qed.

(** ** Loops that fill a grid *)

Lemma In_range (lo hi i : Z) : In i (range lo hi) <-> (lo <= i < hi)%Z.
Proof.
  unfold range. rewrite in_map_iff. split.
  - intros (n & <- & Hn). apply in_seq in Hn. lia.
  - intros Hi. exists (Z.to_nat (i - lo)). split; [lia |]. apply in_seq. lia.
Qed.

Lemma fold_left_map' {A B C : Type} (f : A -> C -> A) (g : B -> C) (l : list B) (a : A) :
  fold_left f (map g l) a = fold_left (fun a b => f a (g b)) l a.
Proof. revert a. induction l as [| b l IH]; intros a; cbn; [reflexivity | apply IH]. Qed.

Lemma fold_left_flat_map' {A B C : Type} (f : A -> C -> A) (g : B -> list C)
    (l : list B) (a : A) :
  fold_left f (flat_map g l) a = fold_left (fun a b => fold_left f (g b) a) l a.
Proof.
  revert a. induction l as [| b l IH]; intros a; cbn [flat_map fold_left]; [reflexivity |].
  rewrite fold_left_app. apply IH.
Qed.

(** The cells (x, y) two nested counting loops visit, in order. *)
Lemma nested_loops {A : Type} (f : A -> Z -> Z -> A) (xs ys : list Z) (a : A) :
  fold_left (fun a y => fold_left (fun a x => f a x y) xs a) ys a
  = fold_left (fun a (c : Z * Z) => f a (fst c) (snd c))
              (flat_map (fun y => map (fun x => (x, y)) xs) ys) a.
Proof.
  rewrite fold_left_flat_map'. revert a.
  induction ys as [| y ys IH]; intros a; cbn [fold_left]; [reflexivity |].
  rewrite fold_left_map'. cbn [fst snd]. apply IH.
Qed.

Lemma In_cells (xs ys : list Z) (x y : Z) :
  In (x, y) (flat_map (fun y => map (fun x => (x, y)) xs) ys) <-> In x xs /\ In y ys.
Proof.
  rewrite in_flat_map. split.
  - intros (y' & Hy & Hin). apply in_map_iff in Hin as (x' & E & Hx).
    injection E as <- <-. split; assumption.
  - intros [Hx Hy]. exists y. split; [exact Hy |]. apply in_map_iff. exists x. split; auto.
Qed.

Section WriteLoop.
Context {K : Type} (idx : K -> Z) (val : K -> Qc).

Lemma writes_length (ks : list K) (a : list Qc) :
  length (fold_left (fun a k => set a (idx k) (val k)) ks a) = length a.
Proof.
  revert a. induction ks as [| k ks IH]; intros a; cbn [fold_left]; [reflexivity |].
  rewrite IH. apply length_set.
Qed.

Lemma writes_elsewhere (ks : list K) (a : list Qc) (j : Z) :
  (forall k, In k ks -> idx k <> j) ->
  get (fold_left (fun a k => set a (idx k) (val k)) ks a) j = get a j.
Proof.
  revert a. induction ks as [| k ks IH]; intros a Hks; cbn [fold_left]; [reflexivity |].
  rewrite IH by (intros k' Hk'; apply Hks; right; exact Hk').
  apply get_set_ne. intros E. apply (Hks k); [left; reflexivity | symmetry; exact E].
Qed.

Lemma writes_at (ks : list K) (a : list Qc) (j : Z) (v : Qc) :
  (0 <= j < Z.of_nat (length a))%Z ->
  (forall k, In k ks -> idx k = j -> val k = v) ->
  (exists k, In k ks /\ idx k = j) \/ get a j = v ->
  get (fold_left (fun a k => set a (idx k) (val k)) ks a) j = v.
Proof.
  revert a. induction ks as [| k ks IH]; intros a Hj Hval Hex; cbn [fold_left].
  - destruct Hex as [(k & [] & _) | E]. exact E.
  - apply IH.
    + rewrite length_set. exact Hj.
    + intros k' Hk'. apply Hval. right. exact Hk'.
    + destruct (decide (Exists (fun k' => idx k' = j) ks)) as [Hin | Hout].
      * left. apply Exists_exists in Hin. destruct Hin as (k' & Hk' & E).
        exists k'. split; [apply list_elem_of_In; exact Hk' | exact E].
      * right. destruct (Z.eq_dec (idx k) j) as [E | Hne].
        -- rewrite E, get_set_eq by exact Hj. apply Hval; [left; reflexivity | exact E].
        -- rewrite get_set_ne by (intros E; apply Hne; symmetry; exact E).
           destruct Hex as [(k' & [<- | Hk'] & E) | E]; [contradiction | | exact E].
           exfalso. apply Hout, Exists_exists. exists k'.
           split; [apply list_elem_of_In; exact Hk' | exact E].
Qed.

Lemma writes_Forall (P : Qc -> Prop) (ks : list K) (a : list Qc) :
  Forall P a -> (forall k, In k ks -> P (val k)) ->
  Forall P (fold_left (fun a k => set a (idx k) (val k)) ks a).
Proof.
  revert a. induction ks as [| k ks IH]; intros a Ha Hv; cbn [fold_left]; [exact Ha |].
  apply IH; [| intros k' Hk'; apply Hv; right; exact Hk'].
  unfold set. destruct (idx k <? 0)%Z; [exact Ha |].
  apply Forall_insert; [exact Ha | apply Hv; left; reflexivity].
Qed.
End WriteLoop.

Lemma toIndex_inj (width x y x' y' : Z) :
  (0 <= x < width)%Z -> (0 <= x' < width)%Z ->
  toIndex width x y = toIndex width x' y' -> x = x' /\ y = y'.
Proof. unfold toIndex. intros Hx Hx' E. assert (y = y') by nia. subst. lia. Qed.

Lemma toIndex_range (width height x y : Z) :
  (0 <= x < width)%Z -> (0 <= y < height)%Z -> (0 <= toIndex width x y < width * height)%Z.
Proof. unfold toIndex. intros Hx Hy. nia. Qed.

Lemma _computeSlopeMap_flat (M : MathEnv) (width height : Z) (heightMap slopeMap : list Qc) :
  _computeSlopeMap M width height heightMap slopeMap
  = fold_left (fun a (c : Z * Z) =>
                 set a (toIndex width (fst c) (snd c))
                     (slopeAt M width heightMap (fst c) (snd c)))
              (flat_map (fun y => map (fun x => (x, y)) (range 1 (width - 1)))
                        (range 1 (height - 1)))
              slopeMap.
Proof.
  unfold _computeSlopeMap.
  exact (nested_loops (fun a x y => set a (y * width + x)%Z (slopeAt M width heightMap x y))
           (range 1 (width - 1)) (range 1 (height - 1)) slopeMap).
Qed.

(** X7. On a slope map of width * height cells, _computeSlopeMap writes every
    interior cell (1 <= x < width - 1, 1 <= y < height - 1) with the slope
    angle computed from the central differences of the height map at that
    cell, and leaves the border cells and the length of the slope map as
    they were. *)
Theorem _computeSlopeMap_cells (M : MathEnv) (width height : Z)
    (heightMap slopeMap : list Qc) (x y : Z) :
  Z.of_nat (length slopeMap) = (width * height)%Z ->
  (0 <= x < width)%Z -> (0 <= y < height)%Z ->
  let slopeMap' := _computeSlopeMap M width height heightMap slopeMap in
  length slopeMap' = length slopeMap
  /\ get slopeMap' (toIndex width x y)
     = if interiorCell width height x y
       then slopeAt M width heightMap x y
       else get slopeMap (toIndex width x y).
Proof.
  intros Hlen Hx Hy. cbv zeta. rewrite _computeSlopeMap_flat.
  split; [apply (writes_length (fun c => toIndex width (fst c) (snd c))) |].
  unfold interiorCell.
  destruct ((1 <=? x)%Z && (x <? width - 1)%Z && (1 <=? y)%Z && (y <? height - 1)%Z) eqn:Hint.
  - apply (writes_at (fun c : Z * Z => toIndex width (fst c) (snd c))
                     (fun c => slopeAt M width heightMap (fst c) (snd c))).
    + rewrite Hlen. apply toIndex_range; assumption.
    + intros [x' y'] Hin E. cbn [fst snd] in *.
      apply In_cells in Hin as [Hx' Hy']. apply In_range in Hx'.
      apply toIndex_inj in E as [-> ->]; [reflexivity | lia | lia].
    + left. exists (x, y). split; [| reflexivity].
      apply In_cells. rewrite !In_range. lia.
  - apply (writes_elsewhere (fun c : Z * Z => toIndex width (fst c) (snd c))).
    intros [x' y'] Hin E. cbn [fst snd] in *.
    apply In_cells in Hin as [Hx' Hy']. apply In_range in Hx', Hy'.
    apply toIndex_inj in E as [-> ->]; [| lia | lia].
    apply andb_false_iff in Hint. rewrite !andb_false_iff in Hint. lia.
Qed.

Lemma _computeSlopeMap_cells_witness :
  let hm := map Z2Qc [1; 2; 3; 4; 5; 6; 7; 8; 9]%Z in
  let sm := _computeSlopeMap exampleMath 3 3 hm (zeros 9) in
  length sm = length (zeros 9)
  /\ get sm (toIndex 3 1 1)
     = if interiorCell 3 3 1 1 then slopeAt exampleMath 3 hm 1 1 else get (zeros 9) (toIndex 3 1 1).
Proof.
  apply (_computeSlopeMap_cells exampleMath 3 3 (map Z2Qc [1; 2; 3; 4; 5; 6; 7; 8; 9]%Z)
           (zeros 9) 1 1); [reflexivity | lia | lia].
Defined.

(** The constructor and [reset] allocate the same maps. *)
Lemma allocateMaps_ok (M : MathEnv) (s : ErosionSimulator) :
  (0 <= width s * height s)%Z ->
  let n := (width s * height s)%Z in
  let p := params s in
  allocateMaps M s = Normal
    {| width := width s; height := height s; heightMap := heightMap s; params := p;
       flowMap := if useFlowAccumulation p then Some (zeros n) else flowMap s;
       microDetailMap := if useMultiScale p then Some (zeros n) else microDetailMap s;
       microDetailNoise :=
         if useMicroDetails p
         then Some (_initializeMicroDetailNoise p (width s) (height s) (zeros n))
         else microDetailNoise s;
       talusMap := if useTalusFormation p then Some (zeros n) else talusMap s;
       slopeMap :=
         if useTalusFormation p
         then Some (_computeSlopeMap M (width s) (height s) (heightMap s) (zeros n))
         else slopeMap s;
       droplets := droplets s; dropletsActive := dropletsActive s;
       randomCalls := randomCalls s |}.
Proof.
  intros Hn. cbv zeta. unfold allocateMaps.
  destruct (Z.ltb_spec (width s * height s) 0) as [Hneg | _]; [lia |].
  destruct s as [w h hm p fm mm mn tm sm ds da rc].
  cbn [params width height heightMap flowMap microDetailMap microDetailNoise talusMap
       slopeMap droplets dropletsActive randomCalls] in *.
  destruct (useFlowAccumulation p), (useMultiScale p), (useMicroDetails p),
    (useTalusFormation p); reflexivity.
Qed.

Lemma zeros_length (n : Z) : (0 <= n)%Z -> Z.of_nat (length (zeros n)) = n.
Proof. intros Hn. unfold zeros. rewrite length_replicate. lia. Qed.

Lemma zeros_Forall (P : Qc -> Prop) (n : Z) : P 0 -> Forall P (zeros n).
Proof. intros H. unfold zeros. apply Forall_replicate. exact H. Qed.

Lemma octaves_bound (nx ny : Qc) :
  - frac 135 16 <= octaves nx ny /\ octaves nx ny <= frac 135 16.
Proof.
  unfold octaves. cbn [fold_left seq fst].
  destruct (_noise2D_bound (nx * 1) (ny * 1)) as [L0 U0].
  destruct (_noise2D_bound (nx * (1 * 2%Z)) (ny * (1 * 2%Z))) as [L1 U1].
  destruct (_noise2D_bound (nx * (1 * 2%Z * 2%Z)) (ny * (1 * 2%Z * 2%Z))) as [L2 U2].
  destruct (_noise2D_bound (nx * (1 * 2%Z * 2%Z * 2%Z)) (ny * (1 * 2%Z * 2%Z * 2%Z)))
    as [L3 U3].
  generalize dependent (_noise2D (nx * 1) (ny * 1)).
  generalize dependent (_noise2D (nx * (1 * 2%Z)) (ny * (1 * 2%Z))).
  generalize dependent (_noise2D (nx * (1 * 2%Z * 2%Z)) (ny * (1 * 2%Z * 2%Z))).
  generalize dependent (_noise2D (nx * (1 * 2%Z * 2%Z * 2%Z)) (ny * (1 * 2%Z * 2%Z * 2%Z))).
  intros n3 L3 U3 n2 L2 U2 n1 L1 U1 n0 L0 U0. clear nx ny.
  split; qc2q; qnum; lra.
Qed.

Lemma scaled_bound (o s b : Qc) :
  - b <= o -> o <= b -> 0 <= s -> - (b * s) <= o * s /\ o * s <= b * s.
Proof.
  intros L U Hs. qc2q.
  assert ((0 <= (this b - this o) * this s)%Q) by (apply Qmult_le_0_compat; lra).
  assert ((0 <= (this o + this b) * this s)%Q) by (apply Qmult_le_0_compat; lra).
  split; lra.
Qed.

Lemma _initializeMicroDetailNoise_flat (p : Params) (width height : Z) (noise : list Qc) :
  _initializeMicroDetailNoise p width height noise
  = fold_left (fun a (c : Z * Z) =>
                 set a (toIndex width (fst c) (snd c))
                     (octaves (Z2Qc (fst c) * microDetailScale p)
                              (Z2Qc (snd c) * microDetailScale p)
                      * microDetailStrength p))
              (flat_map (fun y => map (fun x => (x, y)) (range 0 width)) (range 0 height))
              noise.
Proof.
  unfold _initializeMicroDetailNoise. cbv zeta.
  exact (nested_loops
           (fun a x y => set a (y * width + x)%Z
                           (octaves (Z2Qc x * microDetailScale p) (Z2Qc y * microDetailScale p)
                            * microDetailStrength p))
           (range 0 width) (range 0 height) noise).
Qed.



Lemma range_snoc (n : nat) :
  range 0 (Z.of_nat (S n)) = range 0 (Z.of_nat n) ++ [Z.of_nat n].
Proof.
  unfold range. rewrite !Z.sub_0_r, !Nat2Z.id. rewrite seq_S, map_app. reflexivity.
Qed.

(** A loop [for (i = 0; i < n; i++) r[i] += f(i)] over the first n cells. *)
Lemma inplace_loop (f : Z -> Qc) (a : list Qc) (n : nat) :
  (n <= length a)%nat ->
  let r := fold_left (fun r i => set r i (get r i + f i)) (range 0 (Z.of_nat n)) a in
  length r = length a
  /\ forall j : Z, get r j = if (0 <=? j)%Z && (j <? Z.of_nat n)%Z then get a j + f j
                             else get a j.
Proof.
  cbv zeta. induction n as [| n IH]; intros Hn.
  - split; [reflexivity |]. intros j. cbn [fold_left range].
    destruct (0 <=? j)%Z eqn:E; cbn [andb]; [| reflexivity].
    replace (j <? Z.of_nat 0)%Z with false by (symmetry; apply Z.ltb_ge; lia). reflexivity.
  - destruct (IH ltac:(lia)) as [Hlen Hget]. rewrite range_snoc, fold_left_app.
    cbn [fold_left].
    set (r := fold_left (fun r i => set r i (get r i + f i)) (range 0 (Z.of_nat n)) a) in *.
    split; [rewrite length_set; exact Hlen |].
    intros j. destruct (Z.eq_dec j (Z.of_nat n)) as [-> | Hne].
    + rewrite get_set_eq by lia. rewrite Hget.
      replace (Z.of_nat n <? Z.of_nat n)%Z with false by (symmetry; apply Z.ltb_ge; lia).
      replace (Z.of_nat n <? Z.of_nat (S n))%Z with true by (symmetry; apply Z.ltb_lt; lia).
      replace (0 <=? Z.of_nat n)%Z with true by (symmetry; apply Z.leb_le; lia).
      rewrite andb_false_r. reflexivity.
    + rewrite get_set_ne by exact Hne. rewrite Hget.
      replace (j <? Z.of_nat (S n))%Z with (j <? Z.of_nat n)%Z; [reflexivity |].
      destruct (Z.ltb_spec j (Z.of_nat n)), (Z.ltb_spec j (Z.of_nat (S n))); try reflexivity; lia.
Qed.

(** X9. cloneHeightMap returns a map as long as the height map whose cell i is
    heightMap[i], plus 0.1 * microDetailMap[i] when useMultiScale is on
    and that map exists, plus microDetailNoise[i] when useMicroDetails is
    on and the noise exists (the auxiliary maps being as long as the
    height map). *)
Theorem cloneHeightMap_cells (s : ErosionSimulator) (i : Z) :
  (0 <= i < Z.of_nat (length (heightMap s)))%Z ->
  (forall micro, microDetailMap s = Some micro -> length micro = length (heightMap s)) ->
  (forall noise, microDetailNoise s = Some noise -> length noise = length (heightMap s)) ->
  length (cloneHeightMap s) = length (heightMap s)
  /\ get (cloneHeightMap s) i
     = get (heightMap s) i
       + (if useMultiScale (params s)
          then match microDetailMap s with Some micro => get micro i * frac 1 10 | None => 0 end
          else 0)
       + (if useMicroDetails (params s)
          then match microDetailNoise s with Some noise => get noise i | None => 0 end
          else 0).
Proof.
  intros Hi _ _. unfold cloneHeightMap. cbv zeta.
  set (r1 := match microDetailMap s with
             | Some micro =>
                 if useMultiScale (params s)
                 then fold_left (fun result i => set result i (get result i + get micro i * frac 1 10))
                        (range 0 (Z.of_nat (length (heightMap s)))) (heightMap s)
                 else heightMap s
             | None => heightMap s
             end).
  assert (H1 : length r1 = length (heightMap s)
               /\ get r1 i = get (heightMap s) i
                  + (if useMultiScale (params s)
                     then match microDetailMap s with
                          | Some micro => get micro i * frac 1 10
                          | None => 0
                          end
                     else 0)).
  { subst r1. destruct (microDetailMap s) as [micro |], (useMultiScale (params s));
      try (split; [reflexivity | ring]).
    destruct (inplace_loop (fun i => get micro i * frac 1 10) (heightMap s)
                (length (heightMap s)) ltac:(lia)) as [Hl Hg].
    split; [exact Hl |]. rewrite Hg.
    replace ((0 <=? i)%Z && (i <? Z.of_nat (length (heightMap s)))%Z) with true; [reflexivity |].
    symmetry. apply andb_true_intro. split; [apply Z.leb_le | apply Z.ltb_lt]; lia. }
  destruct H1 as [L1 G1]. clearbody r1.
  destruct (microDetailNoise s) as [noise |], (useMicroDetails (params s));
    try (split; [exact L1 | rewrite G1; ring]).
  destruct (inplace_loop (fun i => get noise i) r1 (length r1) ltac:(lia)) as [Hl Hg].
  split; [rewrite Hl; exact L1 |]. rewrite Hg, G1.
  replace ((0 <=? i)%Z && (i <? Z.of_nat (length r1))%Z) with true; [reflexivity |].
  symmetry. apply andb_true_intro. split; [apply Z.leb_le | apply Z.ltb_lt]; lia.
Qed.

Lemma cloneHeightMap_cells_witness :
  let s := stateOf (construct exampleMath 2 2 (map Z2Qc [1; 2; 3; 4]%Z) microOnlyOverlay 0) in
  length (cloneHeightMap s) = length (heightMap s)
  /\ get (cloneHeightMap s) 3
     = get (heightMap s) 3
       + (if useMultiScale (params s)
          then match microDetailMap s with Some micro => get micro 3 * frac 1 10 | None => 0 end
          else 0)
       + (if useMicroDetails (params s)
          then match microDetailNoise s with Some noise => get noise 3 | None => 0 end
          else 0).
Proof.
  apply (cloneHeightMap_cells
           (stateOf (construct exampleMath 2 2 (map Z2Qc [1; 2; 3; 4]%Z) microOnlyOverlay 0)) 3).
  - vm_compute. split; [discriminate | reflexivity].
  - intros micro E. vm_compute in E. discriminate E.
  - intros noise E. vm_compute in E. injection E as <-. reflexivity.
Defined.

(** ** Droplet creation *)

Lemma createDroplets_fresh (M : MathEnv) (n : nat) (s : ErosionSimulator) :
  Forall (freshDroplet (params s)) (fst (createDroplets M n s))
  /\ randomCalls (snd (createDroplets M n s))
     = (randomCalls s + n * randomPerDroplet (params s))%nat
  /\ with_randomCalls (snd (createDroplets M n s)) (randomCalls s) = s.
Proof.
  revert s. induction n as [| n IH]; intros s; cbn [createDroplets].
  - cbn [fst snd]. split; [constructor |]. split; [lia |]. destruct s; reflexivity.
  - unfold _createDroplet. cbv zeta.
    match goal with
    | |- context [createDroplets M n ?s1] =>
        specialize (IH s1); destruct (createDroplets M n s1) as [ds s2]
    end.
    cbn [fst snd params randomCalls with_randomCalls] in *.
    destruct IH as (Hds & Hrc & Hs2). split; [| split].
    + constructor; [| exact Hds].
      unfold freshDroplet. cbn. repeat split; try reflexivity.
      * intros [sd E]. destruct (useSedimentSizes (params s)); [reflexivity | discriminate E].
      * intros ->. eexists. reflexivity.
    + rewrite Hrc. unfold randomPerDroplet. destruct (useSedimentSizes (params s)); lia.
    + destruct s2, s. cbn in *. inversion Hs2. reflexivity.
Qed.

(** X10. start(numDroplets, resetHeightmap, initialHeightMap) leaves a pool of
    exactly numDroplets droplets, each alive with zero direction, sediment
    and lifetime and the initial speed and volume of the parameters, sets
    dropletsActive to true, uses 2 values of Math.random per droplet (7
    with sediment sizes), replaces the height map only when resetHeightmap
    is set and a map is given, and leaves the dimensions, the parameters
    and all auxiliary maps as they were. *)
Theorem start_fresh_pool (M : MathEnv) (numDroplets : nat) (resetHeightmap : bool)
    (initialHeightMap : option (list Qc)) (s : ErosionSimulator) :
  let s' := start M numDroplets resetHeightmap initialHeightMap s in
  (exists ds, droplets s' = Some ds /\ length ds = numDroplets
              /\ Forall (freshDroplet (params s)) ds)
  /\ dropletsActive s' = Some true
  /\ anyAlive s' = negb (Nat.eqb numDroplets 0)
  /\ randomCalls s' = (randomCalls s + numDroplets * randomPerDroplet (params s))%nat
  /\ heightMap s' = match initialHeightMap with
                    | Some newHeightMap => if resetHeightmap then newHeightMap else heightMap s
                    | None => heightMap s
                    end
  /\ params s' = params s /\ width s' = width s /\ height s' = height s
  /\ flowMap s' = flowMap s /\ microDetailMap s' = microDetailMap s
  /\ microDetailNoise s' = microDetailNoise s
  /\ talusMap s' = talusMap s /\ slopeMap s' = slopeMap s.
Proof.
  cbv zeta. unfold start, resetDroplets.
  set (s1 := match initialHeightMap with
             | Some newHeightMap => if resetHeightmap then with_heightMap s newHeightMap else s
             | None => s
             end).
  assert (Hp : params s1 = params s /\ randomCalls s1 = randomCalls s
               /\ width s1 = width s /\ height s1 = height s
               /\ flowMap s1 = flowMap s /\ microDetailMap s1 = microDetailMap s
               /\ microDetailNoise s1 = microDetailNoise s
               /\ talusMap s1 = talusMap s /\ slopeMap s1 = slopeMap s)
    by (subst s1; destruct initialHeightMap, resetHeightmap; repeat split).
  destruct Hp as (Hp & Hrc & Hw & Hh & Hf & Hm & Hn & Ht & Hsl).
  assert (Hhm : heightMap s1 = match initialHeightMap with
                               | Some newHeightMap =>
                                   if resetHeightmap then newHeightMap else heightMap s
                               | None => heightMap s
                               end)
    by (subst s1; destruct initialHeightMap, resetHeightmap; reflexivity).
  clearbody s1.
  pose proof (createDroplets_fresh M numDroplets s1) as (Hds & Hcalls & Hsame).
  pose proof (createDroplets_length M numDroplets s1) as Hlen.
  destruct (createDroplets M numDroplets s1) as [ds s2]. cbn [fst snd] in *.
  assert (Hfields : params s2 = params s1 /\ width s2 = width s1 /\ height s2 = height s1
                    /\ heightMap s2 = heightMap s1
                    /\ flowMap s2 = flowMap s1 /\ microDetailMap s2 = microDetailMap s1
                    /\ microDetailNoise s2 = microDetailNoise s1
                    /\ talusMap s2 = talusMap s1 /\ slopeMap s2 = slopeMap s1)
    by (rewrite <- Hsame; repeat split).
  destruct Hfields as (F1 & F2 & F3 & F4 & F5 & F6 & F7 & F8 & F9).
  cbn [droplets dropletsActive with_droplets with_dropletsActive randomCalls heightMap
       params width height flowMap microDetailMap microDetailNoise talusMap slopeMap].
  split.
  { exists ds. rewrite <- Hp. repeat split; assumption. }
  split; [reflexivity |].
  split.
  { unfold anyAlive. cbn [droplets with_droplets with_dropletsActive].
    destruct ds as [| d ds]; cbn [length] in Hlen; subst numDroplets; [reflexivity |].
    cbn [Nat.eqb negb existsb]. apply Forall_cons_1 in Hds as [Hd _].
    destruct Hd as (_ & _ & _ & _ & _ & _ & -> & _). reflexivity. }
  split; [rewrite Hcalls, Hrc, Hp; reflexivity |].
  repeat split; congruence.
Qed.

(** ** The generator of [setSeed] *)

Lemma lcg_step_pos (s : Z) :
  (0 < s < lcgModulus)%Z -> (0 < s * 16807 mod lcgModulus < lcgModulus)%Z.
Proof.
  intros Hs. unfold lcgModulus in *.
  pose proof (Z.mod_pos_bound (s * 16807) 2147483647 ltac:(lia)) as Hb.
  destruct (Z.eq_dec (s * 16807 mod 2147483647) 0%Z) as [E | Hne]; [| lia].
  exfalso. apply Z.mod_divide in E; [| lia].
  rewrite Z.mul_comm in E. apply Z.gauss in E; [| reflexivity].
  apply Z.divide_pos_le in E; lia.
Qed.

Lemma lcgState_0 (seed : Z) :
  (0 <= lcgState seed 0 < lcgModulus)%Z
  /\ (lcgState seed 0 = 0%Z <-> Z.rem seed lcgModulus = (- (lcgModulus - 1))%Z).
Proof.
  cbn [lcgState]. unfold lcgModulus.
  pose proof (Z.rem_bound_abs seed 2147483647 ltac:(lia)) as Hb.
  destruct (Z.leb_spec (Z.rem seed 2147483647) 0%Z); split; lia.
Qed.

Lemma lcgState_pos (seed : Z) (n : nat) :
  Z.rem seed lcgModulus <> (- (lcgModulus - 1))%Z ->
  (0 < lcgState seed n < lcgModulus)%Z.
Proof.
  intros Hseed. induction n as [| n IH].
  - destruct (lcgState_0 seed) as [Hr Hz]. 
    destruct (Z.eq_dec (lcgState seed 0) 0%Z) as [E | Hne]; [| lia].
    exfalso. apply Hseed, Hz, E.
  - cbn [lcgState]. apply lcg_step_pos, IH.
Qed.

Lemma lcgState_stuck (seed : Z) (n : nat) :
  Z.rem seed lcgModulus = (- (lcgModulus - 1))%Z -> lcgState seed n = 0%Z.
Proof.
  intros Hseed. induction n as [| n IH].
  - apply (lcgState_0 seed), Hseed.
  - cbn [lcgState]. rewrite IH. reflexivity.
Qed.

Lemma unit_fraction (s : Z) :
  (0 < s < lcgModulus)%Z -> 0 < Z2Qc s / Z2Qc 2147483647 /\ Z2Qc s / Z2Qc 2147483647 < 1.
Proof.
  intros Hs. unfold lcgModulus in Hs.
  assert (H0 : Z2Qc 0 < Z2Qc s) by (apply (proj1 (Z2Qc_lt 0 s)); lia).
  assert (H1 : Z2Qc s < Z2Qc 2147483647) by (apply (proj1 (Z2Qc_lt s 2147483647)); lia).
  generalize dependent (Z2Qc s). intros q H0 H1.
  unfold Qclt, Qcdiv, Z2Qc in *. cbn [this Qcmult Qcinv Q2Qc] in *.
  rewrite ?Qred_correct in *. qnum.
  set (x := this q) in *. clearbody x. clear q Hs s.
  change (x * / (2147483647 # 1))%Q with (x / (2147483647 # 1))%Q.
  split; [apply Qlt_shift_div_l | apply Qlt_shift_div_r]; lra.
Qed.

(** X11. After setSeed(seed), every value of Math.random lies strictly between
    0 and 1, for every integer seed except those whose remainder by
    2147483647 is -2147483646. *)
Theorem lcgRandom_open_unit (seed : Z) (n : nat) :
  Z.rem seed lcgModulus <> (- (lcgModulus - 1))%Z ->
  0 < lcgRandom seed n /\ lcgRandom seed n < 1.
Proof.
  intros Hseed. unfold lcgRandom. apply unit_fraction, lcgState_pos, Hseed.
Qed.

Lemma lcgRandom_open_unit_witness : 0 < lcgRandom 42 3 /\ lcgRandom 42 3 < 1.
Proof.
  apply (lcgRandom_open_unit 42 3). vm_compute. discriminate.
Defined.

(** X12. For a seed whose remainder by 2147483647 is -2147483646 (for instance
    -2147483646 itself), the state of the generator of setSeed is 0 and
    Math.random returns 0 at every call. *)
Theorem lcgRandom_stuck (seed : Z) (n : nat) :
  Z.rem seed lcgModulus = (- (lcgModulus - 1))%Z ->
  lcgRandom seed n = 0.
Proof.
  intros Hseed. unfold lcgRandom. rewrite lcgState_stuck by exact Hseed.
  apply Qc_is_canon. reflexivity.
Qed.

Lemma lcgRandom_stuck_witness : lcgRandom (-2147483646) 5 = 0.
Proof. apply (lcgRandom_stuck (-2147483646) 5). reflexivity. Defined.

(** X13. With Math.random in [0, 1), the grain weights of a new droplet lie in
    fixed ranges: veryFine in [0.4, 0.7), fine in [0.2, 0.4), medium in
    [0.1, 0.25), coarse in [0.05, 0.15), veryCoarse in [0.02, 0.07); their
    sum lies in [0.77, 1.57), so the weights are not normalised to 1. *)
Theorem _calculateInitialSedimentDistribution_weights (M : MathEnv) (calls : nat) :
  unitRandom M ->
  let sd := _calculateInitialSedimentDistribution M calls in
  (frac 4 10 <= w_veryFine sd /\ w_veryFine sd < frac 7 10)
  /\ (frac 2 10 <= w_fine sd /\ w_fine sd < frac 4 10)
  /\ (frac 1 10 <= w_medium sd /\ w_medium sd < frac 25 100)
  /\ (frac 5 100 <= w_coarse sd /\ w_coarse sd < frac 15 100)
  /\ (frac 2 100 <= w_veryCoarse sd /\ w_veryCoarse sd < frac 7 100)
  /\ (frac 77 100 <= w_veryFine sd + w_fine sd + w_medium sd + w_coarse sd + w_veryCoarse sd
      /\ w_veryFine sd + w_fine sd + w_medium sd + w_coarse sd + w_veryCoarse sd
         < frac 157 100).
Proof.
  intros Hr. cbv zeta. unfold _calculateInitialSedimentDistribution.
  cbn [w_veryFine w_fine w_medium w_coarse w_veryCoarse].
  destruct (Hr calls) as [A0 A1]. destruct (Hr (calls + 1)%nat) as [B0 B1].
  destruct (Hr (calls + 2)%nat) as [C0 C1]. destruct (Hr (calls + 3)%nat) as [D0 D1].
  destruct (Hr (calls + 4)%nat) as [E0 E1].
  generalize dependent (Math_random M calls). intros a A0 A1.
  generalize dependent (Math_random M (calls + 1)). intros b B0 B1.
  generalize dependent (Math_random M (calls + 2)). intros c C0 C1.
  generalize dependent (Math_random M (calls + 3)). intros d D0 D1.
  generalize dependent (Math_random M (calls + 4)). intros e E0 E1.
  clear Hr. qc2q. repeat split; lra.
Qed.

Lemma _calculateInitialSedimentDistribution_weights_witness :
  let sd := _calculateInitialSedimentDistribution exampleMath 0 in
  (frac 4 10 <= w_veryFine sd /\ w_veryFine sd < frac 7 10)
  /\ (frac 2 10 <= w_fine sd /\ w_fine sd < frac 4 10)
  /\ (frac 1 10 <= w_medium sd /\ w_medium sd < frac 25 100)
  /\ (frac 5 100 <= w_coarse sd /\ w_coarse sd < frac 15 100)
  /\ (frac 2 100 <= w_veryCoarse sd /\ w_veryCoarse sd < frac 7 100)
  /\ (frac 77 100 <= w_veryFine sd + w_fine sd + w_medium sd + w_coarse sd + w_veryCoarse sd
      /\ w_veryFine sd + w_fine sd + w_medium sd + w_coarse sd + w_veryCoarse sd
         < frac 157 100).
Proof.
  apply (_calculateInitialSedimentDistribution_weights exampleMath 0).
  exact (lcgRandom_unit 1).
Defined.

(** ** Frame of a step *)

Lemma length__bilinearAdd (width height : Z) (a : list Qc) (x y : Z) (offX offY value : Qc) :
  length (_bilinearAdd width height a x y offX offY value) = length a.
Proof.
  unfold _bilinearAdd. destruct (inGrid width height x y); cbv zeta; [| reflexivity].
  rewrite !length_set. reflexivity.
Qed.

Lemma shape__updateTalusFormation (s : ErosionSimulator) (x y erosion deposition : Qc) :
  shapeOf (stateOf (_updateTalusFormation s x y erosion deposition)) = shapeOf s.
Proof.
  unfold _updateTalusFormation.
  destruct (negb _); [reflexivity |].
  destruct (slopeMap s) as [sm |] eqn:Es; [| reflexivity].
  destruct (geb _ _ && leb _ _); [| reflexivity].
  destruct (talusMap s) as [tm |] eqn:Et; [| reflexivity].
  unfold shapeOf. cbn [stateOf width height params microDetailNoise dropletsActive heightMap
                       flowMap microDetailMap talusMap slopeMap with_heightMap with_talusMap].
  rewrite Es, Et. cbn [option_map]. rewrite !length_set. reflexivity.
Qed.

Lemma shape_microDetails (es : Qc) (s : ErosionSimulator) (d : Droplet.t)
    (cellX cellY : Z) (offX offY amount : Qc) :
  shapeOf (stateOf (microDetails es s d cellX cellY offX offY amount)) = shapeOf s.
Proof.
  unfold microDetails.
  destruct (useMicroDetails (params s)); [| reflexivity].
  destruct (microDetailNoise s) as [noise |] eqn:En; [| reflexivity].
  unfold _bilinearAdd_field.
  destruct (inGrid (width s) (height s) cellX cellY).
  - destruct (microDetailMap s) as [m |] eqn:Em; [| reflexivity].
    unfold shapeOf. cbn [stateOf width height params microDetailNoise dropletsActive heightMap
                         flowMap microDetailMap talusMap slopeMap with_microDetailMap].
    rewrite En, Em. cbn [option_map]. rewrite length__bilinearAdd. reflexivity.
  - unfold shapeOf. cbn [stateOf width height params microDetailNoise dropletsActive heightMap
                         flowMap microDetailMap talusMap slopeMap with_microDetailMap].
    reflexivity.
Qed.

Lemma shape_with_heightMap (s : ErosionSimulator) (a : list Qc) :
  length a = length (heightMap s) -> shapeOf (with_heightMap s a) = shapeOf s.
Proof. intros H. unfold shapeOf. cbn. rewrite H. reflexivity. Qed.

Lemma shape_erodeOrDeposit (M : MathEnv) (es : Qc) (s : ErosionSimulator) (d : Droplet.t)
    (cellX cellY : Z) (offX offY newH capacity : Qc) :
  shapeOf (fst (stateOf (erodeOrDeposit M es s d cellX cellY offX offY newH capacity)))
  = shapeOf s.
Proof.
  unfold erodeOrDeposit.
  assert (Hadd : forall v, shapeOf (with_heightMap s
            (_bilinearAdd (width s) (height s) (heightMap s) cellX cellY offX offY v))
            = shapeOf s)
    by (intros v; apply shape_with_heightMap, length__bilinearAdd).
  destruct (gtb (Droplet.sediment d) capacity).
  - match goal with
    | |- context [_updateTalusFormation ?s1 ?x ?y ?e ?dp] =>
        pose proof (shape__updateTalusFormation s1 x y e dp) as Ht;
        destruct (_updateTalusFormation s1 x y e dp) as [s2 | ex s2]
    end; cbn [bind stateOf fst] in *; [| congruence].
    match goal with
    | |- context [microDetails ?a ?b ?c ?e ?f ?g ?h ?i] =>
        pose proof (shape_microDetails a b c e f g h i) as Hm;
        destruct (microDetails a b c e f g h i)
    end; cbn [bind stateOf fst] in *; congruence.
  - destruct (gtb _ 0); [| reflexivity].
    match goal with
    | |- context [_updateTalusFormation ?s1 ?x ?y ?e ?dp] =>
        pose proof (shape__updateTalusFormation s1 x y e dp) as Ht;
        destruct (_updateTalusFormation s1 x y e dp) as [s2 | ex s2]
    end; cbn [bind stateOf fst] in *; [| congruence].
    match goal with
    | |- context [microDetails ?a ?b ?c ?e ?f ?g ?h ?i] =>
        pose proof (shape_microDetails a b c e f g h i) as Hm;
        destruct (microDetails a b c e f g h i)
    end; cbn [bind stateOf fst] in *; congruence.
Qed.

Lemma shape_flowAccumulation (es : Qc) (s : ErosionSimulator) (d : Droplet.t) (capacity : Qc) :
  match flowAccumulation es s d capacity with
  | inl _ => True
  | inr (s1, _) => shapeOf s1 = shapeOf s
  end.
Proof.
  unfold flowAccumulation.
  destruct (useFlowAccumulation (params s)); [| reflexivity].
  destruct (flowMap s) as [fm |] eqn:Ef; [| exact I].
  unfold shapeOf. cbn [width height params microDetailNoise dropletsActive heightMap
                       flowMap microDetailMap talusMap slopeMap with_flowMap].
  rewrite Ef. cbn [option_map]. rewrite length_set. reflexivity.
Qed.

Lemma shape_subStep (M : MathEnv) (es : Qc) (s : ErosionSimulator) (d : Droplet.t) :
  shapeOf (fst (stateOf (subStep M es (s, d)))) = shapeOf s.
Proof.
  unfold subStep.
  destruct (outOfBounds s (moveDroplet M es s d)); [reflexivity |].
  match goal with
  | |- context [flowAccumulation ?a ?b ?c ?e] =>
      pose proof (shape_flowAccumulation a b c e) as Hf;
      destruct (flowAccumulation a b c e) as [ex | [s1 cap]]
  end; [reflexivity |].
  match goal with
  | |- context [erodeOrDeposit ?a ?b ?c ?e ?f ?g ?h ?i ?j ?k] =>
      pose proof (shape_erodeOrDeposit a b c e f g h i j k) as He;
      destruct (erodeOrDeposit a b c e f g h i j k) as [[s3 d3] | ex [s3 d3]]
  end; cbn [bind stateOf fst snd id] in *; congruence.
Qed.

Lemma length__computeSlopeMap (M : MathEnv) (width height : Z) (heightMap slopeMap : list Qc) :
  length (_computeSlopeMap M width height heightMap slopeMap) = length slopeMap.
Proof.
  rewrite _computeSlopeMap_flat.
  apply (writes_length (fun c : Z * Z => toIndex width (fst c) (snd c))).
Qed.

Lemma refreshSlopeMap_frame (M : MathEnv) (s : ErosionSimulator) :
  let s' := stateOf (refreshSlopeMap M s) in
  shapeOf s' = shapeOf s /\ heightMap s' = heightMap s /\ droplets s' = droplets s
  /\ flowMap s' = flowMap s /\ microDetailMap s' = microDetailMap s
  /\ talusMap s' = talusMap s.
Proof.
  cbv zeta. unfold refreshSlopeMap.
  destruct (useTalusFormation (params s)); [| repeat split].
  destruct (ltb _ _); [| repeat split].
  cbn [slopeMap with_randomCalls].
  destruct (slopeMap s) as [sm |] eqn:Es.
  - cbn [stateOf]. split; [| repeat split].
    unfold shapeOf. cbn [width height params microDetailNoise dropletsActive heightMap
                         flowMap microDetailMap talusMap slopeMap with_slopeMap
                         with_randomCalls].
    rewrite Es. cbn [option_map]. rewrite length__computeSlopeMap. reflexivity.
  - cbn [height width with_randomCalls].
    destruct (range 1 (height s - 1)); [cbn [stateOf]; repeat split |].
    destruct (range 1 (width s - 1)); cbn [stateOf]; repeat split.
Qed.

Lemma shape_dropletLoop (M : MathEnv) (n i : nat) (activeCount batchSize : Z)
    (s : ErosionSimulator) (ds : list Droplet.t) :
  shapeOf (fst (stateOf (dropletLoop M n i activeCount batchSize s ds))) = shapeOf s.
Proof.
  apply (dropletLoop_keeps M (fun s' => shapeOf s' = shapeOf s) (fun _ => True)).
  - intros es s0 d0 H0 _. split; [| exact I]. rewrite shape_subStep. exact H0.
  - reflexivity.
  - apply Forall_forall. easy.
Qed.

Lemma stepDroplets_shape (M : MathEnv) (batchSize : Z) (s : ErosionSimulator) :
  shapeOf (stateOf (stepDroplets M batchSize s)) = shapeOf s.
Proof.
  unfold stepDroplets. destruct (droplets s) as [ds |]; [| reflexivity].
  pose proof (shape_dropletLoop M (length ds) 0 0 batchSize s ds) as Hl.
  destruct (dropletLoop M (length ds) 0 0 batchSize s ds) as [[s' ds'] | e [s' ds']];
    cbn [bind stateOf fst snd] in *.
  - destruct (refreshSlopeMap_frame M (with_droplets s' (Some ds'))) as [Hs _].
    rewrite Hs. exact Hl.
  - exact Hl.
Qed.

(** X14. Whatever the batch size and whether it returns or throws,
    stepDroplets leaves the width, the height, the parameters, the noise
    pattern and the dropletsActive flag unchanged, and keeps the length of
    the height map and the existence and length of the flow, micro-detail,
    talus and slope maps. *)
Theorem stepDroplets_frame (M : MathEnv) (batchSize : Z) (s : ErosionSimulator) :
  let s' := stateOf (stepDroplets M batchSize s) in
  width s' = width s /\ height s' = height s /\ params s' = params s
  /\ microDetailNoise s' = microDetailNoise s
  /\ dropletsActive s' = dropletsActive s
  /\ length (heightMap s') = length (heightMap s)
  /\ option_map length (flowMap s') = option_map length (flowMap s)
  /\ option_map length (microDetailMap s') = option_map length (microDetailMap s)
  /\ option_map length (talusMap s') = option_map length (talusMap s)
  /\ option_map length (slopeMap s') = option_map length (slopeMap s).
Proof.
  cbv zeta. pose proof (stepDroplets_shape M batchSize s) as H.
  unfold shapeOf in H. injection H as -> -> -> -> -> -> -> -> -> ->. repeat split.
Qed.

(** ** Which droplets a step works on *)

Lemma aliveFrom_beyond (i : nat) (ds : list Droplet.t) :
  ds !! i = None -> aliveFrom i ds = [].
Proof.
  intros H. apply lookup_ge_None in H. unfold aliveFrom.
  replace (length ds - i)%nat with 0%nat by lia. reflexivity.
Qed.

Lemma aliveFrom_unfold (i : nat) (ds : list Droplet.t) (d : Droplet.t) :
  ds !! i = Some d ->
  aliveFrom i ds = (if Droplet.alive d then [i] else []) ++ aliveFrom (S i) ds.
Proof.
  intros H. pose proof (lookup_lt_Some _ _ _ H) as Hlt. unfold aliveFrom.
  replace (length ds - i)%nat with (S (length ds - S i))%nat by lia.
  cbn [seq List.filter]. rewrite H. destruct (Droplet.alive d); reflexivity.
Qed.

Lemma aliveFrom_ge (i j : nat) (ds : list Droplet.t) : In j (aliveFrom i ds) -> (i <= j)%nat.
Proof. unfold aliveFrom. intros H. apply filter_In in H as [H _]. apply in_seq in H. lia. Qed.

Lemma aliveFrom_insert (i : nat) (ds : list Droplet.t) (d : Droplet.t) :
  aliveFrom (S i) (<[i := d]> ds) = aliveFrom (S i) ds.
Proof.
  unfold aliveFrom. rewrite length_insert. apply filter_ext_in.
  intros j Hj. apply in_seq in Hj. rewrite list_lookup_insert_ne by lia. reflexivity.
Qed.

Lemma In_take {A : Type} (n : nat) (l : list A) (x : A) : In x (take n l) -> In x l.
Proof.
  revert l. induction n as [| n IH]; intros [| y l]; cbn [take]; try easy.
  intros [-> | H]; [left; reflexivity | right; apply IH, H].
Qed.

Lemma dropletLoop_selected (M : MathEnv) (n i : nat) (activeCount batchSize : Z)
    (s : ErosionSimulator) (ds : list Droplet.t) :
  let ds' := snd (stateOf (dropletLoop M n i activeCount batchSize s ds)) in
  length ds' = length ds
  /\ forall j : nat,
       ~ In j (take (Z.to_nat (batchSize - activeCount)) (aliveFrom i ds)) ->
       ds' !! j = ds !! j.
Proof.
  cbv zeta. revert i activeCount s ds.
  induction n as [| n IH]; intros i activeCount s ds; cbn [dropletLoop].
  - split; reflexivity.
  - destruct (ds !! i) as [d |] eqn:Hd; [| split; reflexivity].
    destruct (Z.ltb_spec activeCount batchSize) as [Hlt | Hge]; [| split; reflexivity].
    rewrite (aliveFrom_unfold i ds d Hd).
    destruct (Droplet.alive d) eqn:Ha; cbn [negb app].
    + assert (Hloop : forall s' d',
                let r := snd (stateOf (dropletLoop M n (i + 1) (activeCount + 1) batchSize s'
                                         (<[i := d']> ds))) in
                length r = length ds
                /\ forall j, ~ In j (take (Z.to_nat (batchSize - activeCount))
                                          (i :: aliveFrom (S i) ds)) ->
                             r !! j = ds !! j).
      { intros s' d'. cbv zeta.
        destruct (IH (i + 1)%nat (activeCount + 1)%Z s' (<[i := d']> ds)) as [Hlen Hget].
        split; [rewrite Hlen; apply length_insert |].
        intros j Hj.
        replace (Z.to_nat (batchSize - activeCount))
          with (S (Z.to_nat (batchSize - (activeCount + 1)))) in Hj by lia.
        cbn [take] in Hj.
        assert (Hji : j <> i) by (intros ->; apply Hj; left; reflexivity).
        rewrite Hget.
        - apply list_lookup_insert_ne. lia.
        - replace (i + 1)%nat with (S i) by lia. rewrite aliveFrom_insert.
          intros Hin. apply Hj. right. exact Hin. }
      destruct (snd (subSteps M s d)) as [[s' d'] | e [s' d']].
      * apply Hloop.
      * cbn [stateOf snd]. split; [apply length_insert |].
        intros j Hj.
        replace (Z.to_nat (batchSize - activeCount))
          with (S (Z.to_nat (batchSize - (activeCount + 1)))) in Hj by lia.
        cbn [take] in Hj.
        apply list_lookup_insert_ne. intros ->. apply Hj. left. reflexivity.
    + replace (i + 1)%nat with (S i) by lia. apply IH.
Qed.

Lemma dropletLoop_idle (M : MathEnv) (n i : nat) (activeCount batchSize : Z)
    (s : ErosionSimulator) (ds : list Droplet.t) :
  take (Z.to_nat (batchSize - activeCount)) (aliveFrom i ds) = [] ->
  dropletLoop M n i activeCount batchSize s ds = Normal (s, ds).
Proof.
  revert i. induction n as [| n IH]; intros i Hsel; cbn [dropletLoop]; [reflexivity |].
  destruct (ds !! i) as [d |] eqn:Hd; [| reflexivity].
  destruct (Z.ltb_spec activeCount batchSize) as [Hlt | Hge]; [| reflexivity].
  rewrite (aliveFrom_unfold i ds d Hd) in Hsel.
  destruct (Droplet.alive d); cbn [negb app] in *.
  - exfalso.
    replace (Z.to_nat (batchSize - activeCount))
      with (S (Z.to_nat (batchSize - (activeCount + 1)))) in Hsel by lia.
    discriminate Hsel.
  - apply IH. replace (i + 1)%nat with (S i) by lia. exact Hsel.
Qed.

Lemma stepDroplets_pool_length (M : MathEnv) (batchSize : Z)
    (s : ErosionSimulator) (ds : list Droplet.t) :
  droplets s = Some ds ->
  exists ds',
    droplets (stateOf (stepDroplets M batchSize s)) = Some ds' /\ length ds' = length ds.
Proof.
  intros Hds. unfold stepDroplets. rewrite Hds.
  destruct (dropletLoop_selected M (length ds) 0 0 batchSize s ds) as [Hlen _].
  destruct (dropletLoop M (length ds) 0 0 batchSize s ds) as [[s' ds'] | e [s' ds']];
    cbn [bind stateOf fst snd] in *.
  - exists ds'.
    destruct (refreshSlopeMap_frame M (with_droplets s' (Some ds'))) as (_ & _ & Hd & _).
    rewrite Hd. cbn [droplets with_droplets]. tauto.
  - exists ds'. cbn [droplets with_droplets]. tauto.
Qed.

(** X15. A call stepDroplets(batchSize) keeps the number of droplets and
    changes no droplet other than the first batchSize alive ones (in pool
    order): every other droplet, dead or beyond the batch, is left exactly
    as it was. *)
Theorem stepDroplets_changes_selected_only (M : MathEnv) (batchSize : Z)
    (s : ErosionSimulator) (ds : list Droplet.t) :
  droplets s = Some ds ->
  exists ds',
    droplets (stateOf (stepDroplets M batchSize s)) = Some ds'
    /\ length ds' = length ds
    /\ (forall j : nat, ~ In j (selected batchSize ds) -> ds' !! j = ds !! j)
    /\ (length (selected batchSize ds) <= Z.to_nat batchSize)%nat
    /\ (forall j : nat, In j (selected batchSize ds) ->
          exists d, ds !! j = Some d /\ Droplet.alive d = true).
Proof.
  intros Hds. unfold stepDroplets. rewrite Hds.
  destruct (dropletLoop_selected M (length ds) 0 0 batchSize s ds) as [Hlen Hget].
  rewrite Z.sub_0_r in Hget. fold (selected batchSize ds) in Hget.
  assert (Hsel : (length (selected batchSize ds) <= Z.to_nat batchSize)%nat
                 /\ forall j, In j (selected batchSize ds) ->
                      exists d, ds !! j = Some d /\ Droplet.alive d = true).
  { split; [unfold selected; rewrite length_take; lia |].
    intros j Hj. unfold selected in Hj. apply In_take in Hj.
    unfold aliveFrom in Hj. apply filter_In in Hj as [_ Hj].
    destruct (ds !! j) as [d |]; [| discriminate Hj]. exists d. split; [reflexivity | exact Hj]. }
  destruct (dropletLoop M (length ds) 0 0 batchSize s ds) as [[s' ds'] | e [s' ds']];
    cbn [bind stateOf fst snd] in *.
  - exists ds'.
    destruct (refreshSlopeMap_frame M (with_droplets s' (Some ds'))) as (_ & _ & Hd & _).
    rewrite Hd. cbn [droplets with_droplets]. tauto.
  - exists ds'. cbn [droplets with_droplets]. tauto.
Qed.

Lemma stepDroplets_changes_selected_only_witness :
  let s := initialized exampleMath 4 4 (replicate 16 1) plainOverlay 3 in
  exists ds',
    droplets (stateOf (stepDroplets exampleMath 2 s)) = Some ds'
    /\ length ds' = length (default [] (droplets s))
    /\ (forall j : nat, ~ In j (selected 2 (default [] (droplets s))) ->
          ds' !! j = default [] (droplets s) !! j)
    /\ (length (selected 2 (default [] (droplets s))) <= Z.to_nat 2)%nat
    /\ (forall j : nat, In j (selected 2 (default [] (droplets s))) ->
          exists d, default [] (droplets s) !! j = Some d /\ Droplet.alive d = true).
Proof.
  apply (stepDroplets_changes_selected_only exampleMath 2
           (initialized exampleMath 4 4 (replicate 16 1) plainOverlay 3)).
  vm_compute. reflexivity.
Defined.

Lemma with_droplets_same (s : ErosionSimulator) (ds : list Droplet.t) :
  droplets s = Some ds -> with_droplets s (Some ds) = s.
Proof. intros H. destruct s. cbn in *. rewrite H. reflexivity. Qed.

Lemma aliveFrom_none (i : nat) (ds : list Droplet.t) :
  existsb Droplet.alive ds = false -> aliveFrom i ds = [].
Proof.
  intros H. unfold aliveFrom.
  induction (seq i (length ds - i)) as [| j l IH]; cbn [List.filter]; [reflexivity |].
  destruct (ds !! j) as [d |] eqn:Hd; [| exact IH].
  destruct (Droplet.alive d) eqn:Ha; [| exact IH].
  exfalso. assert (Hex : existsb Droplet.alive ds = true).
  { apply existsb_exists. exists d. split; [| exact Ha].
    apply list_elem_of_In. eapply list_elem_of_lookup_2. exact Hd. }
  congruence.
Qed.

(** X16. On an engine that has a droplet pool, a call of stepDroplets with a
    batch size <= 0, or with no droplet alive, simulates nothing: it only
    runs the occasional refresh of the slope map, and the height map, the
    droplets and the flow, micro-detail and talus maps are unchanged. *)
Theorem stepDroplets_idle (M : MathEnv) (batchSize : Z) (s : ErosionSimulator) :
  is_Some (droplets s) ->
  (batchSize <= 0)%Z \/ anyAlive s = false ->
  stepDroplets M batchSize s = refreshSlopeMap M s
  /\ heightMap (stateOf (stepDroplets M batchSize s)) = heightMap s
  /\ droplets (stateOf (stepDroplets M batchSize s)) = droplets s
  /\ flowMap (stateOf (stepDroplets M batchSize s)) = flowMap s
  /\ microDetailMap (stateOf (stepDroplets M batchSize s)) = microDetailMap s
  /\ talusMap (stateOf (stepDroplets M batchSize s)) = talusMap s.
Proof.
  intros [ds Hds] Hidle.
  assert (E : stepDroplets M batchSize s = refreshSlopeMap M s).
  { unfold stepDroplets. rewrite Hds. rewrite dropletLoop_idle.
    - cbn [bind fst snd]. rewrite with_droplets_same by exact Hds. reflexivity.
    - destruct Hidle as [Hb | Ha].
      + replace (Z.to_nat (batchSize - 0)) with 0%nat by lia. reflexivity.
      + unfold anyAlive in Ha. rewrite Hds in Ha. rewrite aliveFrom_none by exact Ha.
        apply take_nil. }
  split; [exact E |]. rewrite E.
  destruct (refreshSlopeMap_frame M s) as (_ & H1 & H2 & H3 & H4 & H5). tauto.
Qed.

Lemma stepDroplets_idle_witness :
  let s := initialized exampleMath 4 4 (replicate 16 1) plainOverlay 2 in
  stepDroplets exampleMath 0 s = refreshSlopeMap exampleMath s
  /\ heightMap (stateOf (stepDroplets exampleMath 0 s)) = heightMap s
  /\ droplets (stateOf (stepDroplets exampleMath 0 s)) = droplets s
  /\ flowMap (stateOf (stepDroplets exampleMath 0 s)) = flowMap s
  /\ microDetailMap (stateOf (stepDroplets exampleMath 0 s)) = microDetailMap s
  /\ talusMap (stateOf (stepDroplets exampleMath 0 s)) = talusMap s.
Proof.
  apply (stepDroplets_idle exampleMath 0
           (initialized exampleMath 4 4 (replicate 16 1) plainOverlay 2)).
  - eexists. vm_compute. reflexivity.
  - left. lia.
Defined.

(** ** Steps that cannot fail *)

Lemma mapsReady_shape (s s' : ErosionSimulator) :
  shapeOf s' = shapeOf s -> mapsReady s -> mapsReady s'.
Proof.
  unfold shapeOf, mapsReady. intros H (Hf & Hm & Ht).
  injection H as _ _ Hp Hn _ _ Ef Em Et Es. rewrite Hp, Hn.
  assert (Hsome : forall (a b : option (list Qc)),
            option_map length a = option_map length b -> is_Some b -> is_Some a).
  { intros [x |] [y |] E [z Hz]; try discriminate; eexists; reflexivity. }
  split; [| split].
  - intros H. apply (Hsome _ _ Ef), Hf, H.
  - intros H. destruct (Hm H) as [H1 H2]. split; [exact H1 | apply (Hsome _ _ Em), H2].
  - intros H. destruct (Ht H) as [H1 H2].
    split; [apply (Hsome _ _ Es), H1 | apply (Hsome _ _ Et), H2].
Qed.

Lemma _updateTalusFormation_safe (s : ErosionSimulator) (x y erosion deposition : Qc) :
  mapsReady s -> exists s', _updateTalusFormation s x y erosion deposition = Normal s'.
Proof.
  intros (_ & _ & Ht). unfold _updateTalusFormation.
  destruct (useTalusFormation (params s)); cbn [negb]; [| eexists; reflexivity].
  destruct (Ht eq_refl) as [[sm ->] [tm ->]].
  destruct (geb _ _ && leb _ _); eexists; reflexivity.
Qed.

Lemma microDetails_safe (es : Qc) (s : ErosionSimulator) (d : Droplet.t)
    (cellX cellY : Z) (offX offY amount : Qc) :
  mapsReady s -> exists s', microDetails es s d cellX cellY offX offY amount = Normal s'.
Proof.
  intros (_ & Hm & _). unfold microDetails.
  destruct (useMicroDetails (params s)); [| eexists; reflexivity].
  destruct (Hm eq_refl) as [[noise ->] [m ->]].
  unfold _bilinearAdd_field. destruct (inGrid _ _ _ _); eexists; reflexivity.
Qed.

Lemma erodeOrDeposit_safe (M : MathEnv) (es : Qc) (s : ErosionSimulator) (d : Droplet.t)
    (cellX cellY : Z) (offX offY newH capacity : Qc) :
  mapsReady s ->
  exists r, erodeOrDeposit M es s d cellX cellY offX offY newH capacity = Normal r.
Proof.
  intros Hs. unfold erodeOrDeposit.
  assert (Hadd : forall v, mapsReady (with_heightMap s
            (_bilinearAdd (width s) (height s) (heightMap s) cellX cellY offX offY v))).
  { intros v. eapply mapsReady_shape; [| exact Hs].
    apply shape_with_heightMap, length__bilinearAdd. }
  assert (Hgo : forall v e dp d',
            exists r,
              bind (_updateTalusFormation (with_heightMap s
                      (_bilinearAdd (width s) (height s) (heightMap s) cellX cellY offX offY v))
                      (Droplet.x d) (Droplet.y d) e dp)
                (fun s2 =>
                   bind (microDetails es s2 d cellX cellY offX offY v)
                     (fun s3 => Normal (s3, d'))
                     (fun s3 => (s3, d)))
                (fun s2 => (s2, d)) = Normal r).
  { intros v e dp d'.
    destruct (_updateTalusFormation_safe _ (Droplet.x d) (Droplet.y d) e dp (Hadd v))
      as [s2 E2].
    pose proof (shape__updateTalusFormation
                  (with_heightMap s (_bilinearAdd (width s) (height s) (heightMap s)
                                       cellX cellY offX offY v))
                  (Droplet.x d) (Droplet.y d) e dp) as Hsh.
    rewrite E2 in *. cbn [bind stateOf] in *.
    destruct (microDetails_safe es s2 d cellX cellY offX offY v
                (mapsReady_shape _ _ Hsh (Hadd v))) as [s3 E3].
    rewrite E3. cbn [bind]. eexists. reflexivity. }
  destruct (gtb (Droplet.sediment d) capacity); [apply Hgo |].
  destruct (gtb _ 0); [apply Hgo | eexists; reflexivity].
Qed.

Lemma subStep_safe (M : MathEnv) (es : Qc) (s : ErosionSimulator) (d : Droplet.t) :
  mapsReady s -> exists r, subStep M es (s, d) = Normal r.
Proof.
  intros Hs. unfold subStep.
  destruct (outOfBounds s (moveDroplet M es s d)); [eexists; reflexivity |].
  match goal with
  | |- context [flowAccumulation ?a ?b ?c ?e] =>
      pose proof (shape_flowAccumulation a b c e) as Hf;
      assert (Hok : exists r, flowAccumulation a b c e = inr r);
      [ unfold flowAccumulation; destruct Hs as (Hfl & _);
        destruct (useFlowAccumulation (params b)); [| eexists; reflexivity];
        destruct (Hfl eq_refl) as [fm ->]; eexists; reflexivity
      | destruct Hok as [[s1 cap] E1]; rewrite E1 in * ]
  end.
  match goal with
  | |- context [erodeOrDeposit ?a ?b ?c ?e ?f ?g ?h ?i ?j ?k] =>
      destruct (erodeOrDeposit_safe a b c e f g h i j k (mapsReady_shape _ _ Hf Hs))
        as [r Er]; rewrite Er
  end.
  cbn [bind]. eexists. reflexivity.
Qed.

Lemma subSteps_safe (M : MathEnv) (s : ErosionSimulator) (d : Droplet.t) :
  mapsReady s ->
  exists s' d', snd (subSteps M s d) = Normal (s', d') /\ shapeOf s' = shapeOf s.
Proof.
  intros Hs. rewrite subSteps_unfold. cbv zeta.
  destruct (ltb 0 _); [| exists s, d; split; reflexivity].
  destruct (subStep_safe M (erosionScale M (width s) (height s)) s d Hs) as [[s1 d1] E1].
  pose proof (shape_subStep M (erosionScale M (width s) (height s)) s d) as H1.
  rewrite E1 in *. cbn [stateOf fst] in H1.
  destruct (ltb 1 _); [| exists s1, d1; split; [reflexivity | exact H1]].
  destruct (subStep_safe M (erosionScale M (width s) (height s)) s1 d1
              (mapsReady_shape _ _ H1 Hs)) as [[s2 d2] E2].
  pose proof (shape_subStep M (erosionScale M (width s) (height s)) s1 d1) as H2.
  rewrite E2 in *. cbn [stateOf fst] in H2.
  exists s2, d2. split; [reflexivity | congruence].
Qed.

Lemma dropletLoop_safe (M : MathEnv) (n i : nat) (activeCount batchSize : Z)
    (s : ErosionSimulator) (ds : list Droplet.t) :
  mapsReady s ->
  exists r, dropletLoop M n i activeCount batchSize s ds = Normal r.
Proof.
  revert i activeCount s ds.
  induction n as [| n IH]; intros i activeCount s ds Hs; cbn [dropletLoop].
  - eexists. reflexivity.
  - destruct (ds !! i) as [d |]; [| eexists; reflexivity].
    destruct (activeCount <? batchSize)%Z; [| eexists; reflexivity].
    destruct (negb (Droplet.alive d)); [apply IH, Hs |].
    destruct (subSteps_safe M s d Hs) as (s' & d' & E & Hsh). rewrite E.
    apply IH. eapply mapsReady_shape; eassumption.
Qed.

Lemma stepDroplets_safe (M : MathEnv) (batchSize : Z) (s : ErosionSimulator) :
  mapsReady s -> is_Some (droplets s) ->
  exists s', stepDroplets M batchSize s = Normal s'
             /\ mapsReady s' /\ is_Some (droplets s') /\ shapeOf s' = shapeOf s.
Proof.
  intros Hs [ds Hds].
  pose proof (stepDroplets_shape M batchSize s) as Hsh.
  unfold stepDroplets in *. rewrite Hds in *.
  destruct (dropletLoop_safe M (length ds) 0 0 batchSize s ds Hs) as [[s1 ds1] E1].
  pose proof (shape_dropletLoop M (length ds) 0 0 batchSize s ds) as H1.
  rewrite E1 in *. cbn [bind stateOf fst snd] in *.
  assert (Hr : mapsReady (with_droplets s1 (Some ds1)))
    by (eapply mapsReady_shape; [| exact Hs]; exact H1).
  destruct (refreshSlopeMap_ok M (with_droplets s1 (Some ds1))) as (s2 & E2 & _ & Hd).
  { intros Ht. apply Hr in Ht. tauto. }
  rewrite E2 in *. cbn [stateOf] in Hsh. exists s2.
  split; [reflexivity |]. split; [eapply mapsReady_shape; eassumption |].
  split; [rewrite Hd; eexists; reflexivity | exact Hsh].
Qed.

(** ** Reset *)

Lemma reset_ok (M : MathEnv) (newHeightMap : list Qc) (s : ErosionSimulator)
    (ds : list Droplet.t) :
  droplets s = Some ds ->
  (0 <= width s * height s)%Z ->
  let n := (width s * height s)%Z in
  let p := params s in
  exists ds',
    length ds' = length ds
    /\ Forall (freshDroplet p) ds'
    /\ reset M newHeightMap s = Normal
         {| width := width s; height := height s; heightMap := newHeightMap; params := p;
            flowMap := if useFlowAccumulation p then Some (zeros n) else flowMap s;
            microDetailMap := if useMultiScale p then Some (zeros n) else microDetailMap s;
            microDetailNoise :=
              if useMicroDetails p
              then Some (_initializeMicroDetailNoise p (width s) (height s) (zeros n))
              else microDetailNoise s;
            talusMap := if useTalusFormation p then Some (zeros n) else talusMap s;
            slopeMap :=
              if useTalusFormation p
              then Some (_computeSlopeMap M (width s) (height s) newHeightMap (zeros n))
              else slopeMap s;
            droplets := Some ds'; dropletsActive := dropletsActive s;
            randomCalls := (randomCalls s + length ds * randomPerDroplet p)%nat |}.
Proof.
  intros Hds Hn. cbv zeta. unfold reset. cbn [droplets with_heightMap]. rewrite Hds.
  pose proof (createDroplets_fresh M (length ds) (with_heightMap s newHeightMap))
    as (Hfresh & Hcalls & Hsame).
  pose proof (createDroplets_length M (length ds) (with_heightMap s newHeightMap)) as Hlen.
  destruct (createDroplets M (length ds) (with_heightMap s newHeightMap)) as [ds' s2].
  cbn [fst snd params randomCalls with_heightMap] in *.
  exists ds'. split; [exact Hlen |]. split; [exact Hfresh |].
  assert (E : s2 = with_randomCalls (with_heightMap s newHeightMap)
                     (randomCalls s + length ds * randomPerDroplet (params s))).
  { destruct s2 as [w1 h1 hm1 p1 fm1 mm1 mn1 tm1 sm1 ds1 da1 rc1]. cbn in Hcalls, Hsame. unfold with_heightMap in Hsame.
    injection Hsame as -> -> -> -> -> -> -> -> -> -> ->. subst. reflexivity. }
  subst s2. rewrite allocateMaps_ok by exact Hn. reflexivity.
Qed.

Lemma construct_maps (M : MathEnv) (w h : Z) (hm : list Qc) (ov : Overlay) (c : nat) :
  (0 <= w * h)%Z ->
  let p := Object_assign (scaledParams M w h) ov in
  let n := (w * h)%Z in
  construct M w h hm ov c = Normal
    {| width := w; height := h; heightMap := hm; params := p;
       flowMap := if useFlowAccumulation p then Some (zeros n) else None;
       microDetailMap := if useMultiScale p then Some (zeros n) else None;
       microDetailNoise :=
         if useMicroDetails p then Some (_initializeMicroDetailNoise p w h (zeros n)) else None;
       talusMap := if useTalusFormation p then Some (zeros n) else None;
       slopeMap := if useTalusFormation p then Some (_computeSlopeMap M w h hm (zeros n))
                   else None;
       droplets := None; dropletsActive := None; randomCalls := c |}.
Proof.
  intros Hn. cbv zeta. unfold construct. rewrite allocateMaps_ok by exact Hn. reflexivity.
Qed.

Lemma mapsReady_by_flags (s : ErosionSimulator) (n : Z) (a b c : list Qc) :
  consistentFlags (params s) ->
  flowMap s = (if useFlowAccumulation (params s) then Some (zeros n) else None) ->
  microDetailMap s = (if useMultiScale (params s) then Some (zeros n) else None) ->
  microDetailNoise s = (if useMicroDetails (params s) then Some a else None) ->
  talusMap s = (if useTalusFormation (params s) then Some b else None) ->
  slopeMap s = (if useTalusFormation (params s) then Some c else None) ->
  mapsReady s /\ mapsFollowFlags s.
Proof.
  unfold consistentFlags, mapsReady, mapsFollowFlags. intros Hc -> -> -> -> ->.
  destruct (useFlowAccumulation (params s)), (useMultiScale (params s)),
    (useMicroDetails (params s)), (useTalusFormation (params s));
    repeat split; intros; try discriminate; try (eexists; reflexivity);
    exfalso; specialize (Hc eq_refl); discriminate.
Qed.

(** ** A worker that never reports an error *)

Lemma ready_stepDroplets (M : MathEnv) (batchSize : Z) (s : ErosionSimulator) :
  ready s -> exists s', stepDroplets M batchSize s = Normal s' /\ ready s'.
Proof.
  intros (Hm & Hd & Ha & Hc).
  destruct (stepDroplets_safe M batchSize s Hm Hd) as (s' & E & Hm' & Hd' & Hsh).
  exists s'. split; [exact E |]. unfold ready.
  unfold shapeOf in Hsh. injection Hsh as -> -> -> _ _ _ _ _ _ _. tauto.
Qed.

Lemma ready_reset (M : MathEnv) (newHeightMap : list Qc) (s : ErosionSimulator) :
  ready s -> exists s', reset M newHeightMap s = Normal s' /\ ready s'.
Proof.
  intros (Hm & [ds Hd] & Ha & Hc).
  destruct (reset_ok M newHeightMap s ds Hd Ha) as (ds' & _ & _ & E).
  eexists. split; [exact E |]. unfold ready, mapsReady, consistentFlags in *.
  cbn [params width height flowMap microDetailMap microDetailNoise talusMap slopeMap droplets].
  destruct (useFlowAccumulation (params s)), (useMultiScale (params s)),
    (useMicroDetails (params s)), (useTalusFormation (params s));
    repeat split; intros; try discriminate; try (eexists; reflexivity); try assumption;
    exfalso; specialize (Hc eq_refl); discriminate.
Qed.

Lemma ready_flag (s : ErosionSimulator) (v : option bool) :
  ready s -> ready (with_dropletsActive s v).
Proof. intros H. exact H. Qed.

Lemma ready_created (M : MathEnv) (w h : Z) (hm : list Qc) (ov : Overlay) (c n : nat) :
  (0 <= w * h)%Z ->
  consistentFlags (Object_assign (scaledParams M w h) ov) ->
  let s0 := stateOf (construct M w h hm ov c) in
  let s := with_droplets (snd (createDroplets M n s0)) (Some (fst (createDroplets M n s0))) in
  construct M w h hm ov c = Normal s0
  /\ ready s /\ mapsFollowFlags s
  /\ width s = w /\ height s = h
  /\ params s = Object_assign (scaledParams M w h) ov.
Proof.
  intros Hn Hc. cbv zeta. rewrite construct_maps by exact Hn. cbv zeta. cbn [stateOf].
  split; [reflexivity |].
  set (p := Object_assign (scaledParams M w h) ov) in *. clearbody p.
  match goal with
  | |- context [createDroplets M n ?s0] =>
      pose proof (createDroplets_fresh M n s0) as (_ & _ & Hsame);
      destruct (createDroplets M n s0) as [ds s1]
  end.
  cbn [fst snd randomCalls] in *.
  destruct s1 as [w1 h1 hm1 p1 fm1 mm1 mn1 tm1 sm1 ds1 da1 rc1].
  cbn in Hsame. injection Hsame as -> -> -> -> -> -> -> -> -> -> ->.
  cbn [with_droplets width height heightMap params flowMap microDetailMap microDetailNoise
       talusMap slopeMap droplets dropletsActive randomCalls].
  match goal with
  | |- ready ?s /\ _ =>
      destruct (mapsReady_by_flags s (w * h)
                  (_initializeMicroDetailNoise p w h (zeros (w * h)))
                  (zeros (w * h)) (_computeSlopeMap M w h hm (zeros (w * h))) Hc
                  eq_refl eq_refl eq_refl eq_refl eq_refl) as [H1 H2]
  end.
  split.
  { unfold ready. split; [exact H1 |]. split; [eexists; reflexivity |].
    split; [exact Hn | exact Hc]. }
  split; [exact H2 |]. repeat split.
Qed.

Lemma ready_init (M : MathEnv) (simulator : Worker) (w h : Z) (hm : list Qc)
    (ov : Overlay) (numDroplets : Qc) (n : nat) :
  (0 <= w * h)%Z ->
  consistentFlags (Object_assign (scaledParams M w h) ov) ->
  Array_ numDroplets = Some n ->
  exists s, onmessage M simulator (Init w h hm ov numDroplets) = (Some s, [InitDone])
            /\ ready s /\ mapsFollowFlags s
            /\ width s = w /\ height s = h
            /\ params s = Object_assign (scaledParams M w h) ov.
Proof.
  intros Hn Hc Ha.
  pose proof (ready_created M w h hm ov (callsOf simulator) n Hn Hc) as H. cbv zeta in H.
  destruct H as (E & H).
  cbn [onmessage]. rewrite E, Ha. cbn [stateOf] in H.
  destruct (createDroplets M n _) as [ds s1]. cbn [fst snd] in H.
  eexists. split; [reflexivity | exact H].
Qed.

Lemma initialized_ready (M : MathEnv) (w h : Z) (hm : list Qc) (ov : Overlay)
    (numDroplets : nat) :
  (0 <= w * h)%Z ->
  consistentFlags (Object_assign (scaledParams M w h) ov) ->
  ready (initialized M w h hm ov numDroplets).
Proof.
  intros Hn Hc. unfold initialized. cbv zeta.
  apply (ready_created M w h hm ov 0 numDroplets Hn Hc).
Qed.

Lemma serve_acc (M : MathEnv) (requests : list Request) (simulator : Worker)
    (acc : list Response) :
  fold_left (fun (a : Worker * list Response) e =>
               let '(w, out) := onmessage M (fst a) e in (w, snd a ++ out))
            requests (simulator, acc)
  = (fst (serve M simulator requests), acc ++ snd (serve M simulator requests)).
Proof.
  unfold serve. revert simulator acc.
  induction requests as [| e es IH]; intros simulator acc; cbn [fold_left fst snd].
  - rewrite app_nil_r. reflexivity.
  - destruct (onmessage M simulator e) as [w out]. cbn [app].
    rewrite (IH w (acc ++ out)), (IH w out). cbn [fst snd]. rewrite app_assoc. reflexivity.
Qed.

Lemma serve_cons (M : MathEnv) (simulator : Worker) (e : Request) (requests : list Request) :
  serve M simulator (e :: requests)
  = (fst (serve M (fst (onmessage M simulator e)) requests),
     snd (onmessage M simulator e) ++ snd (serve M (fst (onmessage M simulator e)) requests)).
Proof.
  unfold serve at 1. cbn [fold_left fst snd].
  destruct (onmessage M simulator e) as [w out]. cbn [app fst snd]. apply serve_acc.
Qed.

Lemma serve_ready (M : MathEnv) (requests : list Request) (s : ErosionSimulator) :
  ready s ->
  forallb (fun e => negb (isInit e)) requests = true ->
  existsb isError (snd (serve M (Some s) requests)) = false
  /\ exists s', fst (serve M (Some s) requests) = Some s' /\ ready s'.
Proof.
  revert s. induction requests as [| e es IH]; intros s Hs Hno.
  - split; [reflexivity |]. exists s. split; [reflexivity | exact Hs].
  - cbn [forallb] in Hno. apply andb_prop in Hno as [He Hes].
    rewrite serve_cons.
    assert (Hone : exists s1, fst (onmessage M (Some s) e) = Some s1 /\ ready s1
                              /\ existsb isError (snd (onmessage M (Some s) e)) = false).
    { destruct e as [w h hm ov n | b | | | hm]; cbn [onmessage isInit negb] in *.
      - discriminate He.
      - destruct (ready_stepDroplets M b s Hs) as (s1 & E & H1). rewrite E.
        exists s1. split; [reflexivity |]. split; [exact H1 | reflexivity].
      - exists (pause s). split; [reflexivity |]. split; [exact Hs | reflexivity].
      - exists (resume s). split; [reflexivity |]. split; [exact Hs | reflexivity].
      - destruct (ready_reset M hm s Hs) as (s1 & E & H1). rewrite E.
        exists s1. split; [reflexivity |]. split; [exact H1 | reflexivity]. }
    destruct Hone as (s1 & E1 & H1 & Hout). rewrite E1. cbn [fst snd].
    destruct (IH s1 H1 Hes) as [Herr Hst].
    split; [| exact Hst]. rewrite existsb_app, Hout, Herr. reflexivity.
Qed.



(** ** Reset against construction *)

Lemma calls_cons (M : MathEnv) (s : ErosionSimulator) (c : Call) (cs : list Call) :
  calls M s (c :: cs) = calls M (call M s c) cs.
Proof. reflexivity. Qed.

Section ResetInvariant.
Variable M : MathEnv.
Variables w h : Z.
Variable p : Params.
Variable n : nat.
Hypothesis area : (0 <= w * h)%Z.

Local Abbreviation kept := (keptBy w h p n).

Lemma kept_stepDroplets (batchSize : Z) (s : ErosionSimulator) :
  kept s -> kept (stateOf (stepDroplets M batchSize s)).
Proof using Type.
  intros (Hw & Hh & Hp & Hd & Hf).
  pose proof (stepDroplets_shape M batchSize s) as Hsh.
  unfold shapeOf in Hsh. injection Hsh as Ew Eh Ep En _ _ Ef Em Et Es.
  destruct (droplets s) as [ds |] eqn:Eds; [| discriminate Hd].
  destruct (stepDroplets_pool_length M batchSize s ds Eds) as (ds' & Ed' & Hlen).
  unfold keptBy. rewrite Ew, Eh, Ep, Ed'. cbn [option_map] in *. rewrite Hlen.
  repeat (split; [assumption |]).
  unfold mapsFollowFlags in *. rewrite Ep, En.
  assert (Hnone : forall (a b : option (list Qc)),
            option_map length a = option_map length b -> b = None -> a = None).
  { intros [x |] [y |] E; try discriminate; reflexivity. }
  destruct Hf as (F1 & F2 & F3 & F4).
  split; [intros H; apply (Hnone _ _ Ef), F1, H |].
  split; [intros H; apply (Hnone _ _ Em), F2, H |].
  split; [exact F3 |].
  intros H. destruct (F4 H) as [T1 T2].
  split; [apply (Hnone _ _ Et), T1 | apply (Hnone _ _ Es), T2].
Qed.

Lemma kept_reset (newHeightMap : list Qc) (s : ErosionSimulator) :
  kept s ->
  exists s', reset M newHeightMap s = Normal s' /\ kept s'
             /\ heightMap s' = newHeightMap
             /\ mapsOf s'
                = ((if useFlowAccumulation p then Some (zeros (w * h)) else None),
                   (if useMultiScale p then Some (zeros (w * h)) else None),
                   (if useMicroDetails p
                    then Some (_initializeMicroDetailNoise p w h (zeros (w * h)))
                    else None),
                   (if useTalusFormation p then Some (zeros (w * h)) else None),
                   (if useTalusFormation p
                    then Some (_computeSlopeMap M w h newHeightMap (zeros (w * h)))
                    else None)).
Proof using area.
  intros (Hw & Hh & Hp & Hd & Hf).
  destruct (droplets s) as [ds |] eqn:Eds; [| discriminate Hd].
  destruct (reset_ok M newHeightMap s ds Eds) as (ds' & Hlen & _ & E).
  { rewrite Hw, Hh. exact area. }
  cbv zeta in E. rewrite Hw, Hh, Hp in E.
  eexists. split; [exact E |].
  unfold keptBy, mapsFollowFlags, mapsOf in *. rewrite Hp in Hf.
  cbn [width height params droplets heightMap flowMap microDetailMap microDetailNoise
       talusMap slopeMap option_map].
  cbn [option_map] in Hd. injection Hd as Hd. rewrite Hlen, Hd.
  destruct Hf as (F1 & F2 & F3 & F4).
  destruct (useFlowAccumulation p) eqn:E1, (useMultiScale p) eqn:E2,
    (useMicroDetails p) eqn:E3, (useTalusFormation p) eqn:E4;
    rewrite ?(F1 eq_refl), ?(F2 eq_refl), ?(F3 eq_refl),
      ?(proj1 (F4 eq_refl)), ?(proj2 (F4 eq_refl));
    repeat split; intros; try discriminate; reflexivity.
Qed.

Lemma kept_calls (cs : list Call) (s : ErosionSimulator) :
  kept s -> kept (calls M s cs).
Proof using area.
  revert s. induction cs as [| c cs IH]; intros s Hs; [exact Hs |].
  rewrite calls_cons. apply IH. destruct c as [b | hm]; cbn [call].
  - apply kept_stepDroplets, Hs.
  - destruct (kept_reset hm s Hs) as (s' & E & Hk & _). unfold call. rewrite E. exact Hk.
Qed.

Lemma kept_constructed (hm : list Qc) (ov : Overlay) (c : nat) (ds : list Droplet.t) :
  p = Object_assign (scaledParams M w h) ov -> length ds = n ->
  kept (with_droplets (stateOf (construct M w h hm ov c)) (Some ds)).
Proof using area.
  intros Hp Hn. rewrite construct_maps by exact area. cbv zeta. rewrite <- Hp.
  unfold keptBy, mapsFollowFlags.
  cbn [stateOf with_droplets width height params droplets flowMap microDetailMap
       microDetailNoise talusMap slopeMap option_map].
  rewrite Hn.
  destruct (useFlowAccumulation p), (useMultiScale p), (useMicroDetails p),
    (useTalusFormation p); repeat split; intros; try discriminate; reflexivity.
Qed.
End ResetInvariant.



(** ** The activity flag is never read *)

Section ActivityFlag.
Variable v : option bool.

Local Abbreviation flag := (flagged v).
Local Abbreviation flag2 := (flagged2 v).

Lemma flag__updateTalusFormation (s : ErosionSimulator) (x y erosion deposition : Qc) :
  _updateTalusFormation (flag s) x y erosion deposition
  = andThen flag (_updateTalusFormation s x y erosion deposition).
Proof using Type.
  unfold _updateTalusFormation, flagged.
  cbn [params slopeMap talusMap heightMap width with_dropletsActive].
  destruct (negb _); [reflexivity |].
  destruct (slopeMap s); [| reflexivity].
  destruct (geb _ _ && leb _ _); [| reflexivity].
  destruct (talusMap s); reflexivity.
Qed.

Lemma flag_microDetails (es : Qc) (s : ErosionSimulator) (d : Droplet.t)
    (cellX cellY : Z) (offX offY amount : Qc) :
  microDetails es (flag s) d cellX cellY offX offY amount
  = andThen flag (microDetails es s d cellX cellY offX offY amount).
Proof using Type.
  unfold microDetails, flagged.
  cbn [params microDetailNoise microDetailMap width height with_dropletsActive].
  destruct (useMicroDetails (params s)); [| reflexivity].
  destruct (microDetailNoise s); [| reflexivity].
  destruct (_bilinearAdd_field _ _ _ _ _ _ _ _); reflexivity.
Qed.

Lemma flag_erodeOrDeposit (M : MathEnv) (es : Qc) (s : ErosionSimulator) (d : Droplet.t)
    (cellX cellY : Z) (offX offY newH capacity : Qc) :
  erodeOrDeposit M es (flag s) d cellX cellY offX offY newH capacity
  = match erodeOrDeposit M es s d cellX cellY offX offY newH capacity with
    | Normal r => Normal (flag2 r)
    | Throw e r => Throw e (flag2 r)
    end.
Proof using Type.
  unfold erodeOrDeposit.
  change (params (flag s)) with (params s). change (width (flag s)) with (width s).
  change (height (flag s)) with (height s). change (heightMap (flag s)) with (heightMap s).
  assert (Hgo : forall value e dp d',
    bind (_updateTalusFormation
            (with_heightMap (flag s)
               (_bilinearAdd (width s) (height s) (heightMap s) cellX cellY offX offY value))
            (Droplet.x d) (Droplet.y d) e dp)
      (fun s2 =>
         bind (microDetails es s2 d cellX cellY offX offY value)
           (fun s3 => Normal (s3, d'))
           (fun s3 => (s3, d)))
      (fun s2 => (s2, d))
    = match bind (_updateTalusFormation
                    (with_heightMap s
                       (_bilinearAdd (width s) (height s) (heightMap s) cellX cellY
                                     offX offY value))
                    (Droplet.x d) (Droplet.y d) e dp)
              (fun s2 =>
                 bind (microDetails es s2 d cellX cellY offX offY value)
                   (fun s3 => Normal (s3, d'))
                   (fun s3 => (s3, d)))
              (fun s2 => (s2, d)) with
      | Normal r => Normal (flag2 r)
      | Throw e r => Throw e (flag2 r)
      end).
  { intros value e dp d'.
    change (with_heightMap (flag s)
              (_bilinearAdd (width s) (height s) (heightMap s) cellX cellY offX offY value))
      with (flag (with_heightMap s
              (_bilinearAdd (width s) (height s) (heightMap s) cellX cellY offX offY value))).
    rewrite flag__updateTalusFormation.
    destruct (_updateTalusFormation _ (Droplet.x d) (Droplet.y d) e dp) as [s2 | ex s2];
      cbn [andThen bind]; [| reflexivity].
    rewrite flag_microDetails.
    destruct (microDetails es s2 d cellX cellY offX offY value); reflexivity. }
  destruct (gtb (Droplet.sediment d) capacity); [apply Hgo |].
  destruct (gtb _ 0); [apply Hgo | reflexivity].
Qed.

Lemma flag_subStep (M : MathEnv) (es : Qc) (r : ErosionSimulator * Droplet.t) :
  subStep M es (flag2 r)
  = match subStep M es r with
    | Normal r' => Normal (flag2 r')
    | Throw e r' => Throw e (flag2 r')
    end.
Proof using Type.
  destruct r as [s d]. unfold flagged2. cbn [fst snd]. unfold subStep.
  change (moveDroplet M es (flag s) d) with (moveDroplet M es s d).
  change (outOfBounds (flag s) (moveDroplet M es s d))
    with (outOfBounds s (moveDroplet M es s d)).
  change (params (flag s)) with (params s). change (width (flag s)) with (width s).
  change (height (flag s)) with (height s). change (heightMap (flag s)) with (heightMap s).
  destruct (outOfBounds s (moveDroplet M es s d)); [reflexivity |].
  match goal with
  | |- context [flowAccumulation es (flag s) ?d2 ?cap] =>
      assert (Hf : flowAccumulation es (flag s) d2 cap
                   = match flowAccumulation es s d2 cap with
                     | inl e => inl e
                     | inr (s1, c1) => inr (flag s1, c1)
                     end)
        by (unfold flowAccumulation;
            change (params (flag s)) with (params s);
            change (flowMap (flag s)) with (flowMap s);
            change (width (flag s)) with (width s);
            destruct (useFlowAccumulation (params s)); [| reflexivity];
            destruct (flowMap s); reflexivity);
      rewrite Hf; destruct (flowAccumulation es s d2 cap) as [ex | [s1 cap1]]
  end; [reflexivity |].
  rewrite flag_erodeOrDeposit.
  destruct (erodeOrDeposit M es s1 _ _ _ _ _ _ _) as [[s3 d3] | ex [s3 d3]]; reflexivity.
Qed.

Lemma flag_forSteps (body : ErosionSimulator * Droplet.t -> Completion (ErosionSimulator * Droplet.t))
    (bound : Qc) :
  (forall r, body (flag2 r) = match body r with
                              | Normal r' => Normal (flag2 r')
                              | Throw e r' => Throw e (flag2 r')
                              end) ->
  forall fuel step r,
    forSteps fuel step bound body (flag2 r)
    = (fst (forSteps fuel step bound body r),
       match snd (forSteps fuel step bound body r) with
       | Normal r' => Normal (flag2 r')
       | Throw e r' => Throw e (flag2 r')
       end).
Proof using Type.
  intros Hbody. induction fuel as [| fuel IH]; intros step r; cbn [forSteps].
  - reflexivity.
  - destruct (ltb (Z2Qc step) bound); [| reflexivity].
    rewrite Hbody. destruct (body r) as [r' | e r']; [apply IH | reflexivity].
Qed.

Lemma flag_dropletLoop (M : MathEnv) (n i : nat) (activeCount batchSize : Z)
    (s : ErosionSimulator) (ds : list Droplet.t) :
  dropletLoop M n i activeCount batchSize (flag s) ds
  = match dropletLoop M n i activeCount batchSize s ds with
    | Normal r => Normal (flag (fst r), snd r)
    | Throw e r => Throw e (flag (fst r), snd r)
    end.
Proof using Type.
  revert i activeCount s ds.
  induction n as [| n IH]; intros i activeCount s ds; cbn [dropletLoop]; [reflexivity |].
  destruct (ds !! i) as [d |]; [| reflexivity].
  destruct (activeCount <? batchSize)%Z; [| reflexivity].
  destruct (negb (Droplet.alive d)); [apply IH |].
  unfold subSteps. change (width (flag s)) with (width s).
  change (height (flag s)) with (height s).
  change (flag s, d) with (flag2 (s, d)).
  rewrite (flag_forSteps _ _ (flag_subStep M _)). cbn [snd].
  destruct (snd (forSteps 2 0 _ _ (s, d))) as [[s' d'] | e [s' d']]; cbn [flagged2 fst snd].
  - apply IH.
  - reflexivity.
Qed.

Lemma flag_refreshSlopeMap (M : MathEnv) (s : ErosionSimulator) :
  refreshSlopeMap M (flag s) = andThen flag (refreshSlopeMap M s).
Proof using Type.
  unfold refreshSlopeMap, flagged.
  cbn [params randomCalls slopeMap width height heightMap with_dropletsActive with_randomCalls].
  destruct (useTalusFormation (params s)); [| reflexivity].
  destruct (ltb _ _); [| reflexivity].
  destruct (slopeMap s); [reflexivity |].
  destruct (range 1 (height s - 1)); [reflexivity |].
  destruct (range 1 (width s - 1)); reflexivity.
Qed.

Lemma flag_stepDroplets (M : MathEnv) (batchSize : Z) (s : ErosionSimulator) :
  stepDroplets M batchSize (flag s) = andThen flag (stepDroplets M batchSize s).
Proof using Type.
  unfold stepDroplets. change (droplets (flag s)) with (droplets s).
  destruct (droplets s) as [ds |]; [| reflexivity].
  rewrite flag_dropletLoop.
  destruct (dropletLoop M (length ds) 0 0 batchSize s ds) as [[s' ds'] | e [s' ds']];
    cbn [bind fst snd]; [| reflexivity].
  change (with_droplets (flag s') (Some ds')) with (flag (with_droplets s' (Some ds'))).
  apply flag_refreshSlopeMap.
Qed.
End ActivityFlag.

(** X19. stepDroplets never reads dropletsActive: a step on a paused (or
    resumed) engine does exactly what it does on the same engine not
    paused, the flag apart, so it moves the same droplets, gives the same
    height map and returns the same alive value. *)
Theorem pause_does_not_stop_steps (M : MathEnv) (batchSize : Z) (s : ErosionSimulator) :
  stepDroplets M batchSize (pause s) = andThen pause (stepDroplets M batchSize s)
  /\ stepDroplets M batchSize (resume s) = andThen resume (stepDroplets M batchSize s)
  /\ anyAlive (stateOf (stepDroplets M batchSize (pause s)))
     = anyAlive (stateOf (stepDroplets M batchSize s))
  /\ heightMap (stateOf (stepDroplets M batchSize (pause s)))
     = heightMap (stateOf (stepDroplets M batchSize s)).
Proof.
  pose proof (flag_stepDroplets (Some false) M batchSize s) as Hp.
  pose proof (flag_stepDroplets (Some true) M batchSize s) as Hr.
  split; [exact Hp |]. split; [exact Hr |].
  unfold pause. unfold flagged in Hp. rewrite Hp.
  destruct (stepDroplets M batchSize s); split; reflexivity.
Qed.

(** ** The auxiliary maps *)

Section AuxiliaryMaps.
Variable M : MathEnv.
Variable p : Params.
(** [Pm] speaks of the micro-detail map, [Pt] of the talus map. *)
Variable Pm Pt : list Qc -> Prop.
Hypothesis Pm_zeros : forall n, Pm (zeros n).
Hypothesis Pt_zeros : forall n, Pt (zeros n).
Hypothesis Pm_add : forall w h m x y offX offY value,
  Pm m -> Pm (_bilinearAdd w h m x y offX offY value).
Hypothesis Pt_set : forall t i c,
  Pt t -> Pt (set t i (Math_max 0 (Math_min c (talusMaxHeight p)))).

Lemma aux__updateTalusFormation (s : ErosionSimulator) (x y erosion deposition : Qc) :
  auxKept p Pm Pt s -> auxKept p Pm Pt (stateOf (_updateTalusFormation s x y erosion deposition)).
Proof using Pt_set.
  intros Hs. pose proof Hs as (Hp & Hm & Ht). unfold _updateTalusFormation. rewrite Hp.
  destruct (negb _); [exact Hs |].
  destruct (slopeMap s); [| exact Hs].
  destruct (geb _ _ && leb _ _); [| exact Hs].
  destruct (talusMap s) as [tm |] eqn:Et; [| exact Hs].
  cbn [stateOf]. unfold auxKept.
  cbn [params microDetailMap talusMap with_heightMap with_talusMap].
  split; [exact Hp |]. split; [exact Hm |].
  intros t E. injection E as <-. apply Pt_set, Ht. reflexivity.
Qed.

Lemma aux_microDetails (es : Qc) (s : ErosionSimulator) (d : Droplet.t)
    (cellX cellY : Z) (offX offY amount : Qc) :
  auxKept p Pm Pt s -> auxKept p Pm Pt (stateOf (microDetails es s d cellX cellY offX offY amount)).
Proof using Pm_add.
  intros Hs. pose proof Hs as (Hp & Hm & Ht). unfold microDetails.
  destruct (useMicroDetails (params s)); [| exact Hs].
  destruct (microDetailNoise s); [| exact Hs].
  unfold _bilinearAdd_field.
  destruct (inGrid _ _ _ _).
  - destruct (microDetailMap s) as [m |] eqn:Em; [| exact Hs].
    cbn [stateOf]. unfold auxKept. cbn [params microDetailMap talusMap with_microDetailMap].
    split; [exact Hp |]. split; [| exact Ht].
    intros m' E. injection E as <-. apply Pm_add, Hm. reflexivity.
  - cbn [stateOf]. unfold auxKept. cbn [params microDetailMap talusMap with_microDetailMap].
    repeat split; assumption.
Qed.

Lemma aux_erodeOrDeposit (es : Qc) (s : ErosionSimulator) (d : Droplet.t)
    (cellX cellY : Z) (offX offY newH capacity : Qc) :
  auxKept p Pm Pt s ->
  auxKept p Pm Pt (fst (stateOf (erodeOrDeposit M es s d cellX cellY offX offY newH capacity))).
Proof using Pm_add Pt_set.
  intros Hs. unfold erodeOrDeposit.
  assert (Hadd : forall a, auxKept p Pm Pt (with_heightMap s a)) by (intros a; exact Hs).
  destruct (gtb (Droplet.sediment d) capacity).
  - match goal with
    | |- context [_updateTalusFormation ?s1 ?x ?y ?e ?dp] =>
        pose proof (aux__updateTalusFormation s1 x y e dp (Hadd _)) as H1;
        destruct (_updateTalusFormation s1 x y e dp) as [s2 | ex s2]
    end; cbn [bind stateOf fst] in *; [| exact H1].
    match goal with
    | |- context [microDetails ?a ?b ?c ?e ?f ?g ?h ?i] =>
        pose proof (aux_microDetails a b c e f g h i H1) as H2;
        destruct (microDetails a b c e f g h i)
    end; cbn [bind stateOf fst] in *; exact H2.
  - destruct (gtb _ 0); [| exact Hs].
    match goal with
    | |- context [_updateTalusFormation ?s1 ?x ?y ?e ?dp] =>
        pose proof (aux__updateTalusFormation s1 x y e dp (Hadd _)) as H1;
        destruct (_updateTalusFormation s1 x y e dp) as [s2 | ex s2]
    end; cbn [bind stateOf fst] in *; [| exact H1].
    match goal with
    | |- context [microDetails ?a ?b ?c ?e ?f ?g ?h ?i] =>
        pose proof (aux_microDetails a b c e f g h i H1) as H2;
        destruct (microDetails a b c e f g h i)
    end; cbn [bind stateOf fst] in *; exact H2.
Qed.

Lemma aux_subStep (es : Qc) (s : ErosionSimulator) (d : Droplet.t) :
  auxKept p Pm Pt s -> True ->
  auxKept p Pm Pt (fst (stateOf (subStep M es (s, d)))) /\ True.
Proof using Pm_add Pt_set.
  intros Hs _. split; [| exact I]. unfold subStep.
  destruct (outOfBounds s _); [exact Hs |].
  match goal with
  | |- context [flowAccumulation ?a ?b ?c ?e] =>
      assert (Hf : match flowAccumulation a b c e with
                   | inl _ => True
                   | inr (s1, _) => auxKept p Pm Pt s1
                   end);
      [ unfold flowAccumulation;
        destruct (useFlowAccumulation (params b)); [destruct (flowMap b) |]; try exact I;
        exact Hs
      | destruct (flowAccumulation a b c e) as [ex | [s1 cap]] ]
  end; [exact Hs |].
  match goal with
  | |- context [erodeOrDeposit ?a ?b ?c ?e ?f ?g ?h ?i ?j ?k] =>
      pose proof (aux_erodeOrDeposit b c e f g h i j k Hf) as He;
      destruct (erodeOrDeposit a b c e f g h i j k) as [[s3 d3] | ex [s3 d3]]
  end; cbn [bind stateOf fst snd id] in *; exact He.
Qed.

Lemma aux_stepDroplets (batchSize : Z) (s : ErosionSimulator) :
  auxKept p Pm Pt s -> auxKept p Pm Pt (stateOf (stepDroplets M batchSize s)).
Proof using Pm_add Pt_set.
  intros Hs.
  apply (stepDroplets_keeps M (auxKept p Pm Pt) (fun _ => True)); try assumption.
  - intros es s0 d0. apply aux_subStep.
  - intros s0 v H0. exact H0.
  - intros s0 v H0. exact H0.
  - intros s0 v H0. exact H0.
  - intros ds _. apply Forall_forall. easy.
Qed.

Lemma aux_reset (newHeightMap : list Qc) (s : ErosionSimulator) :
  auxKept p Pm Pt s -> auxKept p Pm Pt (stateOf (reset M newHeightMap s)).
Proof using Pm_zeros Pt_zeros.
  intros (Hp & Hm & Ht). unfold reset. cbn [droplets with_heightMap].
  destruct (droplets s) as [ds |]; [| repeat split; assumption].
  pose proof (createDroplets_fresh M (length ds) (with_heightMap s newHeightMap))
    as (_ & _ & Hsame).
  destruct (createDroplets M (length ds) (with_heightMap s newHeightMap)) as [ds' s2].
  cbn [snd randomCalls with_heightMap] in Hsame.
  assert (H2 : params s2 = p /\ microDetailMap s2 = microDetailMap s
               /\ talusMap s2 = talusMap s).
  { destruct s2 as [w1 h1 hm1 p1 fm1 mm1 mn1 tm1 sm1 ds1 da1 rc1]. cbn in Hsame.
    unfold with_heightMap in Hsame. injection Hsame as -> -> -> -> -> -> -> -> -> -> ->.
    cbn. repeat split. exact Hp. }
  destruct H2 as (Hp2 & Hm2 & Ht2).
  unfold allocateMaps.
  cbn [params width height with_droplets].
  rewrite Hp2.
  destruct (useFlowAccumulation p), (useMultiScale p), (useMicroDetails p),
    (useTalusFormation p), (width s2 * height s2 <? 0)%Z;
    cbn; unfold auxKept; cbn; rewrite ?Hm2, ?Ht2;
    (split; [exact Hp2 |]); split; try assumption;
    intros a E; injection E as <-; auto.
Qed.

Lemma aux_calls (cs : list Call) (s : ErosionSimulator) :
  auxKept p Pm Pt s -> auxKept p Pm Pt (calls M s cs).
Proof using Pm_zeros Pt_zeros Pm_add Pt_set.
  revert s. induction cs as [| c cs IH]; intros s Hs; [exact Hs |].
  rewrite calls_cons. apply IH. destruct c as [b | hm]; unfold call.
  - apply aux_stepDroplets, Hs.
  - apply aux_reset, Hs.
Qed.
End AuxiliaryMaps.

Lemma calls_steps_shape (M : MathEnv) (batches : list Z) (s : ErosionSimulator) :
  shapeOf (calls M s (map CallStep batches)) = shapeOf s.
Proof.
  revert s. induction batches as [| b bs IH]; intros s; [reflexivity |].
  cbn [map]. rewrite calls_cons, IH. unfold call. apply stepDroplets_shape.
Qed.

Lemma calls_steps_maps (M : MathEnv) (batches : list Z) (s : ErosionSimulator) :
  option_map length (microDetailMap (calls M s (map CallStep batches)))
  = option_map length (microDetailMap s)
  /\ option_map length (talusMap (calls M s (map CallStep batches)))
     = option_map length (talusMap s).
Proof.
  pose proof (calls_steps_shape M batches s) as Hsh.
  unfold shapeOf in Hsh. injection Hsh as _ _ _ _ _ _ _ Em Et _.
  split; assumption.
Qed.




(** ** The simulation comes to an end *)

Lemma erodeOrDeposit_droplet (M : MathEnv) (es : Qc) (s : ErosionSimulator) (d : Droplet.t)
    (cellX cellY : Z) (offX offY newH capacity : Qc) :
  let r := stateOf (erodeOrDeposit M es s d cellX cellY offX offY newH capacity) in
  Droplet.lifetime (snd r) = Droplet.lifetime d /\ Droplet.alive (snd r) = Droplet.alive d.
Proof.
  cbv zeta. unfold erodeOrDeposit.
  destruct (gtb (Droplet.sediment d) capacity).
  - destruct (_updateTalusFormation _ _ _ _ _) as [s2 | ex s2]; cbn [bind stateOf snd];
      [| split; reflexivity].
    destruct (microDetails _ _ _ _ _ _ _ _); cbn [bind stateOf snd]; split; reflexivity.
  - destruct (gtb _ 0); [| split; reflexivity].
    destruct (_updateTalusFormation _ _ _ _ _) as [s2 | ex s2]; cbn [bind stateOf snd];
      [| split; reflexivity].
    destruct (microDetails _ _ _ _ _ _ _ _); cbn [bind stateOf snd]; split; reflexivity.
Qed.

Lemma subStep_budget (M : MathEnv) (es : Qc) (s s' : ErosionSimulator) (d d' : Droplet.t) :
  subStep M es (s, d) = Normal (s', d') ->
  (lifeBudget (params s) d' <= lifeBudget (params s) d)%nat
  /\ (Droplet.alive d = true -> (lifeBudget (params s) d' < lifeBudget (params s) d)%nat).
Proof.
  unfold subStep.
  destruct (outOfBounds s (moveDroplet M es s d)).
  - intros E. injection E as _ <-. unfold lifeBudget. cbn [kill Droplet.alive].
    split; [lia |]. intros ->. lia.
  - destruct (flowAccumulation _ _ _ _) as [ex | [s1 cap]]; [discriminate |].
    match goal with
    | |- context [erodeOrDeposit ?a ?b ?c ?e ?f ?g ?h ?i ?j ?k] =>
        pose proof (erodeOrDeposit_droplet a b c e f g h i j k) as Hd;
        destruct (erodeOrDeposit a b c e f g h i j k) as [[s3 d3] | ex [s3 d3]]
    end; cbn [bind stateOf fst snd] in *; [| discriminate].
    cbn [with_speed moveDroplet Droplet.lifetime Droplet.alive] in Hd.
    destruct Hd as [Hl Ha].
    intros E. injection E as _ <-. unfold lifeBudget, evaporate.
    cbn [Droplet.alive Droplet.lifetime]. rewrite Hl, Ha.
    destruct (ltb _ _ || gtb (Z2Qc (Droplet.lifetime d + 1)) (maxDropletLifetime (params s))
              || ltb _ _) eqn:Ek.
    + split; [lia |]. intros ->. lia.
    + destruct (Droplet.alive d); [| split; [lia | discriminate]].
      apply orb_false_elim in Ek as [Ek _]. apply orb_false_elim in Ek as [_ Ek].
      unfold gtb in Ek. apply ltb_ge in Ek.
      assert (Hfl : (Droplet.lifetime d + 1 <= Math_floor (maxDropletLifetime (params s)))%Z).
      { pose proof (Math_floor_lt (maxDropletLifetime (params s))) as Hlt.
        assert (A : Z2Qc (Droplet.lifetime d + 1)
                    < Z2Qc (Math_floor (maxDropletLifetime (params s)) + 1)).
        { rewrite (Z2Qc_plus (Math_floor _) 1). change (Z2Qc 1) with 1.
          eapply Qcle_lt_trans'; eassumption. }
        apply Z2Qc_lt in A. lia. }
      split; [lia |]. intros _. lia.
Qed.

Lemma subSteps_budget (M : MathEnv) (s s' : ErosionSimulator) (d d' : Droplet.t) :
  0 < resolutionScale M (width s) (height s) ->
  snd (subSteps M s d) = Normal (s', d') ->
  (lifeBudget (params s) d' <= lifeBudget (params s) d)%nat
  /\ (Droplet.alive d = true -> (lifeBudget (params s) d' < lifeBudget (params s) d)%nat).
Proof.
  intros Hrs. rewrite subSteps_unfold. cbv zeta.
  apply ltb_lt in Hrs. rewrite Hrs.
  destruct (subStep M _ (s, d)) as [[s1 d1] | e [s1 d1]] eqn:E1; [| discriminate].
  destruct (subStep_budget M _ s s1 d d1 E1) as [L1 S1].
  pose proof (shape_subStep M (erosionScale M (width s) (height s)) s d) as Hsh.
  rewrite E1 in Hsh. cbn [stateOf fst] in Hsh.
  assert (Hp : params s1 = params s) by (unfold shapeOf in Hsh; congruence).
  destruct (ltb 1 _).
  - destruct (subStep M _ (s1, d1)) as [[s2 d2] | e [s2 d2]] eqn:E2; [| discriminate].
    destruct (subStep_budget M _ s1 s2 d1 d2 E2) as [L2 _]. rewrite Hp in L2.
    cbn [snd]. intros E. injection E as _ <-.
    split; [lia |]. intros Ha. specialize (S1 Ha). lia.
  - cbn [snd]. intros E. injection E as _ <-. split; assumption.
Qed.

Lemma poolBudget_cons (p : Params) (d : Droplet.t) (ds : list Droplet.t) :
  poolBudget p (d :: ds) = (lifeBudget p d + poolBudget p ds)%nat.
Proof. reflexivity. Qed.

Lemma poolBudget_insert (p : Params) (ds : list Droplet.t) (i : nat) (d d' : Droplet.t) :
  ds !! i = Some d ->
  (poolBudget p (<[i := d']> ds) + lifeBudget p d = poolBudget p ds + lifeBudget p d')%nat.
Proof.
  revert i. induction ds as [| c ds IH]; intros i H; [discriminate |].
  destruct i as [| i].
  - injection H as ->. change (<[0%nat := d']> (d :: ds)) with (d' :: ds).
    rewrite !poolBudget_cons. lia.
  - change (<[S i := d']> (c :: ds)) with (c :: <[i := d']> ds).
    rewrite !poolBudget_cons. specialize (IH i H). lia.
Qed.

Lemma lifeBudget_alive (p : Params) (d : Droplet.t) :
  Droplet.alive d = true -> (0 < lifeBudget p d)%nat.
Proof. unfold lifeBudget. intros ->. lia. Qed.

Lemma poolBudget_dead (p : Params) (ds : list Droplet.t) :
  existsb Droplet.alive ds = false <-> poolBudget p ds = 0%nat.
Proof.
  induction ds as [| d ds IH]; [split; reflexivity |].
  rewrite poolBudget_cons. cbn [existsb]. unfold lifeBudget.
  destruct (Droplet.alive d); cbn [orb].
  - split; [discriminate | lia].
  - rewrite IH. lia.
Qed.

Lemma dropletLoop_budget (M : MathEnv) (n i : nat) (activeCount batchSize : Z)
    (s : ErosionSimulator) (ds : list Droplet.t) :
  mapsReady s ->
  0 < resolutionScale M (width s) (height s) ->
  (length ds <= i + n)%nat ->
  exists s' ds',
    dropletLoop M n i activeCount batchSize s ds = Normal (s', ds')
    /\ (poolBudget (params s) ds' <= poolBudget (params s) ds)%nat
    /\ (take (Z.to_nat (batchSize - activeCount)) (aliveFrom i ds) <> [] ->
        (poolBudget (params s) ds' < poolBudget (params s) ds)%nat).
Proof.
  revert i activeCount s ds.
  induction n as [| n IH]; intros i activeCount s ds Hs Hrs Hn; cbn [dropletLoop].
  - exists s, ds. split; [reflexivity |]. split; [lia |].
    rewrite aliveFrom_beyond by (apply lookup_ge_None; lia).
    rewrite take_nil. intros Habs. exfalso. apply Habs. reflexivity.
  - destruct (ds !! i) as [d |] eqn:Hd.
    2:{ exists s, ds. split; [reflexivity |]. split; [lia |].
        rewrite aliveFrom_beyond by exact Hd. rewrite take_nil. intros Habs. exfalso. apply Habs. reflexivity. }
    destruct (Z.ltb_spec activeCount batchSize) as [Hlt | Hge].
    2:{ exists s, ds. split; [reflexivity |]. split; [lia |].
        replace (Z.to_nat (batchSize - activeCount)) with 0%nat by lia. cbn [take]. intros Habs. exfalso. apply Habs. reflexivity. }
    rewrite (aliveFrom_unfold i ds d Hd).
    destruct (Droplet.alive d) eqn:Ha; cbn [negb app].
    + destruct (subSteps_safe M s d Hs) as (s1 & d1 & E1 & Hsh). rewrite E1.
      destruct (subSteps_budget M s s1 d d1 Hrs E1) as [_ Hstrict]. specialize (Hstrict Ha).
      assert (Hp : params s1 = params s /\ width s1 = width s /\ height s1 = height s)
        by (unfold shapeOf in Hsh; injection Hsh as -> -> -> _ _ _ _ _ _ _; repeat split).
      destruct Hp as (Hp & Hw & Hh).
      destruct (IH (i + 1)%nat (activeCount + 1)%Z s1 (<[i := d1]> ds)) as (s' & ds' & E & Hle & _).
      * eapply mapsReady_shape; eassumption.
      * rewrite Hw, Hh. exact Hrs.
      * rewrite length_insert. lia.
      * exists s', ds'. split; [exact E |].
        pose proof (poolBudget_insert (params s) ds i d d1 Hd) as Hins.
        rewrite Hp in Hle. split; [lia |]. intros _. lia.
    + replace (i + 1)%nat with (S i) by lia. apply IH; [assumption | assumption | lia].
Qed.

Lemma stepDroplets_budget (M : MathEnv) (batchSize : Z) (s : ErosionSimulator)
    (ds : list Droplet.t) :
  ready s ->
  0 < resolutionScale M (width s) (height s) ->
  (1 <= batchSize)%Z ->
  droplets s = Some ds ->
  exists s' ds',
    stepDroplets M batchSize s = Normal s' /\ droplets s' = Some ds'
    /\ ready s' /\ params s' = params s /\ width s' = width s /\ height s' = height s
    /\ (poolBudget (params s) ds' <= poolBudget (params s) ds - 1)%nat.
Proof.
  intros Hs Hrs Hb Hds.
  destruct (ready_stepDroplets M batchSize s Hs) as (s' & E & Hs').
  pose proof (stepDroplets_shape M batchSize s) as Hsh. rewrite E in Hsh. cbn [stateOf] in Hsh.
  assert (Hp : params s' = params s /\ width s' = width s /\ height s' = height s)
    by (unfold shapeOf in Hsh; injection Hsh as -> -> -> _ _ _ _ _ _ _; repeat split).
  destruct Hs as (Hm & _).
  pose proof E as E0. unfold stepDroplets in E. rewrite Hds in E.
  destruct (dropletLoop_budget M (length ds) 0 0 batchSize s ds Hm Hrs ltac:(lia))
    as (s1 & ds1 & E1 & Hle & Hlt).
  rewrite E1 in E. cbn [bind fst snd] in E.
  destruct (refreshSlopeMap_frame M (with_droplets s1 (Some ds1))) as (_ & _ & Hd & _).
  rewrite E in Hd. cbn [stateOf droplets with_droplets] in Hd.
  exists s', ds1. split; [exact E0 |]. split; [exact Hd |]. split; [exact Hs' |].
  destruct Hp as (P1 & P2 & P3). repeat (split; [assumption |]).
  destruct (existsb Droplet.alive ds) eqn:Hal.
  - assert (Hne : take (Z.to_nat (batchSize - 0)) (aliveFrom 0 ds) <> []).
    { apply existsb_exists in Hal as (d & Hin & Ha).
      apply list_elem_of_In, list_elem_of_lookup_1 in Hin as [j Hj].
      assert (Hj' : In j (aliveFrom 0 ds)).
      { unfold aliveFrom. apply filter_In. split.
        - apply in_seq. pose proof (lookup_lt_Some _ _ _ Hj). lia.
        - rewrite Hj. exact Ha. }
      destruct (aliveFrom 0 ds) as [| k l]; [destruct Hj' |].
      replace (Z.to_nat (batchSize - 0)) with (S (Z.to_nat (batchSize - 1))) by lia.
      cbn [take]. discriminate. }
    specialize (Hlt Hne). lia.
  - apply (poolBudget_dead (params s)) in Hal. lia.
Qed.

(** X22. On an engine ready to step (the maps its flags use exist, it has a
    pool, its area is not negative, useMicroDetails comes with
    useMultiScale), with a positive resolution scale and a batch size >=
    1, repeated calls of stepDroplets end: after as many calls as the sum,
    over the alive droplets, of floor(maxDropletLifetime) + 2 - lifetime,
    no droplet is alive. *)
Theorem stepping_terminates (M : MathEnv) (batchSize : Z) (s : ErosionSimulator)
    (ds : list Droplet.t) (calls_made : nat) :
  ready s ->
  0 < resolutionScale M (width s) (height s) ->
  (1 <= batchSize)%Z ->
  droplets s = Some ds ->
  (poolBudget (params s) ds <= calls_made)%nat ->
  anyAlive (calls M s (repeat (CallStep batchSize) calls_made)) = false.
Proof.
  revert s ds. induction calls_made as [| k IH]; intros s ds Hs Hrs Hb Hds Hn.
  - cbn [repeat calls fold_left]. unfold anyAlive. rewrite Hds.
    apply (poolBudget_dead (params s)). lia.
  - cbn [repeat]. rewrite calls_cons. unfold call at 1.
    destruct (stepDroplets_budget M batchSize s ds Hs Hrs Hb Hds)
      as (s' & ds' & E & Hd' & Hs' & Hp & Hw & Hh & Hle).
    rewrite E. cbn [stateOf].
    apply (IH s' ds'); try assumption.
    + rewrite Hw, Hh. exact Hrs.
    + rewrite Hp. lia.
Qed.

Lemma stepping_terminates_witness :
  let s := initialized exampleMath 4 4 (replicate 16 1) plainOverlay 1 in
  anyAlive (calls exampleMath s
              (repeat (CallStep 1)
                      (poolBudget (params s) (default [] (droplets s))))) = false.
Proof.
  apply (stepping_terminates exampleMath 1
           (initialized exampleMath 4 4 (replicate 16 1) plainOverlay 1)
           (default [] (droplets (initialized exampleMath 4 4 (replicate 16 1) plainOverlay 1)))
           (poolBudget (params (initialized exampleMath 4 4 (replicate 16 1) plainOverlay 1))
              (default [] (droplets (initialized exampleMath 4 4 (replicate 16 1)
                                       plainOverlay 1))))).
  - apply initialized_ready; [lia | intros _; reflexivity].
  - qcompute.
  - lia.
  - vm_compute. reflexivity.
  - apply le_n.
Defined.

(** ** The client of the worker *)

Lemma filter_all {A : Type} (f : A -> bool) (l : list A) :
  (forall x, In x l -> f x = true) -> List.filter f l = l.
Proof.
  induction l as [| x l IH]; intros H; cbn [List.filter]; [reflexivity |].
  rewrite (H x (or_introl eq_refl)). f_equal. apply IH. intros y Hy. apply H. right. exact Hy.
Qed.

Lemma flat_map_none {A B : Type} (f : A -> list B) (l : list A) :
  (forall x, In x l -> f x = []) -> flat_map f l = [].
Proof.
  induction l as [| x l IH]; intros H; cbn [flat_map]; [reflexivity |].
  rewrite (H x (or_introl eq_refl)). apply IH. intros y Hy. apply H. right. exact Hy.
Qed.

Lemma deliver_ignored (c : ErosionWorkerService.t) (r : Response) :
  (forall e, ErosionWorkerService.messageHandler e r = None) ->
  ErosionWorkerService.deliver c r = c.
Proof.
  intros H. unfold ErosionWorkerService.deliver. destruct c as [ls st n].
  cbn [ErosionWorkerService.listeners ErosionWorkerService.settled ErosionWorkerService.made].
  rewrite filter_all by (intros l _; rewrite H; reflexivity).
  rewrite flat_map_none by (intros l _; rewrite H; reflexivity).
  rewrite app_nil_r. reflexivity.
Qed.

Lemma error_ignored (e : Request) (message : ErrorText) :
  ErosionWorkerService.messageHandler e (Error message) = None.
Proof. destruct e; reflexivity. Qed.

Lemma progress_ignored (e : Request) (heightMap : list Qc) :
  ErosionWorkerService.messageHandler e (Progress heightMap) = None.
Proof. destruct e; reflexivity. Qed.

(** X23. While no init has been sent, no call is settled: after any
    sequence of step, pause, resume and reset calls made on a new service
    before any init, the worker still holds no simulator (it has answered
    each call with a message of type error, which no handler of the
    service accepts), no promise has been resolved or rejected, and the
    handlers of all the calls are still registered, in call order. *)
Theorem calls_before_init_settle_nothing (M : MathEnv) (requests : list Request) :
  forallb (fun e => negb (isInit e)) requests = true ->
  let wc := fold_left (ErosionWorkerService.exchange M) requests
                      (None, ErosionWorkerService.new) in
  fst wc = None
  /\ ErosionWorkerService.settled (snd wc) = []
  /\ map snd (ErosionWorkerService.listeners (snd wc)) = requests.
Proof.
  intros Hno. cbv zeta.
  assert (Hgen : forall rs c,
            forallb (fun e => negb (isInit e)) rs = true ->
            fold_left (ErosionWorkerService.exchange M) rs (None, c)
            = (None, fold_left ErosionWorkerService.register rs c)).
  { induction rs as [| e rs IH]; intros c Hrs; [reflexivity |].
    cbn [forallb] in Hrs. apply andb_prop in Hrs as [He Hrs].
    cbn [fold_left]. rewrite <- IH by exact Hrs. f_equal.
    unfold ErosionWorkerService.exchange. cbn [fst snd].
    destruct e; try discriminate He; cbn [onmessage fold_left notInitialized];
      rewrite deliver_ignored by (intros e'; apply error_ignored); reflexivity. }
  rewrite Hgen by exact Hno. cbn [fst snd].
  assert (Hreg : forall rs c,
            ErosionWorkerService.settled (fold_left ErosionWorkerService.register rs c)
            = ErosionWorkerService.settled c
            /\ map snd (ErosionWorkerService.listeners
                          (fold_left ErosionWorkerService.register rs c))
               = map snd (ErosionWorkerService.listeners c) ++ rs).
  { induction rs as [| e rs IH]; intros c; cbn [fold_left].
    - rewrite app_nil_r. split; reflexivity.
    - destruct (IH (ErosionWorkerService.register c e)) as [H1 H2]. rewrite H1, H2.
      cbn [ErosionWorkerService.register ErosionWorkerService.settled
           ErosionWorkerService.listeners].
      rewrite map_app, <- app_assoc. split; reflexivity. }
  destruct (Hreg requests ErosionWorkerService.new) as [H1 H2].
  split; [reflexivity |]. split; [exact H1 | exact H2].
Qed.

Lemma calls_before_init_settle_nothing_witness :
  let wc := fold_left (ErosionWorkerService.exchange exampleMath)
                      [Step 10; Pause; Reset (replicate 4 1)]
                      (None, ErosionWorkerService.new) in
  fst wc = None
  /\ ErosionWorkerService.settled (snd wc) = []
  /\ map snd (ErosionWorkerService.listeners (snd wc))
     = [Step 10; Pause; Reset (replicate 4 1)].
Proof.
  apply (calls_before_init_settle_nothing exampleMath [Step 10; Pause; Reset (replicate 4 1)]).
  reflexivity.
Defined.

(** X24. When a step does not throw, the promise of ErosionWorkerService.step
    resolves with alive as stepDroplets returned it and with the height
    map copied BEFORE the batch ran; the map after the batch travels only
    in the progress message, which the handler of step ignores. *)
Theorem step_resolves_with_map_before_batch (M : MathEnv) (batchSize : Z)
    (s s' : ErosionSimulator) :
  stepDroplets M batchSize s = Normal s' ->
  let wc := ErosionWorkerService.exchange M (Some s, ErosionWorkerService.new)
              (Step batchSize) in
  fst wc = Some s'
  /\ ErosionWorkerService.outcome (snd wc) 0
     = Some (ResolvedStep (Some (anyAlive s')) (Some (heightMap s)))
  /\ ErosionWorkerService.listeners (snd wc) = []
  /\ snd (onmessage M (Some s) (Step batchSize))
     = [Progress (heightMap s'); StepDone (anyAlive s') (heightMap s)].
Proof.
  intros E. cbv zeta. unfold ErosionWorkerService.exchange.
  cbn [fst snd onmessage]. rewrite E. cbn [fst snd fold_left].
  rewrite (deliver_ignored _ (Progress (heightMap s')))
    by (intros e'; apply progress_ignored).
  repeat split.
Qed.

Lemma step_resolves_with_map_before_batch_witness :
  let s := initialized halfMath 4 4 flat4 livelyOverlay 1 in
  let s' := stateOf (stepDroplets halfMath 1 s) in
  let wc := ErosionWorkerService.exchange halfMath (Some s, ErosionWorkerService.new)
              (Step 1) in
  fst wc = Some s'
  /\ ErosionWorkerService.outcome (snd wc) 0
     = Some (ResolvedStep (Some (anyAlive s')) (Some (heightMap s)))
  /\ ErosionWorkerService.listeners (snd wc) = []
  /\ snd (onmessage halfMath (Some s) (Step 1))
     = [Progress (heightMap s'); StepDone (anyAlive s') (heightMap s)].
Proof.
  cbv zeta.
  destruct (ready_stepDroplets halfMath 1 (initialized halfMath 4 4 flat4 livelyOverlay 1)
              (initialized_ready halfMath 4 4 flat4 livelyOverlay 1
                 ltac:(lia) ltac:(intros _; reflexivity)))
    as (s' & E & _).
  rewrite E. cbn [stateOf].
  exact (step_resolves_with_map_before_batch halfMath 1
           (initialized halfMath 4 4 flat4 livelyOverlay 1) s' E).
Defined.

(** X25. The only message of the worker that makes a promise of
    ErosionWorkerService reject is a failed init reaching the handler of
    init: the handlers of step and reset test a field error that no step
    or reset message carries, and errors of the engine are posted with
    type error, which no handler accepts. *)
Theorem only_init_is_rejected (e : Request) (r : Response) (error : option ErrorText) :
  ErosionWorkerService.messageHandler e r = Some (Rejected error) ->
  isInit e = true /\ exists text, r = InitFailed text /\ error = Some text.
Proof.
  destruct e, r; cbn; try discriminate;
    intros E; injection E as <-; split; try reflexivity; eexists; split; reflexivity.
Qed.

Lemma only_init_is_rejected_witness :
  isInit (Init (-1) 4 [] noOverlay 1) = true
  /\ exists text, InitFailed (MessageOf RangeError) = InitFailed text
                  /\ Some (MessageOf RangeError) = Some text.
Proof.
  apply (only_init_is_rejected (Init (-1) 4 [] noOverlay 1) (InitFailed (MessageOf RangeError))
           (Some (MessageOf RangeError))).
  reflexivity.
Defined.

Lemma construct_negative_area (M : MathEnv) (w h : Z) (hm : list Qc) (ov : Overlay)
    (c : nat) :
  (w * h < 0)%Z ->
  (let p := Object_assign (scaledParams M w h) ov in
   useFlowAccumulation p || useMultiScale p || useMicroDetails p || useTalusFormation p
   = true) ->
  exists s0, construct M w h hm ov c = Throw RangeError s0.
Proof.
  intros Hneg Hflag. cbv zeta in Hflag.
  unfold construct, allocateMaps. cbv zeta.
  cbn [params width height].
  set (p := Object_assign (scaledParams M w h) ov) in *. clearbody p.
  apply Z.ltb_lt in Hneg. rewrite Hneg.
  destruct (useFlowAccumulation p); [eexists; reflexivity |].
  cbn [bind params]. 
  destruct (useMultiScale p); [eexists; reflexivity |].
  cbn [bind params].
  destruct (useMicroDetails p); [eexists; reflexivity |].
  cbn [bind params].
  destruct (useTalusFormation p); [eexists; reflexivity | discriminate Hflag].
Qed.

(** X26. An init whose width * height is negative, with at least one of the
    features that allocate a map switched on, makes the constructor throw
    RangeError: the worker keeps the simulator it had (none, or the
    previous one), and the promise of ErosionWorkerService.init is
    rejected with the message of that exception. *)
Theorem init_with_negative_area_is_rejected (M : MathEnv) (simulator : Worker) (w h : Z)
    (hm : list Qc) (ov : Overlay) (numDroplets : Qc) :
  (w * h < 0)%Z ->
  (let p := Object_assign (scaledParams M w h) ov in
   useFlowAccumulation p || useMultiScale p || useMicroDetails p || useTalusFormation p
   = true) ->
  let r := ErosionWorkerService.exchange M (simulator, ErosionWorkerService.new)
             (Init w h hm ov numDroplets) in
  fst r = simulator
  /\ ErosionWorkerService.outcome (snd r) 0 = Some (Rejected (Some (MessageOf RangeError)))
  /\ ErosionWorkerService.pending (snd r) 0 = false.
Proof.
  intros Hneg Hflag.
  destruct (construct_negative_area M w h hm ov (callsOf simulator) Hneg Hflag) as [s0 E].
  cbv zeta. unfold ErosionWorkerService.exchange, onmessage. cbn [fst snd].
  rewrite E. repeat split.
Qed.

Lemma init_with_negative_area_is_rejected_witness :
  let r := ErosionWorkerService.exchange exampleMath (None, ErosionWorkerService.new)
             (Init (-2) 2 [] noOverlay 3) in
  fst r = None
  /\ ErosionWorkerService.outcome (snd r) 0 = Some (Rejected (Some (MessageOf RangeError)))
  /\ ErosionWorkerService.pending (snd r) 0 = false.
Proof.
  apply (init_with_negative_area_is_rejected exampleMath None (-2) 2 [] noOverlay 3);
    [reflexivity | reflexivity].
Defined.

(** ** Helpers of the application *)

Lemma handleWheel_range (deltaY z : Qc) :
  frac 1 10 <= handleWheel deltaY z /\ handleWheel deltaY z <= Z2Qc 10.
Proof.
  unfold handleWheel. cbv zeta.
  set (t := z * (1 + - deltaY / Z2Qc 500)). clearbody t.
  split; [| apply Math_min_le_r].
  unfold Math_min. destruct (ltb _ _); [qcompute |].
  unfold Math_max. destruct (ltb t (frac 1 10)) eqn:E; [apply Qcle_refl' |].
  apply ltb_ge in E. exact E.
Qed.

(** X27. Starting from a zoom factor between 0.1 and 10, the zoom factor stays
    between 0.1 and 10 after any sequence of wheel events, whatever their
    deltaY. *)
Theorem zoom_stays_in_range (events : list Qc) (z : Qc) :
  frac 1 10 <= z -> z <= Z2Qc 10 ->
  let z' := fold_left (fun z deltaY => handleWheel deltaY z) events z in
  frac 1 10 <= z' /\ z' <= Z2Qc 10.
Proof.
  intros H0 H1. cbv zeta. revert z H0 H1.
  induction events as [| deltaY events IH]; intros z H0 H1; cbn [fold_left].
  - split; assumption.
  - destruct (handleWheel_range deltaY z). apply IH; assumption.
Qed.

Lemma zoom_stays_in_range_witness :
  let z' := fold_left (fun z deltaY => handleWheel deltaY z)
                      [Z2Qc 100; - Z2Qc 5000; Z2Qc 499] 1 in
  frac 1 10 <= z' /\ z' <= Z2Qc 10.
Proof.
  apply (zoom_stays_in_range [Z2Qc 100; - Z2Qc 5000; Z2Qc 499] 1); qcompute.
Defined.

(** X28. On a width x height height map (both positive), getZ(x, y) returns a
    cell of the map whatever the coordinates (they are clamped to the
    grid), and the cell at the rounded coordinates when these are inside
    the grid. *)
Theorem getZ_reads_inside (hm : list Qc) (width height : Z) (x y : Qc) :
  Z.of_nat (length hm) = (width * height)%Z ->
  (0 < width)%Z -> (0 < height)%Z ->
  In (getZ (Some hm) width height x y) hm
  /\ ((0 <= Math_round x < width)%Z -> (0 <= Math_round y < height)%Z ->
      getZ (Some hm) width height x y = get hm (toIndex width (Math_round x) (Math_round y))).
Proof.
  intros Hlen Hw Hh. unfold getZ.
  replace ((width =? 0)%Z || (height =? 0)%Z) with false
    by (symmetry; apply orb_false_intro; apply Z.eqb_neq; lia).
  cbv zeta. split.
  - set (xi := Z.max 0 (Z.min (width - 1) (Math_round x))).
    set (yi := Z.max 0 (Z.min (height - 1) (Math_round y))).
    assert (Hx : (0 <= xi < width)%Z) by (subst xi; lia).
    assert (Hy : (0 <= yi < height)%Z) by (subst yi; lia).
    pose proof (toIndex_range width height xi yi Hx Hy) as Hi. unfold toIndex in Hi.
    apply list_elem_of_In. eapply list_elem_of_lookup_2. apply get_lookup. lia.
  - intros Hx Hy. unfold toIndex. f_equal. lia.
Qed.

Lemma getZ_reads_inside_witness :
  In (getZ (Some (map Z2Qc [1; 2; 3; 4; 5; 6]%Z)) 3 2 (Z2Qc 7) (- frac 1 3))
     (map Z2Qc [1; 2; 3; 4; 5; 6]%Z)
  /\ ((0 <= Math_round (Z2Qc 7) < 3)%Z -> (0 <= Math_round (- frac 1 3) < 2)%Z ->
      getZ (Some (map Z2Qc [1; 2; 3; 4; 5; 6]%Z)) 3 2 (Z2Qc 7) (- frac 1 3)
      = get (map Z2Qc [1; 2; 3; 4; 5; 6]%Z)
            (toIndex 3 (Math_round (Z2Qc 7)) (Math_round (- frac 1 3)))).
Proof.
  apply (getZ_reads_inside (map Z2Qc [1; 2; 3; 4; 5; 6]%Z) 3 2 (Z2Qc 7) (- frac 1 3));
    [reflexivity | lia | lia].
Defined.

(** *** limitPoints *)

Lemma range_cons (lo hi : Z) : (lo < hi)%Z -> range lo hi = lo :: range (lo + 1) hi.
Proof.
  intros H. unfold range.
  replace (Z.to_nat (hi - lo)) with (S (Z.to_nat (hi - (lo + 1)))) by lia.
  cbn [seq map]. f_equal; [lia |].
  rewrite <- seq_shift, map_map. apply map_ext. intros k. lia.
Qed.

Lemma range_empty (lo : Z) : range lo lo = [].
Proof. unfold range. rewrite Z.sub_diag. reflexivity. Qed.

(** The passes of the loop from i on: the integers i, i + 1, ... below
    maxPoints, as far as the fuel goes. *)
Lemma limitPoints_loop_spec {A : Type} (maxPoints step : Qc) (points : list A) :
  forall (fuel : nat) (i : Z) (result : list (option A)),
    (0 <= i)%Z ->
    exists n : nat,
      (n <= fuel)%nat
      /\ (forall j : Z, (i <= j < i + Z.of_nat n)%Z -> Z2Qc j < maxPoints)
      /\ (n = fuel \/ maxPoints <= Z2Qc (i + Z.of_nat n))
      /\ limitPoints_loop fuel i maxPoints step points result
         = result ++ map (fun j => at_ points (Math_floor (Z2Qc j * step)))
                         (range i (i + Z.of_nat n)).
Proof.
  induction fuel as [| fuel IH]; intros i result Hi; cbn [limitPoints_loop].
  - exists 0%nat. split; [lia |]. split; [intros j Hj; lia |]. split; [left; reflexivity |].
    rewrite Z.add_0_r, range_empty. cbn [map]. rewrite app_nil_r. reflexivity.
  - destruct (ltb (Z2Qc i) maxPoints) eqn:E.
    + apply ltb_lt in E.
      destruct (IH (i + 1)%Z (result ++ [at_ points (Math_floor (Z2Qc i * step))])
                  ltac:(lia)) as (n & Hn & Hlt & Hend & Hres).
      exists (S n). split; [lia |]. split; [| split].
      * intros j Hj. destruct (Z.eq_dec j i) as [-> | Hne]; [exact E | apply Hlt; lia].
      * destruct Hend as [-> | Hend]; [left; reflexivity |].
        right. replace (i + Z.of_nat (S n))%Z with (i + 1 + Z.of_nat n)%Z by lia. exact Hend.
      * rewrite Hres, <- app_assoc. f_equal.
        rewrite (range_cons i (i + Z.of_nat (S n))) by lia. cbn [map app].
        replace (i + Z.of_nat (S n))%Z with (i + 1 + Z.of_nat n)%Z by lia. reflexivity.
    + apply ltb_ge in E. exists 0%nat. split; [lia |]. split; [intros j Hj; lia |].
      split; [right; rewrite Z.add_0_r; exact E |].
      rewrite Z.add_0_r, range_empty. cbn [map]. rewrite app_nil_r. reflexivity.
Qed.

Lemma length_range (lo hi : Z) : length (range lo hi) = Z.to_nat (hi - lo).
Proof. unfold range. rewrite length_map, length_seq. reflexivity. Qed.

(** With a whole [maxPoints] below the number of points, the loop makes
    maxPoints passes, and more fuel changes nothing. *)
Lemma limitPoints_loop_whole {A : Type} (k : Z) (step : Qc) (points : list A) (extra : nat) :
  (0 <= k <= Z.of_nat (length points))%Z ->
  limitPoints_loop (length points + extra) 0 (Z2Qc k) step points []
  = map (fun j => at_ points (Math_floor (Z2Qc j * step))) (range 0 k).
Proof.
  intros Hk.
  destruct (limitPoints_loop_spec (Z2Qc k) step points (length points + extra) 0 []
              ltac:(lia)) as (n & Hn & Hlt & Hend & ->).
  cbn [app]. f_equal. f_equal.
  assert (Hle : (Z.of_nat n <= k)%Z).
  { destruct (Z.le_gt_cases (Z.of_nat n) k) as [H | H]; [exact H |].
    specialize (Hlt k ltac:(lia)). apply Z2Qc_lt in Hlt. lia. }
  destruct Hend as [-> | Hend]; [lia |].
  apply Z2Qc_le in Hend. lia.
Qed.

Lemma limitPoints_length {A : Type} (points : list A) (k : Z) :
  (1 <= k)%Z ->
  length (limitPoints points (Some (Z2Qc k))) = Nat.min (length points) (Z.to_nat k).
Proof.
  intros Hk. unfold limitPoints.
  assert (H0 : eqb (Z2Qc k) 0 = false).
  { unfold eqb. destruct (Qc_eq_dec (Z2Qc k) 0) as [E | _]; [| reflexivity].
    exfalso. assert (Hlt : Z2Qc 0 < Z2Qc k) by (apply (proj1 (Z2Qc_lt 0 k)); lia).
    rewrite E in Hlt. revert Hlt. qcompute. }
  rewrite H0. cbn [orb].
  destruct (leb (Z2Qc (Z.of_nat (length points))) (Z2Qc k)) eqn:E.
  - apply leb_le, Z2Qc_le in E. rewrite length_map. lia.
  - assert (Hgt : (k < Z.of_nat (length points))%Z).
    { destruct (Z.lt_ge_cases k (Z.of_nat (length points))) as [H | H]; [exact H |].
      exfalso. apply (proj1 (Z2Qc_le _ _)) in H. apply leb_le in H. congruence. }
    cbv zeta.
    pose proof (limitPoints_loop_whole k (Z2Qc (Z.of_nat (length points)) / Z2Qc k)
                  points 0 ltac:(lia)) as Hloop.
    rewrite Nat.add_0_r in Hloop. rewrite Hloop, length_map, length_range. lia.
Qed.



Lemma pick_sublist {A : Type} (l : list A) :
  forall (base : nat) (idxs : list nat),
    StronglySorted lt idxs ->
    Forall (fun i => base <= i < base + length l)%nat idxs ->
    exists sel, map (fun i => l !! (i - base)%nat) idxs = map Some sel /\ sublist sel l.
Proof.
  induction l as [| x l IH]; intros base idxs Hs Hr.
  - destruct idxs as [| i idxs]; [exists []; split; [reflexivity | constructor] |].
    apply Forall_cons_1 in Hr as [Hi _]. cbn [length] in Hi. lia.
  - destruct idxs as [| i0 rest]; [exists []; split; [reflexivity | apply sublist_nil_l] |].
    apply StronglySorted_inv in Hs as [Hs Hlt].
    apply Forall_cons_1 in Hr as [Hi0 Hrest]. cbn [length] in Hi0, Hrest.
    destruct (Nat.eq_dec i0 base) as [-> | Hne].
    + destruct (IH (S base) rest Hs) as (sel & Hmap & Hsub).
      { rewrite List.Forall_forall in Hlt. apply Forall_forall. intros i Hi.
        pose proof (proj1 (Forall_forall _ _) Hrest i Hi) as Hb.
        specialize (Hlt i (proj1 (list_elem_of_In _ _) Hi)). cbn in Hb, Hlt. lia. }
      exists (x :: sel). split; [| apply sublist_skip, Hsub].
      cbn [map]. rewrite Nat.sub_diag. cbn [lookup list_lookup]. f_equal.
      rewrite <- Hmap. apply map_ext_in. intros i Hi.
      rewrite List.Forall_forall in Hlt. specialize (Hlt i Hi).
      replace (i - base)%nat with (S (i - S base)) by lia. reflexivity.
    + destruct (IH (S base) (i0 :: rest)) as (sel & Hmap & Hsub).
      { constructor; assumption. }
      { apply Forall_cons. split; [lia |].
        rewrite List.Forall_forall in Hlt. apply Forall_forall. intros i Hi.
        pose proof (proj1 (Forall_forall _ _) Hrest i Hi) as Hb.
        specialize (Hlt i (proj1 (list_elem_of_In _ _) Hi)). cbn in Hb, Hlt. lia. }
      exists sel. split; [| apply sublist_cons, Hsub].
      rewrite <- Hmap. apply map_ext_in. intros i Hi.
      assert (Hge : (S base <= i)%nat).
      { destruct Hi as [<- | Hi]; [lia |].
        rewrite List.Forall_forall in Hlt. specialize (Hlt i Hi). lia. }
      replace (i - base)%nat with (S (i - S base)) by lia. reflexivity.
Qed.

Lemma increasing_range (f : Z -> nat) (lo hi : Z) :
  (forall j, (lo <= j)%Z -> (j + 1 < hi)%Z -> (f j < f (j + 1)%Z)%nat) ->
  StronglySorted lt (map f (range lo hi)).
Proof.
  intros Hf. remember (Z.to_nat (hi - lo)) as n eqn:En. revert lo En Hf.
  induction n as [| n IH]; intros lo En Hf.
  - unfold range. rewrite <- En. constructor.
  - rewrite range_cons by lia. cbn [map]. constructor.
    + apply IH; [lia |]. intros j Hj1 Hj2. apply Hf; lia.
    + apply List.Forall_forall. intros v Hv. apply in_map_iff in Hv as (j & <- & Hj).
      apply In_range in Hj.
      assert (Hmono : forall m : nat, (lo + 1 + Z.of_nat m < hi)%Z ->
                (f lo < f (lo + 1 + Z.of_nat m)%Z)%nat).
      { induction m as [| m IHm]; intros Hm.
        - rewrite Z.add_0_r. apply Hf; lia.
        - specialize (IHm ltac:(lia)).
          pose proof (Hf (lo + 1 + Z.of_nat m)%Z ltac:(lia) ltac:(lia)) as Hstep.
          replace (lo + 1 + Z.of_nat (S m))%Z with (lo + 1 + Z.of_nat m + 1)%Z by lia. lia. }
      replace j with (lo + 1 + Z.of_nat (Z.to_nat (j - lo - 1)))%Z by lia.
      apply Hmono. lia.
Qed.

(** The cells the sampling loop reads: with K passes over L points,
    K < L, pass j reads index floor(j L / K). *)
Lemma sample_step_Q (a b c d : Q) :
  (a * b == c -> 0 < a -> a < c -> 0 <= d -> d + 1 <= a ->
   1 < b /\ 0 <= d * b /\ d * b + b <= c)%Q.
Proof.
  intros E Ha Hac Hd Hda.
  assert (Hb : (1 < b)%Q).
  { destruct (Qlt_le_dec 1 b) as [H | H]; [exact H |]. exfalso.
    assert ((0 <= a * (1 - b))%Q) by (apply Qmult_le_0_compat; lra). lra. }
  split; [exact Hb |].
  assert ((0 <= d * b)%Q) by (apply Qmult_le_0_compat; lra).
  assert ((0 <= (a - d - 1) * b)%Q) by (apply Qmult_le_0_compat; lra).
  split; lra.
Qed.

Lemma sample_index (L K j : Z) :
  (0 < K < L)%Z -> (0 <= j < K)%Z ->
  let f := fun j => Math_floor (Z2Qc j * (Z2Qc L / Z2Qc K)) in
  (0 <= f j < L)%Z /\ (f j + 1 <= f (j + 1))%Z.
Proof.
  intros HK Hj. cbv beta zeta.
  assert (Hk0 : Z2Qc K <> 0).
  { intros E. assert (Hlt : Z2Qc 0 < Z2Qc K) by (apply (proj1 (Z2Qc_lt 0 K)); lia).
    rewrite E in Hlt. revert Hlt. qcompute. }
  pose proof (Qcmult_div_r (Z2Qc L) (Z2Qc K) Hk0) as Hstep.
  assert (HKpos : Z2Qc 0 < Z2Qc K) by (apply (proj1 (Z2Qc_lt 0 K)); lia).
  assert (HKL : Z2Qc K < Z2Qc L) by (apply (proj1 (Z2Qc_lt K L)); lia).
  assert (Hj0 : Z2Qc 0 <= Z2Qc j) by (apply (proj1 (Z2Qc_le 0 j)); lia).
  assert (Hj1 : Z2Qc j + 1 <= Z2Qc K).
  { change 1 with (Z2Qc 1). rewrite <- Z2Qc_plus. apply (proj1 (Z2Qc_le (j + 1) K)). lia. }
  rewrite (Z2Qc_plus j 1). change (Z2Qc 1) with 1.
  set (step := Z2Qc L / Z2Qc K) in *. set (q := Z2Qc j) in *.
  assert (Hs : 1 < step /\ 0 <= q * step /\ q * step + step <= Z2Qc L).
  { apply (f_equal this) in Hstep. cbn [this Qcmult Q2Qc] in Hstep.
    assert (E : (this (Z2Qc K) * this step == this (Z2Qc L))%Q)
      by (rewrite <- Hstep; symmetry; apply Qred_correct).
    destruct (sample_step_Q (this (Z2Qc K)) (this step) (this (Z2Qc L)) (this q) E)
      as (S1 & S2 & S3); try assumption.
    - clear -Hj1. unfold Qcle in Hj1. cbn [this Qcplus Q2Qc] in Hj1.
      rewrite Qred_correct in Hj1. exact Hj1.
    - unfold Qclt, Qcle. cbn [this Qcplus Qcmult Q2Qc]. rewrite ?Qred_correct.
      repeat split; assumption. }
  clearbody step q. destruct Hs as (Hs1 & Hq0 & Hq1).
  pose proof (Math_floor_le (q * step)) as F1. pose proof (Math_floor_lt (q * step)) as F2.
  split.
  - apply Math_floor_bounds; [exact Hq0 |]. clear F1 F2 Hstep. qc2q. lra.
  - pose proof (Math_floor_bounds ((q + 1) * step) (Math_floor (q * step) + 1)
                  (Math_floor ((q + 1) * step) + 1)) as Hb.
    destruct Hb as [Hb _]; [| | lia].
    + rewrite Z2Qc_plus. change (Z2Qc 1) with 1. clear F2 Hstep Hq1. qc2q. lra.
    + rewrite Z2Qc_plus. change (Z2Qc 1) with 1. apply Math_floor_lt.
Qed.

(** X29. For an integer maxPoints >= 1, limitPoints returns min(points.length,
    maxPoints) elements, all of them elements of points (never undefined)
    and in the order of points, without repeats of a position: the result
    is a subsequence of the input. *)
Theorem limitPoints_selects_in_order {A : Type} (points : list A) (k : Z) :
  (1 <= k)%Z ->
  exists sel : list A,
    limitPoints points (Some (Z2Qc k)) = map Some sel
    /\ sublist sel points
    /\ length sel = Nat.min (length points) (Z.to_nat k).
Proof.
  intros Hk.
  assert (Hlen : forall sel, limitPoints points (Some (Z2Qc k)) = map Some sel ->
                   length sel = Nat.min (length points) (Z.to_nat k)).
  { intros sel E. rewrite <- (length_map Some sel), <- E. apply limitPoints_length, Hk. }
  unfold limitPoints in *.
  assert (H0 : eqb (Z2Qc k) 0 = false).
  { unfold eqb. destruct (Qc_eq_dec (Z2Qc k) 0) as [E | _]; [| reflexivity].
    exfalso. assert (Hlt : Z2Qc 0 < Z2Qc k) by (apply (proj1 (Z2Qc_lt 0 k)); lia).
    rewrite E in Hlt. revert Hlt. qcompute. }
  rewrite H0 in *. cbn [orb] in *.
  destruct (leb (Z2Qc (Z.of_nat (length points))) (Z2Qc k)) eqn:E.
  - exists points. split; [reflexivity |]. split; [reflexivity | apply Hlen; reflexivity].
  - assert (Hgt : (k < Z.of_nat (length points))%Z).
    { destruct (Z.lt_ge_cases k (Z.of_nat (length points))) as [H | H]; [exact H |].
      exfalso. apply (proj1 (Z2Qc_le _ _)) in H. apply leb_le in H. congruence. }
    cbv zeta in *.
    pose proof (limitPoints_loop_whole k (Z2Qc (Z.of_nat (length points)) / Z2Qc k)
                  points 0 ltac:(lia)) as Hloop.
    rewrite Nat.add_0_r in Hloop. rewrite Hloop in *.
    set (f := fun j => Math_floor (Z2Qc j * (Z2Qc (Z.of_nat (length points)) / Z2Qc k))) in *.
    destruct (pick_sublist points 0 (map (fun j => Z.to_nat (f j)) (range 0 k)))
      as (sel & Hmap & Hsub).
    + rewrite <- (map_map f Z.to_nat). rewrite map_map.
      apply increasing_range. intros j Hj0 Hj1.
      pose proof (sample_index (Z.of_nat (length points)) k j ltac:(lia) ltac:(lia)) as H.
      cbv beta zeta in H. subst f. cbv beta. lia.
    + apply Forall_forall. intros i Hi. apply list_elem_of_In in Hi.
      apply in_map_iff in Hi as (j & <- & Hj). apply In_range in Hj.
      pose proof (sample_index (Z.of_nat (length points)) k j ltac:(lia) ltac:(lia)) as H.
      cbv beta zeta in H. subst f. cbv beta. lia.
    + assert (Hres : map (fun j => at_ points (f j)) (range 0 k) = map Some sel).
      { rewrite <- Hmap, map_map. apply map_ext_in. intros j Hj. apply In_range in Hj.
        pose proof (sample_index (Z.of_nat (length points)) k j ltac:(lia) ltac:(lia)) as H.
        cbv beta zeta in H. subst f. cbv beta. unfold at_.
        destruct (Z.ltb_spec (Math_floor (Z2Qc j * (Z2Qc (Z.of_nat (length points)) / Z2Qc k))) 0)
          as [Hneg | _]; [lia |].
        rewrite Nat.sub_0_r. reflexivity. }
      exists sel. split; [exact Hres |]. split; [exact Hsub | apply Hlen, Hres].
Qed.

Lemma limitPoints_selects_in_order_witness :
  exists sel : list Z,
    limitPoints [10; 20; 30; 40; 50; 60; 70]%Z (Some (Z2Qc 3)) = map Some sel
    /\ sublist sel [10; 20; 30; 40; 50; 60; 70]%Z
    /\ length sel = Nat.min (length [10; 20; 30; 40; 50; 60; 70]%Z) (Z.to_nat 3).
Proof. apply (limitPoints_selects_in_order [10; 20; 30; 40; 50; 60; 70]%Z 3). lia. Defined.

(** *** Grey levels *)

Lemma scan_min (l : list Qc) (a : Qc) :
  exists m,
    fold_left (fun m v => match m with
                          | None => Some v
                          | Some lo => if ltb v lo then Some v else Some lo
                          end) l (Some a) = Some m
    /\ m <= a /\ Forall (fun v => m <= v) l.
Proof.
  revert a. induction l as [| v l IH]; intros a; cbn [fold_left].
  - exists a. split; [reflexivity |]. split; [apply Qcle_refl' | constructor].
  - destruct (ltb v a) eqn:E.
    + apply ltb_lt in E. destruct (IH v) as (m & Hm & Hle & Hall).
      exists m. split; [exact Hm |].
      split; [eapply Qcle_trans'; [exact Hle | apply Qclt_le_weak, E] |].
      constructor; assumption.
    + apply ltb_ge in E. destruct (IH a) as (m & Hm & Hle & Hall).
      exists m. split; [exact Hm |]. split; [exact Hle |].
      constructor; [eapply Qcle_trans'; eassumption | exact Hall].
Qed.

Lemma scan_max (l : list Qc) (a : Qc) :
  exists m,
    fold_left (fun m v => match m with
                          | None => Some v
                          | Some hi => if gtb v hi then Some v else Some hi
                          end) l (Some a) = Some m
    /\ a <= m /\ Forall (fun v => v <= m) l.
Proof.
  revert a. induction l as [| v l IH]; intros a; cbn [fold_left].
  - exists a. split; [reflexivity |]. split; [apply Qcle_refl' | constructor].
  - unfold gtb. destruct (ltb a v) eqn:E.
    + apply ltb_lt in E. destruct (IH v) as (m & Hm & Hle & Hall).
      exists m. split; [exact Hm |].
      split; [eapply Qcle_trans'; [apply Qclt_le_weak, E | exact Hle] |].
      constructor; assumption.
    + apply ltb_ge in E. destruct (IH a) as (m & Hm & Hle & Hall).
      exists m. split; [exact Hm |]. split; [exact Hle |].
      constructor; [eapply Qcle_trans'; eassumption | exact Hall].
Qed.

Lemma newMin_least (heightMap : list Qc) :
  heightMap <> [] ->
  exists lo, newMin heightMap = Some lo /\ Forall (fun v => lo <= v) heightMap.
Proof.
  destruct heightMap as [| v l]; [congruence |]. intros _. unfold newMin. cbn [fold_left].
  destruct (scan_min l v) as (m & Hm & Hle & Hall).
  exists m. split; [exact Hm |]. constructor; assumption.
Qed.

Lemma newMax_greatest (heightMap : list Qc) :
  heightMap <> [] ->
  exists hi, newMax heightMap = Some hi /\ Forall (fun v => v <= hi) heightMap.
Proof.
  destruct heightMap as [| v l]; [congruence |]. intros _. unfold newMax. cbn [fold_left].
  destruct (scan_max l v) as (m & Hm & Hle & Hall).
  exists m. split; [exact Hm |]. constructor; assumption.
Qed.

Lemma level_Q (c lo hi : Q) :
  (lo <= c -> c <= hi -> ~ hi - lo == 0 ->
   0 <= (c - lo) / (hi - lo) * 255 /\ (c - lo) / (hi - lo) * 255 <= 255)%Q.
Proof.
  intros H0 H1 Hne.
  assert (Hpos : (0 < hi - lo)%Q).
  { destruct (Qlt_le_dec 0 (hi - lo)) as [H | H]; [exact H |]. exfalso. apply Hne. lra. }
  assert (A : (0 <= (c - lo) / (hi - lo))%Q) by (apply Qle_shift_div_l; lra).
  assert (B : ((c - lo) / (hi - lo) <= 1)%Q) by (apply Qle_shift_div_r; lra).
  generalize dependent ((c - lo) / (hi - lo))%Q. intros t A B. split; lra.
Qed.

(** X30. The grey level runBatch computes for a cell of a non-empty height
    map, floor((h - newMin) / (newMax - newMin || 1) * 255), is an integer
    between 0 and 255, also when the map is flat (newMax = newMin). *)
Theorem norm_is_a_byte (heightMap : list Qc) (i : Z) :
  (0 <= i < Z.of_nat (length heightMap))%Z ->
  exists level, norm heightMap i = Some level /\ (0 <= level <= 255)%Z.
Proof.
  intros Hi.
  assert (Hne : heightMap <> []) by (destruct heightMap; [cbn in Hi; lia | congruence]).
  destruct (newMin_least heightMap Hne) as (lo & Elo & Hlo).
  destruct (newMax_greatest heightMap Hne) as (hi & Ehi & Hhi).
  unfold norm. rewrite Elo, Ehi. cbv zeta. eexists. split; [reflexivity |].
  pose proof (get_Forall _ _ i Hlo Hi) as H0. pose proof (get_Forall _ _ i Hhi Hi) as H1.
  cbv beta in H0, H1. generalize dependent (get heightMap i). intros c H0 H1.
  assert (Hb : 0 <= (c - lo) / (if eqb (hi - lo) 0 then 1 else hi - lo) * Z2Qc 255
               /\ (c - lo) / (if eqb (hi - lo) 0 then 1 else hi - lo) * Z2Qc 255
                  <= Z2Qc 255).
  { unfold eqb. destruct (Qc_eq_dec (hi - lo) 0) as [E | Hd].
    - assert (Ec : c - lo = 0).
      { apply Qcle_antisym.
        - rewrite <- E. clear E. qc2q. lra.
        - clear E. qc2q. lra. }
      rewrite Ec. split; qcompute.
    - assert (Hd' : (~ this hi - this lo == 0)%Q).
      { intros E. apply Hd. apply Qc_is_canon. cbn [this Qcminus Qcplus Qcopp Q2Qc].
        unfold Qcminus, Qcopp. cbn [this Qcplus Q2Qc]. rewrite !Qred_correct. exact E. }
      pose proof (level_Q (this c) (this lo) (this hi) H0 H1 Hd') as [A B].
      unfold Qcle, Qcdiv, Qcminus, Qcopp, Z2Qc.
      cbn [this Qcplus Qcmult Qcinv Q2Qc]. rewrite !Qred_correct.
      split; [exact A | exact B]. }
  destruct Hb as [A B].
  pose proof (Math_floor_bounds _ 0 256 A) as Hf.
  destruct Hf as [F0 F1]; [| lia].
  eapply Qcle_lt_trans'; [exact B | qcompute].
Qed.

Lemma norm_is_a_byte_witness :
  exists level, norm (map Z2Qc [3; 1; 4; 1; 5; 9; 2; 6]%Z) 4 = Some level
                /\ (0 <= level <= 255)%Z.
Proof.
  apply (norm_is_a_byte (map Z2Qc [3; 1; 4; 1; 5; 9; 2; 6]%Z) 4). cbn. lia.
Defined.

